(** * Virtual garden: kube-apiserver secrets, checksum annotations, deletion flow

    A shallow embedding of
      - [pkg/virtualgarden/kube_api_server_deployments.go]
        ([deleteDeployments], [computeApiServerAnnotations],
        [addChecksumsToAnnotations], [getAPIServerCommand] and the getters
        it reads, [getAPIServerVolumeMounts], [getAPIServerVolumes]),
      - [pkg/virtualgarden/kube_api_server_secrets.go],
      - [pkg/virtualgarden/operation_delete.go].

    Go maps are reference values: they live in a heap of map cells and are
    handled through possibly-nil references.  Code that talks to the
    cluster runs in a state monad over a [World] (objects in the store, a
    schedule of store faults, the entropy the random source will deliver,
    and a trace of the calls issued). *)

From stdpp Require Import gmap strings list fin_maps.
From Stdlib Require Import Strings.Byte Strings.Ascii.

Set Default Proof Using "Type".


(** ** Go maps [map[string]string] on a heap *)

Module GoMap.

(** A location is the index of a cell; allocation appends a cell. *)
Definition loc := nat.

(** The contents of one [map[string]string]. *)
Abbreviation cell := (gmap string string).

(** All maps allocated so far. *)
Abbreviation Heap := (list (gmap string string)).

(** A Go map value: [None] is the nil map. *)
Definition ref := option loc.

(** The contents seen through a reference (nil reads as empty). *)
Definition contents (h : Heap) (r : ref) : gmap string string :=
  match r with
  | None => ∅
  | Some l => default ∅ (h !! l)
  end.

(** [make(map[string]string)]: a new, empty cell. *)
Definition make (h : Heap) : loc * Heap := (List.length h, h ++ [∅]).

(** [value, found := m[key]]: the comma-ok read; total on a nil map. *)
Definition index (h : Heap) (r : ref) (key : string) : string * bool :=
  match contents h r !! key with
  | Some v => (v, true)
  | None => ("", false)
  end.

(** [m[key] = value] on a map obtained from [make]. *)
Definition assign (l : loc) (key value : string) (h : Heap) : Heap :=
  alter (fun m => <[key := value]> m) l h.

End GoMap.

(** ** The operation and its imports *)

(** [api.GardenerControlplane], the two switches read here. *)
Record GardenerControlplane := {
  ValidatingWebhookEnabled : bool;
  MutatingWebhookEnabled : bool;
}.

(** [api.AuditWebhookConfig]. *)
Record AuditWebhookConfig := {
  Config : string;
}.

(** [api.KubeAPIServer], the fields read by the secrets code.  The Go field
    [imports.VirtualGarden.KubeAPIServer] is a pointer that the callers
    keep non-nil; it is a plain record here. *)
Record KubeAPIServer := {
  GardenerControlplane_ : GardenerControlplane;
  AuditWebhookConfig_ : AuditWebhookConfig;
}.

(** The receiver [o *operation]: the namespace all objects live in, the
    imports, and the namespace-handling flag.  The client is the store
    held in the [World]; the logger is not modelled. *)
Record operation := {
  namespace : string;
  imports : KubeAPIServer;
  handleNamespace : bool;
}.

(** ** Errors *)

(** The ways a task graph can be malformed. *)
Inductive CompileError :=
  | DuplicateName (name : string)
  | UnknownDependency (task dependency : string)
  | Cycle (cycle : list string).

(** Go's [error] values met by this code.  A nil error is [None] of
    [option error]. *)
Inductive error :=
  | ErrNotFound                      (* apierrors.IsNotFound holds *)
  | ErrAlreadyExists                 (* Create on an existing object *)
  | ErrStore (reason : string)       (* any other failure of the store *)
  | ErrRandom                        (* the random source failed *)
  | ErrCompile (e : CompileError)    (* the task graph was rejected *)
  | ErrFlow (task : string) (cause : error). (* a workflow failed at [task] *)

(** ** Objects of the store *)

(** [metav1.ObjectMeta], the identifying fields. *)
Record ObjectMeta := {
  Name : string;
  Namespace : string;
}.

(** [client.ObjectKey], that is [types.NamespacedName]. *)
Abbreviation ObjectKey := (string * string)%type.

Definition ObjectKeyFromMeta (m : ObjectMeta) : ObjectKey := (Namespace m, Name m).

(** [corev1.Secret]; [Data] is [None] for a nil map. *)
Record Secret := {
  SecretMeta : ObjectMeta;
  Data : option (gmap string (list byte));
}.

(** [appsv1.Deployment]; only its identity matters to the code embedded
    here, the pod template is kept as its annotations. *)
Record Deployment := {
  DeploymentMeta : ObjectMeta;
  TemplateAnnotations : gmap string string;
}.

#[global] Instance byte_eq_decision : EqDecision byte := Byte.byte_eq_dec.
#[global] Instance CompileError_eq_decision : EqDecision CompileError.
Proof. solve_decision. Defined.
#[global] Instance error_eq_decision : EqDecision error.
Proof. solve_decision. Defined.
#[global] Instance ObjectMeta_eq_decision : EqDecision ObjectMeta.
Proof. solve_decision. Defined.
#[global] Instance Secret_eq_decision : EqDecision Secret.
Proof. solve_decision. Defined.
#[global] Instance Deployment_eq_decision : EqDecision Deployment.
Proof. solve_decision. Defined.

(** [secret.Data[key]]: reading a nil map or a missing key gives the zero
    value, the nil slice. *)
Definition data_index (d : option (gmap string (list byte))) (key : string) : list byte :=
  match d with
  | None => []
  | Some m => default [] (m !! key)
  end.

(** [value, ok := secret.Data[key]]: the entry, if there is one. *)
Definition data_lookup (d : option (gmap string (list byte))) (key : string)
    : option (list byte) :=
  d ≫= (fun m => m !! key).

(** ** The world the operation acts on *)

Inductive Kind := KSecret | KDeployment.

(** The calls issued to the collaborators, in order. *)
Inductive Event :=
  | EvGet (k : Kind) (key : ObjectKey)
  | EvCreate (k : Kind) (key : ObjectKey)
  | EvUpdate (k : Kind) (key : ObjectKey)
  | EvDelete (k : Kind) (key : ObjectKey)
  | EvRandom (n : nat)
  | EvProgress (completed total : nat).

(** The store keeps, under each identity, what an object holds besides
    its identity: the [Data] of a secret, the template annotations of a
    deployment. *)
Abbreviation SecretData := (option (gmap string (list byte))).

(** [faults] is the schedule of the store's own failures: each call to the
    store takes the next entry, [Some reason] makes that call fail without
    effect, [None] (or an exhausted schedule) lets it act on the objects.
    [entropy] holds the bytes the random source delivers next; a read
    beyond its end fails. *)
Record World := {
  secrets : gmap ObjectKey SecretData;
  deployments : gmap ObjectKey (gmap string string);
  faults : list (option string);
  entropy : list byte;
  trace : list Event;
}.

Definition set_secrets (f : gmap ObjectKey SecretData → gmap ObjectKey SecretData)
    (w : World) : World :=
  {| secrets := f (secrets w); deployments := deployments w; faults := faults w;
     entropy := entropy w; trace := trace w |}.
Definition set_deployments
    (f : gmap ObjectKey (gmap string string) → gmap ObjectKey (gmap string string))
    (w : World) : World :=
  {| secrets := secrets w; deployments := f (deployments w); faults := faults w;
     entropy := entropy w; trace := trace w |}.
Definition set_faults (fs : list (option string)) (w : World) : World :=
  {| secrets := secrets w; deployments := deployments w; faults := fs;
     entropy := entropy w; trace := trace w |}.
Definition set_entropy (e : list byte) (w : World) : World :=
  {| secrets := secrets w; deployments := deployments w; faults := faults w;
     entropy := e; trace := trace w |}.
Definition emit (ev : Event) (w : World) : World :=
  {| secrets := secrets w; deployments := deployments w; faults := faults w;
     entropy := entropy w; trace := trace w ++ [ev] |}.

(** ** A state monad over the world *)

Definition M (A : Type) : Type := World → A * World.

#[global] Instance M_ret : MRet M := fun A a w => (a, w).
#[global] Instance M_bind : MBind M := fun A B k m w => let '(a, w') := m w in k a w'.

Definition ret {A} (a : A) : M A := mret a.
Definition gets {A} (f : World → A) : M A := fun w => (f w, w).
Definition modify (f : World → World) : M unit := fun w => (tt, f w).

(** ** The store client (sigs.k8s.io/controller-runtime/pkg/client) *)

(** What the client needs of an object type: its kind, its identity, what
    it holds besides, and where objects of the type are kept. *)
Class Object (T : Type) := {
  Content : Type;
  kindOf : Kind;
  metaOf : T → ObjectMeta;
  contentOf : T → Content;
  object : ObjectMeta → Content → T;
  stored : World → gmap ObjectKey Content;
  set_stored : (gmap ObjectKey Content → gmap ObjectKey Content) → World → World;
}.

#[global] Instance Secret_Object : Object Secret := {|
  kindOf := KSecret; metaOf := SecretMeta; contentOf := Data;
  object m d := {| SecretMeta := m; Data := d |};
  stored := secrets; set_stored := set_secrets |}.
#[global] Instance Deployment_Object : Object Deployment := {|
  kindOf := KDeployment; metaOf := DeploymentMeta; contentOf := TemplateAnnotations;
  object m a := {| DeploymentMeta := m; TemplateAnnotations := a |};
  stored := deployments; set_stored := set_deployments |}.

(** The client is an interface of an external library.  Its model here is
    a sequentially consistent store: a call either fails for a reason of
    the store's own (the next entry of [faults]) without effect, or acts on
    the objects; NotFound and AlreadyExists come from the objects alone.
    An absent object makes [Delete] answer NotFound, which is the case the
    callers' [IgnoreNotFound] is there for. *)
Module client.

(** [client.IgnoreNotFound]. *)
Definition IgnoreNotFound (err : option error) : option error :=
  match err with
  | Some ErrNotFound => None
  | _ => err
  end.

Definition ObjectKeyFromObject `{Object T} (obj : T) : ObjectKey :=
  ObjectKeyFromMeta (metaOf obj).

(** The store's own failure for the call being made, if any. *)
Definition next_fault : M (option string) := fun w =>
  match faults w with
  | [] => (None, w)
  | f :: fs => (f, set_faults fs w)
  end.

(** [c.Get(ctx, key, obj)]: fills [obj] from the store, with the identity
    it was asked for; on an error [obj] is left as it was. *)
Definition Get `{Object T} (key : ObjectKey) (obj : T) : M (T * option error) :=
  modify (emit (EvGet (kindOf (T:=T)) key)) ;;
  f ← next_fault;
  match f with
  | Some reason => ret (obj, Some (ErrStore reason))
  | None =>
      found ← gets (fun w => stored (T:=T) w !! key);
      match found with
      | Some cur => ret (object {| Name := key.2; Namespace := key.1 |} cur, None)
      | None => ret (obj, Some ErrNotFound)
      end
  end.

(** [c.Create(ctx, obj)]. *)
Definition Create `{Object T} (obj : T) : M (option error) :=
  let key := ObjectKeyFromObject obj in
  modify (emit (EvCreate (kindOf (T:=T)) key)) ;;
  f ← next_fault;
  match f with
  | Some reason => ret (Some (ErrStore reason))
  | None =>
      found ← gets (fun w => stored (T:=T) w !! key);
      match found with
      | Some _ => ret (Some ErrAlreadyExists)
      | None => modify (set_stored (fun m => <[key := contentOf obj]> m));; ret None
      end
  end.

(** [c.Update(ctx, obj)]. *)
Definition Update `{Object T} (obj : T) : M (option error) :=
  let key := ObjectKeyFromObject obj in
  modify (emit (EvUpdate (kindOf (T:=T)) key)) ;;
  f ← next_fault;
  match f with
  | Some reason => ret (Some (ErrStore reason))
  | None =>
      found ← gets (fun w => stored (T:=T) w !! key);
      match found with
      | Some _ => modify (set_stored (fun m => <[key := contentOf obj]> m));; ret None
      | None => ret (Some ErrNotFound)
      end
  end.

(** [c.Delete(ctx, obj)]: an absent object is reported as NotFound. *)
Definition Delete `{Object T} (obj : T) : M (option error) :=
  let key := ObjectKeyFromObject obj in
  modify (emit (EvDelete (kindOf (T:=T)) key)) ;;
  f ← next_fault;
  match f with
  | Some reason => ret (Some (ErrStore reason))
  | None =>
      found ← gets (fun w => stored (T:=T) w !! key);
      match found with
      | Some _ => modify (set_stored (T:=T) (fun m => delete key m));; ret None
      | None => ret (Some ErrNotFound)
      end
  end.

End client.

(** ** Create-or-update (sigs.k8s.io/controller-runtime/pkg/controller/controllerutil) *)

Module controllerutil.

Inductive OperationResult :=
  | OperationResultNone
  | OperationResultCreated
  | OperationResultUpdated.

(** Modelled from the spec: [controllerutil.CreateOrUpdate] is not part of
    the sources at hand.  It fetches the current state of the object's
    identity; when the store reports NotFound it takes the object as
    given, applies [f] and creates it; otherwise it applies [f] to the
    fetched object and updates the store unless [f] changed nothing.  It
    returns whether the object was created, updated or left unchanged,
    plus any store error; NotFound from the fetch is not an error.  The
    object is returned as the in-place updates leave it. *)
Definition CreateOrUpdate `{Object T} `{!EqDecision T} (obj : T)
    (f : T → T * option error) : M (T * OperationResult * option error) :=
  let key := client.ObjectKeyFromObject obj in
  '(obj, err) ← client.Get key obj;
  match err with
  | Some e =>
      if decide (e = ErrNotFound) then
        let '(obj, err) := f obj in
        match err with
        | Some _ => ret (obj, OperationResultNone, err)
        | None =>
            err ← client.Create obj;
            match err with
            | Some _ => ret (obj, OperationResultNone, err)
            | None => ret (obj, OperationResultCreated, None)
            end
        end
      else ret (obj, OperationResultNone, err)
  | None =>
      let existing := obj in
      let '(obj, err) := f obj in
      match err with
      | Some _ => ret (obj, OperationResultNone, err)
      | None =>
          if decide (existing = obj) then ret (obj, OperationResultNone, None)
          else
            err ← client.Update obj;
            match err with
            | Some _ => ret (obj, OperationResultNone, err)
            | None => ret (obj, OperationResultUpdated, None)
            end
      end
  end.

End controllerutil.

(** ** Randomness and encodings *)

Module cryptorand.

(** [crypto/rand.Read(b)] for a buffer of [n] bytes: all [n] bytes are
    delivered, or the read fails and the buffer stays zeroed. *)
Definition Read (n : nat) : M (list byte * option error) := fun w =>
  let w := emit (EvRandom n) w in
  if decide (n ≤ List.length (entropy w)) then
    ((take n (entropy w), None), set_entropy (drop n (entropy w)) w)
  else ((replicate n x00, Some ErrRandom), w).

End cryptorand.

Module utils.

Definition alphanumeric : list byte :=
  String.list_byte_of_string
    "abcdefghijklmnopqrstuvwxyzABCDEFGHIJKLMNOPQRSTUVWXYZ0123456789".

(** A byte of entropy picks one character of the set. *)
Definition pick (charset : list byte) (b : byte) : byte :=
  default x00 (charset !! (N.to_nat (Byte.to_N b) mod List.length charset)).

(** [utils.GenerateRandomString(n)] of
    [github.com/gardener/gardener/pkg/utils], a library outside this
    repository whose code is not among the sources: [n] characters of the
    alphanumeric set, drawn with the system's random source, or the
    source's error.  Assumed here: one read of [n] bytes and one byte for
    each character.  The number of bytes the helper takes from the source
    is an assumption of this model, not a fact of the code at hand. *)
Definition GenerateRandomString (n : nat) : M (string * option error) :=
  '(output, err) ← cryptorand.Read n;
  match err with
  | Some _ => ret ("", err)
  | None => ret (String.string_of_list_byte (pick alphanumeric <$> output), None)
  end.

Definition base64_alphabet : list byte :=
  String.list_byte_of_string
    "ABCDEFGHIJKLMNOPQRSTUVWXYZabcdefghijklmnopqrstuvwxyz0123456789+/".

Definition sextet (n : N) : byte :=
  default x00 (base64_alphabet !! N.to_nat (n mod 64)%N).

Definition pad : byte := "="%byte.

(** Standard base64 with padding, over three-byte groups. *)
Fixpoint base64 (bs : list byte) : list byte :=
  match bs with
  | [] => []
  | [a] =>
      let x := Byte.to_N a in
      [sextet (x / 4); sextet (x * 16); pad; pad]
  | [a; b] =>
      let x := (Byte.to_N a * 256 + Byte.to_N b)%N in
      [sextet (x / 1024); sextet (x / 16); sextet (x * 4); pad]
  | a :: b :: c :: rest =>
      let x := (Byte.to_N a * 65536 + Byte.to_N b * 256 + Byte.to_N c)%N in
      [sextet (x / 262144); sextet (x / 4096); sextet (x / 64); sextet x]
        ++ base64 rest
  end.

(** [utils.EncodeBase64]. *)
Definition EncodeBase64 (bs : list byte) : string :=
  String.string_of_list_byte (base64 bs).

End utils.

(** ** The encryption configuration (k8s.io/apiserver/pkg/apis/config/v1) *)

Module configv1.

Record Key := { Name : string; Secret : string }.
Record AESConfiguration := { Keys : list Key }.
Record IdentityConfiguration := {}.
(** The providers this code sets; the others stay nil and are omitted
    from the serialized form. *)
Record ProviderConfiguration := {
  AESCBC : option AESConfiguration;
  Identity : option IdentityConfiguration;
}.
Record ResourceConfiguration := {
  Resources' : list string;
  Providers : list ProviderConfiguration;
}.
Record EncryptionConfiguration := { Resources : list ResourceConfiguration }.

End configv1.

Module yaml.
Import configv1.

Definition newline : string := String "010"%char EmptyString.

Definition indent (ls : list string) : list string := (fun l => "  " +:+ l) <$> ls.

(** A sequence item: a dash before the first line, the rest aligned. *)
Definition item (ls : list string) : list string :=
  match ls with
  | [] => ["- {}"]
  | l :: ls => ("- " +:+ l) :: indent ls
  end.

Definition sequence {A} (f : A → list string) (xs : list A) : list string :=
  mjoin ((fun x => item (f x)) <$> xs).

Definition of_Key (k : Key) : list string :=
  ["name: " +:+ Name k; "secret: " +:+ Secret k].

Definition of_AES (a : AESConfiguration) : list string :=
  "keys:" :: sequence of_Key (Keys a).

Definition of_Provider (p : ProviderConfiguration) : list string :=
  match AESCBC p with
  | Some a => "aescbc:" :: indent (of_AES a)
  | None => []
  end ++
  match Identity p with
  | Some _ => ["identity: {}"]
  | None => []
  end.

Definition of_Resource (r : ResourceConfiguration) : list string :=
  ("providers:" :: sequence of_Provider (Providers r)) ++
  ("resources:" :: sequence (fun s => [s]) (Resources' r)).

Definition of_EncryptionConfiguration (c : EncryptionConfiguration) : list string :=
  "resources:" :: sequence of_Resource (Resources c).

(** [yaml.Marshal] of github.com/ghodss/yaml at an encryption
    configuration: keys in alphabetical order, empty fields omitted,
    one line per scalar.  It has no failing case on this type. *)
Definition Marshal (c : EncryptionConfiguration) : list byte * option error :=
  (String.list_byte_of_string
     (String.concat "" ((fun l => l +:+ newline) <$> of_EncryptionConfiguration c)),
   None).

End yaml.

Module util.

(** Modelled from the spec: [util.GetKey] of this repository is not among
    the sources at hand.  It gives the identity (namespace and name) under
    which the store fetches and persists the object. *)
Definition GetKey `{Object T} (obj : T) : ObjectKey := client.ObjectKeyFromObject obj.

End util.

(** ** kube_api_server_secrets.go *)

Section Secrets.

(** [Prefix] is declared elsewhere in the package; the two webhook
    kubeconfigs are embedded resource files. *)
Context (Prefix : string).
Context (validatingWebhookKubeconfig mutatingWebhookKubeconfig : list byte).

Definition KubeApiServerSecretNameAdmissionKubeconfig : string :=
  Prefix +:+ "-kube-apiserver-admission-kubeconfig".
Definition KubeApiServerSecretNameAuditWebhookConfig : string :=
  "kube-apiserver-audit-webhook-config".
Definition KubeApiServerSecretNameBasicAuth : string :=
  Prefix +:+ "-kube-apiserver-basic-auth".
Definition KubeApiServerSecretNameEncryptionConfig : string :=
  Prefix +:+ "-kube-apiserver-encryption-config".

Definition emptySecret (o : operation) (name : string) : Secret :=
  {| SecretMeta := {| Name := name; Namespace := namespace o |}; Data := None |}.

Definition with_Data (d : option (gmap string (list byte))) (secret : Secret) : Secret :=
  {| SecretMeta := SecretMeta secret; Data := d |}.

(** [if secret.Data == nil { secret.Data = make(map[string][]byte) }]. *)
Definition ensure_Data (secret : Secret) : Secret :=
  match Data secret with
  | None => with_Data (Some ∅) secret
  | Some _ => secret
  end.

(** [secret.Data[key] = value], on the map made sure of just before. *)
Definition assign_Data (key : string) (value : list byte) (secret : Secret) : Secret :=
  with_Data ((fun m => <[key := value]> m) <$> Data secret) secret.

Definition deployKubeApiServerSecretAdmissionKubeconfig (o : operation) : M (option error) :=
  let controlplane := GardenerControlplane_ (imports o) in
  if negb (ValidatingWebhookEnabled controlplane) && negb (MutatingWebhookEnabled controlplane)
  then ret None
  else
    let secret := emptySecret o KubeApiServerSecretNameAdmissionKubeconfig in
    '(_, _, err) ← controllerutil.CreateOrUpdate secret (fun secret =>
      let secret := ensure_Data secret in
      let secret := assign_Data "validating-webhook" validatingWebhookKubeconfig secret in
      let secret := assign_Data "mutating-webhook" mutatingWebhookKubeconfig secret in
      (secret, None));
    ret err.

Definition deployKubeApiServerSecretAuditWebhookConfig (o : operation) : M (option error) :=
  let config := Config (AuditWebhookConfig_ (imports o)) in
  if decide (String.length config = 0)
  then ret None
  else
    let secret := emptySecret o KubeApiServerSecretNameAuditWebhookConfig in
    '(_, _, err) ← controllerutil.CreateOrUpdate secret (fun secret =>
      let secret := ensure_Data secret in
      let secret := assign_Data "audit-webhook-config.yaml" (String.list_byte_of_string config) secret in
      (secret, None));
    ret err.

Definition basicAuthKey : string := "basic_auth.csv".

Definition deployKubeApiServerSecretBasicAuth (o : operation) : M (option error) :=
  let secret := emptySecret o KubeApiServerSecretNameBasicAuth in
  '(secret, err) ← client.Get (util.GetKey secret) secret;
  (* [inl] carries basicAuthValue on, [inr] is an early return *)
  branch ← match err with
    | Some _ =>
        match client.IgnoreNotFound err with
        | Some _ => ret (inr err)
        | None =>
            (* secret does not exist: generate password *)
            '(pw, err2) ← utils.GenerateRandomString 32;
            match err2 with
            | Some _ => ret (inr err2)
            | None =>
                ret (inl (String.list_byte_of_string (pw +:+ ",admin,admin,system:masters")))
            end
        end
    | None =>
        (* secret exists: use existing value *)
        ret (inl (data_index (Data secret) basicAuthKey))
    end;
  match branch with
  | inr err => ret err
  | inl basicAuthValue =>
      '(_, _, err) ← controllerutil.CreateOrUpdate secret (fun secret =>
        let secret := ensure_Data secret in
        let secret := assign_Data basicAuthKey basicAuthValue secret in
        (secret, None));
      ret err
  end.

Definition generateNewEncryptionConfig (o : operation) : M (list byte * option error) :=
  '(secretBytes, err) ← cryptorand.Read 32;
  match err with
  | Some _ => ret ([], err)
  | None =>
      let secretString := utils.EncodeBase64 secretBytes in
      let encryptionConfig := {|
        configv1.Resources := [ {|
          configv1.Resources' := ["secrets"];
          configv1.Providers := [
            {| configv1.AESCBC := Some {| configv1.Keys := [
                 {| configv1.Name := "key"; configv1.Secret := secretString |} ] |};
               configv1.Identity := None |};
            {| configv1.AESCBC := None;
               configv1.Identity := Some configv1.Build_IdentityConfiguration |} ] |} ] |} in
      ret (yaml.Marshal encryptionConfig)
  end.

Definition encryptionConfigKey : string := "encryption-config.yaml".

Definition deployKubeApiServerSecretEncryptionConfig (o : operation) : M (option error) :=
  let secret := emptySecret o KubeApiServerSecretNameEncryptionConfig in
  '(secret, err) ← client.Get (util.GetKey secret) secret;
  branch ← match err with
    | Some _ =>
        match client.IgnoreNotFound err with
        | Some _ => ret (inr err)
        | None =>
            (* secret does not exist: generate encryption config *)
            '(encryptionConfigValue, err) ← generateNewEncryptionConfig o;
            match err with
            | Some _ => ret (inr err)
            | None => ret (inl encryptionConfigValue)
            end
        end
    | None =>
        (* secret exists: use existing value *)
        ret (inl (data_index (Data secret) encryptionConfigKey))
    end;
  match branch with
  | inr err => ret err
  | inl encryptionConfigValue =>
      '(_, _, err) ← controllerutil.CreateOrUpdate secret (fun secret =>
        let secret := ensure_Data secret in
        let secret := assign_Data encryptionConfigKey encryptionConfigValue secret in
        (secret, None));
      ret err
  end.

Definition deployKubeAPIServerSecrets (o : operation) : M (option error) :=
  err ← deployKubeApiServerSecretAdmissionKubeconfig o;
  match err with
  | Some _ => ret err
  | None =>
  err ← deployKubeApiServerSecretAuditWebhookConfig o;
  match err with
  | Some _ => ret err
  | None =>
  err ← deployKubeApiServerSecretBasicAuth o;
  match err with
  | Some _ => ret err
  | None =>
  err ← deployKubeApiServerSecretEncryptionConfig o;
  match err with
  | Some _ => ret err
  | None => ret None
  end end end end.

(** The loop of the two delete functions: delete each named object,
    pass over NotFound, return the first other error. *)
Fixpoint delete_range `{Object T} (empty : string → T) (names : list string)
    : M (option error) :=
  match names with
  | [] => ret None
  | name :: names =>
      let obj := empty name in
      err ← client.Delete obj;
      match client.IgnoreNotFound err with
      | Some _ => ret err
      | None => delete_range empty names
      end
  end.

Definition deleteKubeAPIServerSecrets (o : operation) : M (option error) :=
  delete_range (emptySecret o)
    [ KubeApiServerSecretNameAdmissionKubeconfig;
      KubeApiServerSecretNameAuditWebhookConfig;
      KubeApiServerSecretNameBasicAuth;
      KubeApiServerSecretNameEncryptionConfig ].

(** *** kube_api_server_deployments.go, deletion *)

Definition KubeAPIServerDeploymentNameAPIServer : string :=
  Prefix +:+ "-kube-apiserver".
Definition KubeAPIServerDeploymentNameControllerManager : string :=
  Prefix +:+ "-kube-controller-manager".

(** [emptyDeployment], at the end of kube_api_server_deployments.go: the
    bare object of that name in the operation's namespace. *)
Definition emptyDeployment (o : operation) (name : string) : Deployment :=
  {| DeploymentMeta := {| Name := name; Namespace := namespace o |};
     TemplateAnnotations := ∅ |}.

Definition deleteDeployments (o : operation) : M (option error) :=
  delete_range (emptyDeployment o)
    [ KubeAPIServerDeploymentNameAPIServer;
      KubeAPIServerDeploymentNameControllerManager ].

End Secrets.

(** ** The task graph engine (github.com/gardener/gardener/pkg/utils/flow) *)

Module flow.

Definition TaskID : Type := string.

(** A set of task identities. *)
Abbreviation TaskIDs := (gset string).

Definition NewTaskIDs (ids : list TaskID) : TaskIDs := list_to_set ids.

(** Modelled from the spec: the engine is not among the sources at hand.
    A task function is a body together with its skip predicate (false
    unless set); the predicate takes no input, so it is the condition
    handed to [SkipIf]. *)
Record TaskFn := {
  body : M (option error);
  skip : bool;
}.

(** The conversion [flow.TaskFn(f)]. *)
Definition ofFn (f : M (option error)) : TaskFn := {| body := f; skip := false |}.

Definition SkipIf (t : TaskFn) (condition : bool) : TaskFn :=
  {| body := body t; skip := condition |}.

(** Modelled from the spec: a named unit of work with a function and the
    names of the tasks it depends on. *)
Record Task := {
  Name : string;
  Fn : TaskFn;
  Dependencies : TaskIDs;
}.

(** Modelled from the spec: the tasks of a graph, in the order they were
    added. *)
Record Graph := {
  name : string;
  tasks : list Task;
}.

Definition NewGraph (name : string) : Graph := {| name := name; tasks := [] |}.

Definition names (ts : list Task) : list string := Name <$> ts.

(** Modelled from the spec: [Add] registers a task and hands back its
    identity; it fails when the name is already taken. *)
Definition Add (g : Graph) (t : Task) : CompileError + (Graph * TaskID) :=
  if decide (Name t ∈ names (tasks g)) then inl (DuplicateName (Name t))
  else inr ({| name := name g; tasks := tasks g ++ [t] |}, Name t).

(** Modelled from the spec: the compiled plan, the tasks in levels of
    mutually independent tasks. *)
Record ExecutionPlan := {
  plan_name : string;
  levels : list (list Task);
}.

(** The first dependency of a task that no task of the graph carries. *)
Definition unknown_dependency (known : list string) (t : Task) : option string :=
  head (filter (fun d => d ∉ known) (elements (Dependencies t))).

Fixpoint check_dependencies (known : list string) (ts : list Task) : option CompileError :=
  match ts with
  | [] => None
  | t :: ts =>
      match unknown_dependency known t with
      | Some d => Some (UnknownDependency (Name t) d)
      | None => check_dependencies known ts
      end
  end.

(** A task is ready once all its dependencies are placed. *)
Definition ready (placed : gset string) (t : Task) : Prop := Dependencies t ⊆ placed.

#[global] Instance ready_decision placed t : Decision (ready placed t).
Proof. unfold ready. apply _. Defined.

(** From a stuck task follow an unplaced dependency until a name comes
    back: the names from its first visit on form a cycle.  [path] holds
    the names visited, latest first. *)
Fixpoint find_cycle (fuel : nat) (pending : list Task) (placed : gset string)
    (path : list string) (cur : string) : list string :=
  match list_find (fun x => x = cur) path with
  | Some (i, _) => cur :: reverse (take i path)
  | None =>
      match fuel with
      | 0 => reverse (cur :: path)
      | S fuel =>
          match head (filter (fun t => Name t = cur) pending) with
          | None => reverse (cur :: path)
          | Some t =>
              match head (filter (fun d => d ∉ placed) (elements (Dependencies t))) with
              | None => reverse (cur :: path)
              | Some d => find_cycle fuel pending placed (cur :: path) d
              end
          end
      end
  end.

(** Layered topological sort: repeatedly take out the tasks with no
    unplaced dependency.  Each round places at least one task, so
    [fuel] as large as the number of pending tasks is enough. *)
Fixpoint layers (fuel : nat) (pending : list Task) (placed : gset string)
    : CompileError + list (list Task) :=
  match pending with
  | [] => inr []
  | first :: _ =>
      let level := filter (ready placed) pending in
      match fuel, level with
      | S fuel, _ :: _ =>
          let rest := filter (fun t => ¬ ready placed t) pending in
          match layers fuel rest (placed ∪ list_to_set (names level)) with
          | inl e => inl e
          | inr ls => inr (level :: ls)
          end
      | _, _ => inl (Cycle (find_cycle (List.length pending) pending placed [] (Name first)))
      end
  end.

(** Modelled from the spec: [Compile] checks that every dependency names
    a task of the graph and that the dependency relation has no cycle,
    and computes the levels. *)
Definition Compile (g : Graph) : CompileError + ExecutionPlan :=
  match check_dependencies (names (tasks g)) (tasks g) with
  | Some e => inl e
  | None =>
      match layers (List.length (tasks g)) (tasks g) ∅ with
      | inl e => inl e
      | inr ls => inr {| plan_name := name g; levels := ls |}
      end
  end.

(** The level index of a task name in a plan. *)
Definition level_of (p : ExecutionPlan) (n : string) : option nat :=
  fst <$> list_find (fun lvl => n ∈ names lvl) (levels p).

(** Modelled from the spec: the dependency relation of a graph, from a
    task's name to the names it depends on, and what it is for it to be
    acyclic. *)
Definition depends (g : Graph) (a b : string) : Prop :=
  ∃ t, t ∈ tasks g ∧ Name t = a ∧ b ∈ Dependencies t.

Definition acyclic (g : Graph) : Prop := ∀ a, ¬ tc (depends g) a a.

(** Modelled from the spec: the terminal states of a task in a run. *)
Inductive TaskOutcome :=
  | Succeeded
  | Skipped
  | Failed (err : error)
  | NotRun.

#[global] Instance TaskOutcome_eq_decision : EqDecision TaskOutcome.
Proof. solve_decision. Defined.

(** Modelled from the spec: the outcome of every task, in plan order,
    and the first failure met. *)
Record RunResult := {
  outcomes : list (string * TaskOutcome);
  failure : option (string * error);
}.

(** A sink told the completed and the total count. *)
Definition ProgressReporter : Type := nat → nat → M unit.

Definition NewImmediateProgressReporter : ProgressReporter :=
  fun completed total => modify (emit (EvProgress completed total)).

(** [flow.Opts]; the context and the logger are not modelled. *)
Record Opts := {
  ProgressReporter_ : option ProgressReporter;
}.

Definition report (opts : Opts) (completed total : nat) : M unit :=
  match ProgressReporter_ opts with
  | Some r => r completed total
  | None => ret tt
  end.

(** Modelled from the spec: before running a task its skip predicate is
    looked at; a skipped task's body is not invoked. *)
Definition run_task (t : Task) : M TaskOutcome :=
  if skip (Fn t) then ret Skipped
  else
    err ← body (Fn t);
    match err with
    | Some e => ret (Failed e)
    | None => ret Succeeded
    end.

Definition record (n : string) (out : TaskOutcome) (r : RunResult) : RunResult :=
  {| outcomes := outcomes r ++ [(n, out)];
     failure :=
       match failure r, out with
       | None, Failed e => Some (n, e)
       | f, _ => f
       end |}.

Definition completed (r : RunResult) : nat :=
  List.length (filter (fun o => o.2 ≠ NotRun) (outcomes r)).

(** The tasks of one level, one after the other; a failure does not keep
    the remaining tasks of the level from running. *)
Fixpoint run_level (opts : Opts) (total : nat) (lvl : list Task) (r : RunResult)
    : M RunResult :=
  match lvl with
  | [] => ret r
  | t :: lvl =>
      out ← run_task t;
      let r := record (Name t) out r in
      report opts (completed r) total;;
      run_level opts total lvl r
  end.

Definition skip_level (lvl : list Task) (r : RunResult) : RunResult :=
  foldl (fun r t => record (Name t) NotRun r) r lvl.

(** Level by level; after a failure no further level is admitted and its
    tasks are reported as not run. *)
Fixpoint run_levels (opts : Opts) (total : nat) (lvls : list (list Task)) (r : RunResult)
    : M RunResult :=
  match lvls with
  | [] => ret r
  | lvl :: lvls =>
      match failure r with
      | Some _ => run_levels opts total lvls (skip_level lvl r)
      | None =>
          r ← run_level opts total lvl r;
          run_levels opts total lvls r
      end
  end.

(** Modelled from the spec: the executor. *)
Definition Execute (p : ExecutionPlan) (opts : Opts) : M RunResult :=
  run_levels opts (List.length (mjoin (levels p))) (levels p)
    {| outcomes := []; failure := None |}.

(** [Run] as the Go caller sees it: nil, or the first failing task and
    its error. *)
Definition Run (p : ExecutionPlan) (opts : Opts) : M (option error) :=
  r ← Execute p opts;
  match failure r with
  | Some (n, e) => ret (Some (ErrFlow n e))
  | None => ret None
  end.

End flow.

(** Failure-propagating sequencing for [CompileError + _]. *)
#[global] Instance sum_ret {E} : MRet (sum E) := fun A a => inr a.
#[global] Instance sum_bind {E} : MBind (sum E) := fun A B k m =>
  match m with
  | inl e => inl e
  | inr a => k a
  end.

(** ** operation_delete.go *)

Section Deletion.

(** The task bodies are methods of the operation declared in files that
    are not among the sources at hand. *)
Context (DeleteKubeAPIServerService DeleteETCD DeleteBackupBucket DeleteNamespace
          : operation → M (option error)).

(** The [var ( graph = ...; ... )] block of [Delete]. *)
Definition deletionGraph (o : operation) : CompileError + flow.Graph :=
  let graph := flow.NewGraph "Virtual Garden Deletion" in
  '(graph, deleteKubeAPIServerService) ← flow.Add graph {|
    flow.Name := "Deleting the service for exposing the virtual garden kube-apiserver";
    flow.Fn := flow.ofFn (DeleteKubeAPIServerService o);
    flow.Dependencies := flow.NewTaskIDs [] |};
  '(graph, deleteETCD) ← flow.Add graph {|
    flow.Name := "Deleting the main and events etcds";
    flow.Fn := flow.ofFn (DeleteETCD o);
    flow.Dependencies := flow.NewTaskIDs [] |};
  '(graph, deleteBackupBucket) ← flow.Add graph {|
    flow.Name := "Deleting the backup bucket for the main etcd";
    flow.Fn := flow.ofFn (DeleteBackupBucket o);
    flow.Dependencies := flow.NewTaskIDs [deleteETCD] |};
  '(graph, _) ← flow.Add graph {|
    flow.Name := "Deleting namespace for virtual-garden deployment in hosting cluster";
    flow.Fn := flow.SkipIf (flow.ofFn (DeleteNamespace o)) (negb (handleNamespace o));
    flow.Dependencies :=
      flow.NewTaskIDs [deleteKubeAPIServerService; deleteETCD; deleteBackupBucket] |};
  mret graph.

Definition deletionOpts (o : operation) : flow.Opts :=
  {| flow.ProgressReporter_ := Some flow.NewImmediateProgressReporter |}.

(** [Delete] runs the delete operation.  A graph the engine rejects
    cannot be run; the rejection is what the caller gets. *)
Definition Delete (o : operation) : M (option error) :=
  match deletionGraph o with
  | inl e => ret (Some (ErrCompile e))
  | inr graph =>
      match flow.Compile graph with
      | inl e => ret (Some (ErrCompile e))
      | inr plan => flow.Run plan (deletionOpts o)
      end
  end.

(** The four tasks of the graph, and the plan they compile to. *)
Definition deleteKubeAPIServerServiceTask (o : operation) : flow.Task := {|
  flow.Name := "Deleting the service for exposing the virtual garden kube-apiserver";
  flow.Fn := flow.ofFn (DeleteKubeAPIServerService o);
  flow.Dependencies := flow.NewTaskIDs [] |}.

Definition deleteETCDTask (o : operation) : flow.Task := {|
  flow.Name := "Deleting the main and events etcds";
  flow.Fn := flow.ofFn (DeleteETCD o);
  flow.Dependencies := flow.NewTaskIDs [] |}.

Definition deleteBackupBucketTask (o : operation) : flow.Task := {|
  flow.Name := "Deleting the backup bucket for the main etcd";
  flow.Fn := flow.ofFn (DeleteBackupBucket o);
  flow.Dependencies := flow.NewTaskIDs [flow.Name (deleteETCDTask o)] |}.

Definition deleteNamespaceTask (o : operation) : flow.Task := {|
  flow.Name := "Deleting namespace for virtual-garden deployment in hosting cluster";
  flow.Fn := flow.SkipIf (flow.ofFn (DeleteNamespace o)) (negb (handleNamespace o));
  flow.Dependencies :=
    flow.NewTaskIDs [ flow.Name (deleteKubeAPIServerServiceTask o);
                      flow.Name (deleteETCDTask o);
                      flow.Name (deleteBackupBucketTask o) ] |}.

Definition deletionTasks (o : operation) : flow.Graph := {|
  flow.name := "Virtual Garden Deletion";
  flow.tasks := [ deleteKubeAPIServerServiceTask o; deleteETCDTask o;
                  deleteBackupBucketTask o; deleteNamespaceTask o ] |}.

Definition deletionPlan (o : operation) : flow.ExecutionPlan := {|
  flow.plan_name := "Virtual Garden Deletion";
  flow.levels := [ [deleteKubeAPIServerServiceTask o; deleteETCDTask o];
                   [deleteBackupBucketTask o];
                   [deleteNamespaceTask o] ] |}.

(** The world in which the namespace task is reached: the three tasks
    before it have run without failure and their progress is reported.
    [None] when one of them failed. *)
Definition reach_namespace (o : operation) (w : World) : option World :=
  let '(e1, w1) := DeleteKubeAPIServerService o w in
  let '(e2, w2) := DeleteETCD o (emit (EvProgress 1 4) w1) in
  match e1, e2 with
  | None, None =>
      let '(e3, w3) := DeleteBackupBucket o (emit (EvProgress 2 4) w2) in
      match e3 with
      | None => Some (emit (EvProgress 3 4) w3)
      | Some _ => None
      end
  | _, _ => None
  end.

End Deletion.

(** ** Checksum annotations *)

Section Annotations.

(** The checksum key constants are declared elsewhere in the package. *)
Context (ChecksumKeyKubeAPIServerAuditPolicyConfig
         ChecksumKeyKubeAPIServerEncryptionConfig
         ChecksumKeyKubeAggregatorCA
         ChecksumKeyKubeAggregatorClient
         ChecksumKeyKubeAPIServerCA
         ChecksumKeyKubeAPIServerServer
         ChecksumKeyKubeAPIServerAuditWebhookConfig
         ChecksumKeyKubeAPIServerAuthWebhookConfig
         ChecksumKeyKubeAPIServerOidcAuthenticationWebhookConfig
         ChecksumKeyKubeAPIServerStaticToken
         ChecksumKeyKubeAPIServerAdmissionConfig : string).

(** The body of [for _, key := range keys] in [addChecksumsToAnnotations]. *)
Fixpoint addChecksums_range (checksums : GoMap.ref) (annotations : GoMap.loc)
    (keys : list string) (h : GoMap.Heap) : GoMap.Heap :=
  match keys with
  | [] => h
  | key :: keys =>
      let '(value, found) := GoMap.index h checksums key in
      let h := if found then GoMap.assign annotations key value h else h in
      addChecksums_range checksums annotations keys h
  end.

Definition addChecksumsToAnnotations (o : operation) (checksums : GoMap.ref)
    (keys : list string) (h : GoMap.Heap) : GoMap.ref * GoMap.Heap :=
  let '(annotations, h) := GoMap.make h in
  let h := addChecksums_range checksums annotations keys h in
  (Some annotations, h).

(** The keys watched by the kube-apiserver deployment. *)
Definition apiServerChecksumKeys : list string :=
  [ ChecksumKeyKubeAPIServerAuditPolicyConfig;
    ChecksumKeyKubeAPIServerEncryptionConfig;
    ChecksumKeyKubeAggregatorCA;
    ChecksumKeyKubeAggregatorClient;
    ChecksumKeyKubeAPIServerCA;
    ChecksumKeyKubeAPIServerServer;
    ChecksumKeyKubeAPIServerAuditWebhookConfig;
    ChecksumKeyKubeAPIServerAuthWebhookConfig;
    ChecksumKeyKubeAPIServerOidcAuthenticationWebhookConfig;
    ChecksumKeyKubeAPIServerStaticToken;
    ChecksumKeyKubeAPIServerAdmissionConfig ].

Definition computeApiServerAnnotations (o : operation) (checksums : GoMap.ref)
    (h : GoMap.Heap) : GoMap.ref * GoMap.Heap :=
  let '(annotations, h) := addChecksumsToAnnotations o checksums apiServerChecksumKeys h in
  (annotations, h).

End Annotations.

(** ** Views used in the statements *)

Module GoMapFacts.
Import GoMap.

(** A reference is valid in a heap when it is nil or names a cell
    allocated there. *)
Definition valid (h : Heap) (r : ref) : Prop :=
  match r with
  | None => True
  | Some l => l < List.length h
  end.

(** What the range loop makes of the annotations [m], as a function of
    the contents [cs] of the checksum map. *)
Fixpoint stamped (cs : gmap string string) (keys : list string)
    (m : gmap string string) : gmap string string :=
  match keys with
  | [] => m
  | key :: keys =>
      stamped cs keys (match cs !! key with Some v => <[key := v]> m | None => m end)
  end.

End GoMapFacts.

(** The failure the store has scheduled for the next call, and the world
    once a call that logs [ev] has taken its entry of the schedule. *)
Definition fault_now (w : World) : option string :=
  match faults w with
  | f :: _ => f
  | [] => None
  end.

Definition after_call (ev : Event) (w : World) : World :=
  set_faults (tail (faults w)) (emit ev w).

(** The store answers the next [n] calls without a failure of its own. *)
Definition calm (n : nat) (w : World) : Prop :=
  Forall (fun f => f = None) (take n (faults w)).

#[global] Instance calm_decision n w : Decision (calm n w).
Proof. unfold calm. apply _. Defined.

(** A deletion task's position in the dependency order, by its name. *)
Definition rank (n : string) : nat :=
  if decide (n = "Deleting namespace for virtual-garden deployment in hosting cluster")
  then 2
  else if decide (n = "Deleting the backup bucket for the main etcd") then 1 else 0.

(** No event of the list is a draw from the random source. *)
Definition no_draw (evs : list Event) : Prop :=
  Forall (fun ev => ∀ n, ev ≠ EvRandom n) evs.

(** The generate-once pattern shared by the basic-auth and the
    encryption-config secret, with the rendering of the fresh random bytes
    left open: fetch; carry the existing value forward or draw 32 random
    bytes; create or update. *)
Definition generate_once (o : operation) (name key : string)
    (encode : list byte → list byte) : M (option error) :=
  let secret := emptySecret o name in
  '(secret, err) ← client.Get (util.GetKey secret) secret;
  branch ← match err with
    | Some _ =>
        match client.IgnoreNotFound err with
        | Some _ => ret (inr err)
        | None =>
            '(fresh, err) ← cryptorand.Read 32;
            match err with
            | Some _ => ret (inr err)
            | None => ret (inl (encode fresh))
            end
        end
    | None => ret (inl (data_index (Data secret) key))
    end;
  match branch with
  | inr err => ret err
  | inl value =>
      '(_, _, err) ← controllerutil.CreateOrUpdate secret (fun secret =>
        let secret := ensure_Data secret in
        let secret := assign_Data key value secret in
        (secret, None));
      ret err
  end.

(** The mutation of the generate-once secrets, and create-or-update with
    it as the operation sees it. *)
Definition put (key : string) (value : list byte) (secret : Secret) : Secret :=
  assign_Data key value (ensure_Data secret).

Definition upsert (secret : Secret) (key : string) (value : list byte) : M (option error) :=
  '(_, _, err) ← controllerutil.CreateOrUpdate secret (fun secret => (put key value secret, None));
  ret err.

(** How the two secrets render their random bytes. *)
Definition basicAuth_encode (fresh : list byte) : list byte :=
  String.list_byte_of_string
    (String.string_of_list_byte (utils.pick utils.alphanumeric <$> fresh)
       +:+ ",admin,admin,system:masters").

Definition encryptionConfig_encode (fresh : list byte) : list byte :=
  (yaml.Marshal {|
    configv1.Resources := [ {|
      configv1.Resources' := ["secrets"];
      configv1.Providers := [
        {| configv1.AESCBC := Some {| configv1.Keys := [
             {| configv1.Name := "key";
                configv1.Secret := utils.EncodeBase64 fresh |} ] |};
           configv1.Identity := None |};
        {| configv1.AESCBC := None;
           configv1.Identity := Some configv1.Build_IdentityConfiguration |} ] |} ] |}).1.

(** ** Sample inputs *)

Module Sample.

Definition o : operation := {|
  namespace := "garden";
  imports := {|
    GardenerControlplane_ :=
      {| ValidatingWebhookEnabled := false; MutatingWebhookEnabled := false |};
    AuditWebhookConfig_ := {| Config := "" |} |};
  handleNamespace := false |}.

(** The same operation, in charge of the namespace. *)
Definition o_handle : operation := {|
  namespace := "garden";
  imports := {|
    GardenerControlplane_ :=
      {| ValidatingWebhookEnabled := false; MutatingWebhookEnabled := false |};
    AuditWebhookConfig_ := {| Config := "" |} |};
  handleNamespace := true |}.

(** A task body that succeeds and one that fails, both without effect. *)
Definition done_body : operation → M (option error) := fun _ => ret None.
Definition broken_body : operation → M (option error) := fun _ => ret (Some ErrRandom).

(** One checksum map on the heap, at location 0. *)
Definition heap : GoMap.Heap := [ {[ "ca" := "1f"; "server" := "2e" ]} ].

Definition Prefix : string := "virtual-garden".

(** An empty cluster, a store without failures, 40 bytes of entropy. *)
Definition fresh : World := {|
  secrets := ∅; deployments := ∅; faults := [];
  entropy := replicate 40 "a"%byte; trace := [] |}.

(** Both generate-once secrets are there; the store fails as [fs] schedules. *)
Definition settled (fs : list (option string)) : World := {|
  secrets :=
    {[ ("garden", "virtual-garden-kube-apiserver-basic-auth") :=
         Some {[ "basic_auth.csv" := String.list_byte_of_string "pw,admin,admin,system:masters" ]};
       ("garden", "virtual-garden-kube-apiserver-encryption-config") :=
         Some {[ "encryption-config.yaml" := String.list_byte_of_string "resources: []" ]} ]};
  deployments := ∅; faults := fs;
  entropy := replicate 40 "a"%byte; trace := [] |}.

End Sample.

From stdpp Require pretty.

(** ** kube_api_server_deployments.go, the container of the kube-apiserver *)

(** The parts of [k8s.io/api/core/v1] the code fills in. *)
Module corev1.

Record VolumeMount := {
  Name : string;
  MountPath : string;
  ReadOnly : bool;
}.

Record ServiceAccountTokenProjection := {
  Audience : string;
  ExpirationSeconds : Z;
  Path : string;
}.

(** A [VolumeProjection]; the code sets its [ServiceAccountToken] only. *)
Record VolumeProjection := {
  ServiceAccountToken : ServiceAccountTokenProjection;
}.

Inductive HostPathType := HostPathDirectoryOrCreate.

(** A [VolumeSource] is a struct of pointers of which one is set. *)
Inductive VolumeSource :=
| Secret (SecretName : string)
| ConfigMap (LocalObjectReference : string)
| Projected (Sources : list VolumeProjection)
| HostPath (Path : string) (Type_ : HostPathType).

Record Volume := {
  VolumeName : string;
  Source : VolumeSource;
}.

End corev1.

(** [api.SNI]. *)
Record SNI := {
  Hostname : string;
  SecretName : string;
}.

(** The token settings of a webhook in [api.GardenerControlplane]. *)
Record WebhookToken := {
  Enabled : bool;
  Audience : string;
  ExpirationSeconds : Z;
}.

(** The fields of [o.imports.VirtualGarden.KubeAPIServer] that the
    container's command, mounts and volumes read beside those of
    [KubeAPIServer] above.  A Go [*string] is an [option string]. *)
Record apiServerImports := {
  AuditWebhookBatchMaxSize : string;
  SeedAuthorizerEnabled : bool;
  OidcWebhookAuthenticatorEnabled : bool;
  EventTTL : option string;
  OidcIssuerURL : option string;
  SNI_ : option SNI;
  Profiling : bool;
  DnsAccessDomain : string;
  ValidatingWebhookToken : WebhookToken;
  MutatingWebhookToken : WebhookToken;
  AdditionalVolumeMounts : list corev1.VolumeMount;
  AdditionalVolumes : list corev1.Volume;
}.

(** The names of volumes, secrets and config maps, constants declared
    elsewhere in the package. *)
Record podConstants := {
  volumeNameKubeAPIServerAuditPolicyConfig : string;
  volumeNameKubeAPIServerAuditWebhookConfig : string;
  volumeNameKubeAPIServerEncryptionConfig : string;
  volumeNameKubeAPIServerAuthWebhookConfig : string;
  volumeNameKubeAPIServerOidcAuthenticationWebhookConfig : string;
  volumeNameKubeAPIServerCA : string;
  volumeNameCAETCD : string;
  volumeNameCAFrontProxy : string;
  volumeNameETCDClientTLS : string;
  volumeNameKubeAPIServer : string;
  volumeNameServiceAccountKey : string;
  volumeNameKubeAPIServerStaticToken : string;
  volumeNameKubeAggregator : string;
  volumeNameSNITLS : string;
  volumeNameFedora : string;
  volumeNameCentos : string;
  volumeNameETCSSL : string;
  volumeNameKubeAPIServerAdmissionConfig : string;
  volumeNameKubeAPIServerAdmissionKubeconfig : string;
  volumeNameKubeAPIServerAdmissionTokens : string;
  KubeApiServerSecretNameAuthWebhookConfig : string;
  KubeApiServerSecretNameOidcAuthenticationWebhookConfig : string;
  KubeApiServerConfigMapAuditPolicy : string;
  KubeApiServerSecretNameApiServerCACertificate : string;
  KubeApiServerSecretNameAggregatorCACertificate : string;
  KubeApiServerSecretNameApiServerServerCertificate : string;
  KubeApiServerSecretNameStaticToken : string;
  KubeApiServerSecretNameServiceAccountKey : string;
  KubeApiServerSecretNameAggregatorClientCertificate : string;
  KubeApiServerConfigMapAdmission : string;
}.

(** [fmt.Sprintf] with the verb [%t]. *)
Definition fmt_t (b : bool) : string := if b then "true" else "false".

(** [fmt.Sprintf] with the verb [%d]. *)
Definition fmt_d (z : Z) : string := pretty.pretty z.

Section Container.

Context (Prefix : string) (c : podConstants).

(** Declared in other files of the package: the test for the webhooks,
    the two getters with a default, and the two volume constructors. *)
Context (isWebhookEnabled : operation → bool).
Context (GetMaxMutatingRequestsInflight GetMaxRequestsInflight : apiServerImports → Z → Z).
Context (volumeWithSecretSource volumeWithConfigMapSource : string → string → corev1.Volume).

Definition getAPIServerAuditWebhookConfig (o : operation) : string :=
  Config (AuditWebhookConfig_ (imports o)).

Definition getAuditWebhookBatchMaxSize (k : apiServerImports) : string :=
  AuditWebhookBatchMaxSize k.

Definition isSeedAuthorizerEnabled (k : apiServerImports) : bool :=
  SeedAuthorizerEnabled k.

Definition isOidcWebhookAuthenticatorEnabled (k : apiServerImports) : bool :=
  OidcWebhookAuthenticatorEnabled k.

Definition hasEncryptionConfig : bool := true.

Definition getAPIServerEventTTL (k : apiServerImports) : string :=
  match EventTTL k with
  | None => "24h"
  | Some ttl => ttl
  end.

Definition getAPIServerOIDCIssuerURL (k : apiServerImports) : option string :=
  OidcIssuerURL k.

Definition isSNIEnabled (k : apiServerImports) : bool :=
  bool_decide (SNI_ k ≠ None).

(** [o.imports.VirtualGarden.KubeAPIServer.SNI.Hostname]; the code reads
    it only where [isSNIEnabled] holds. *)
Definition getSNIHostname (k : apiServerImports) : string :=
  match SNI_ k with
  | Some sni => Hostname sni
  | None => ""
  end.

(** [o.imports.VirtualGarden.KubeAPIServer.SNI.SecretName], read in
    [getAPIServerVolumes] where [isSNIEnabled] holds. *)
Definition getSNISecretName (k : apiServerImports) : string :=
  match SNI_ k with
  | Some sni => SecretName sni
  | None => ""
  end.

Definition getAPIServerCommand (o : operation) (k : apiServerImports) : list string :=
  let command := [] in
  let command := command ++ ["/usr/local/bin/kube-apiserver"] in
  let command :=
    if isWebhookEnabled o
    then command ++ ["--admission-control-config-file=/etc/gardener-apiserver/admission/configuration.yaml"]
    else command in
  let command := command ++ ["--allow-privileged=true"] in
  let command := command ++ ["--anonymous-auth=false"] in
  let command := command ++ ["--audit-policy-file=/etc/kube-apiserver/audit/audit-policy.yaml"] in
  let command :=
    if bool_decide (getAuditWebhookBatchMaxSize k ≠ "")
    then command ++ ["--audit-webhook-batch-max-size=" +:+ getAuditWebhookBatchMaxSize k]
    else command in
  let command :=
    if bool_decide (0 < String.length (getAPIServerAuditWebhookConfig o))
    then command ++ ["--audit-webhook-config-file=/etc/kube-apiserver/auditwebhook/audit-webhook-config.yaml"]
    else command in
  let command :=
    if isOidcWebhookAuthenticatorEnabled k
    then
      let command := command ++ ["--authentication-token-webhook-config-file=/etc/kube-apiserver/authentication-webhook/kubeconfig.yaml"] in
      command ++ ["--authentication-token-webhook-cache-ttl=0"]
    else command in
  let command :=
    if isSeedAuthorizerEnabled k
    then
      let command := command ++ ["--authorization-mode=RBAC,Webhook"] in
      let command := command ++ ["--authorization-webhook-config-file=/etc/kube-apiserver/auth-webhook/config.yaml"] in
      let command := command ++ ["--authorization-webhook-cache-authorized-ttl=0"] in
      command ++ ["--authorization-webhook-cache-unauthorized-ttl=0"]
    else command ++ ["--authorization-mode=RBAC"] in
  let command := command ++ ["--client-ca-file=/srv/kubernetes/ca/ca.crt"] in
  let command := command ++ ["--disable-admission-plugins=PersistentVolumeLabel"] in
  let command := command ++ ["--enable-admission-plugins=Priority,NamespaceLifecycle,LimitRanger,PodSecurityPolicy,ServiceAccount,NodeRestriction,DefaultStorageClass,DefaultTolerationSeconds,ResourceQuota,StorageObjectInUseProtection,MutatingAdmissionWebhook,ValidatingAdmissionWebhook"] in
  let command := command ++ ["--enable-aggregator-routing=true"] in
  let command := command ++ ["--enable-bootstrap-token-auth=true"] in
  let command :=
    if hasEncryptionConfig
    then command ++ ["--encryption-provider-config=/etc/kube-apiserver/encryption/encryption-config.yaml"]
    else command in
  let command := command ++ ["--etcd-cafile=/srv/kubernetes/etcd/ca/ca.crt"] in
  let command := command ++ ["--etcd-certfile=/srv/kubernetes/etcd/client/tls.crt"] in
  let command := command ++ ["--etcd-keyfile=/srv/kubernetes/etcd/client/tls.key"] in
  let command := command ++
    ["--etcd-servers=https://virtual-garden-etcd-main-client." +:+ namespace o +:+ ".svc:2379"] in
  let command := command ++
    ["--etcd-servers-overrides=/events#https://virtual-garden-etcd-events-client."
       +:+ namespace o
       +:+ ".svc:2379,coordination.k8s.io/leases#https://virtual-garden-etcd-events-client."
       +:+ namespace o +:+ ".svc:2379"] in
  let command :=
    if bool_decide (getAPIServerEventTTL k ≠ "")
    then command ++ ["--event-ttl=" +:+ getAPIServerEventTTL k]
    else command in
  let command := command ++ ["--insecure-port=0"] in
  let command := command ++ ["--kubelet-preferred-address-types=InternalIP,Hostname,ExternalIP"] in
  let command := command ++ ["--livez-grace-period=1m"] in
  let command := command ++
    ["--max-mutating-requests-inflight=" +:+ fmt_d (GetMaxMutatingRequestsInflight k 400)] in
  let command := command ++
    ["--max-requests-inflight=" +:+ fmt_d (GetMaxRequestsInflight k 800)] in
  let command :=
    match getAPIServerOIDCIssuerURL k with
    | Some url =>
        let command := command ++ ["--oidc-client-id=kube-kubectl"] in
        let command := command ++ ["--oidc-groups-claim=groups"] in
        let command := command ++ ["--oidc-issuer-url=" +:+ url] in
        command ++ ["--oidc-username-claim=email"]
    | None => command
    end in
  let command := command ++ ["--profiling=" +:+ fmt_t (Profiling k)] in
  let command := command ++ ["--proxy-client-cert-file=/srv/kubernetes/aggregator/tls.crt"] in
  let command := command ++ ["--proxy-client-key-file=/srv/kubernetes/aggregator/tls.key"] in
  let command := command ++ ["--requestheader-client-ca-file=/srv/kubernetes/aggregator-ca/ca.crt"] in
  let command := command ++ ["--requestheader-extra-headers-prefix=X-Remote-Extra-"] in
  let command := command ++ ["--requestheader-group-headers=X-Remote-Group"] in
  let command := command ++ ["--requestheader-username-headers=X-Remote-User"] in
  let command := command ++ ["--secure-port=443"] in
  let command := command ++ ["--service-account-key-file=/srv/kubernetes/service-account-key/service_account.key"] in
  let command := command ++ ["--service-account-signing-key-file=/srv/kubernetes/service-account-key/service_account.key"] in
  let command := command ++ ["--service-account-issuer=https://gardener." +:+ DnsAccessDomain k] in
  let command := command ++ ["--service-cluster-ip-range=100.64.0.0/13"] in
  let command := command ++ ["--shutdown-delay-duration=20s"] in
  let command := command ++ ["--tls-cert-file=/srv/kubernetes/apiserver/tls.crt"] in
  let command := command ++ ["--tls-cipher-suites=TLS_ECDHE_RSA_WITH_AES_128_GCM_SHA256,TLS_ECDHE_RSA_WITH_AES_256_GCM_SHA384,TLS_ECDHE_RSA_WITH_CHACHA20_POLY1305,TLS_RSA_WITH_AES_128_CBC_SHA,TLS_RSA_WITH_AES_256_CBC_SHA,TLS_RSA_WITH_AES_128_GCM_SHA256,TLS_RSA_WITH_AES_256_GCM_SHA384,TLS_ECDHE_RSA_WITH_AES_256_CBC_SHA"] in
  let command := command ++ ["--tls-private-key-file=/srv/kubernetes/apiserver/tls.key"] in
  let command :=
    if isSNIEnabled k
    then command ++
      ["--tls-sni-cert-key=/srv/kubernetes/sni-tls/tls.crt,/srv/kubernetes/sni-tls/tls.key:"
         +:+ getSNIHostname k]
    else command in
  let command := command ++ ["--token-auth-file=/srv/kubernetes/token/static_tokens.csv"] in
  let command := command ++ ["--v=2"] in
  let command := command ++ ["--watch-cache-sizes=secrets#500,configmaps#500"] in
  command.

(** A mount as the code writes it: [ReadOnly] is false unless given. *)
Definition mount (name path : string) : corev1.VolumeMount :=
  {| corev1.Name := name; corev1.MountPath := path; corev1.ReadOnly := false |}.

Definition mount_ro (name path : string) : corev1.VolumeMount :=
  {| corev1.Name := name; corev1.MountPath := path; corev1.ReadOnly := true |}.

Definition getAPIServerVolumeMounts (o : operation) (k : apiServerImports)
    : list corev1.VolumeMount :=
  let volumeMounts := [] in
  let volumeMounts := volumeMounts ++
    [ mount (volumeNameKubeAPIServerAuditPolicyConfig c) "/etc/kube-apiserver/audit" ] in
  let volumeMounts :=
    if bool_decide (0 < String.length (getAPIServerAuditWebhookConfig o))
    then volumeMounts ++
      [ mount (volumeNameKubeAPIServerAuditWebhookConfig c) "/etc/kube-apiserver/auditwebhook" ]
    else volumeMounts in
  let volumeMounts :=
    if hasEncryptionConfig
    then volumeMounts ++
      [ mount (volumeNameKubeAPIServerEncryptionConfig c) "/etc/kube-apiserver/encryption" ]
    else volumeMounts in
  let volumeMounts :=
    if isSeedAuthorizerEnabled k
    then volumeMounts ++
      [ mount (volumeNameKubeAPIServerAuthWebhookConfig c) "/etc/kube-apiserver/auth-webhook" ]
    else volumeMounts in
  let volumeMounts :=
    if isOidcWebhookAuthenticatorEnabled k
    then volumeMounts ++
      [ mount (volumeNameKubeAPIServerOidcAuthenticationWebhookConfig c)
          "/etc/kube-apiserver/authentication-webhook" ]
    else volumeMounts in
  let volumeMounts := volumeMounts ++
    [ mount (volumeNameKubeAPIServerCA c) "/srv/kubernetes/ca";
      mount (volumeNameCAETCD c) "/srv/kubernetes/etcd/ca";
      mount (volumeNameCAFrontProxy c) "/srv/kubernetes/aggregator-ca";
      mount (volumeNameETCDClientTLS c) "/srv/kubernetes/etcd/client";
      mount (volumeNameKubeAPIServer c) "/srv/kubernetes/apiserver";
      mount (volumeNameServiceAccountKey c) "/srv/kubernetes/service-account-key";
      mount (volumeNameKubeAPIServerStaticToken c) "/srv/kubernetes/token";
      mount (volumeNameKubeAggregator c) "/srv/kubernetes/aggregator" ] in
  let volumeMounts :=
    if isSNIEnabled k
    then volumeMounts ++ [ mount (volumeNameSNITLS c) "/srv/kubernetes/sni-tls" ]
    else volumeMounts in
  let volumeMounts := volumeMounts ++
    [ mount_ro (volumeNameFedora c) "/etc/pki/tls";
      mount_ro (volumeNameCentos c) "/etc/pki/ca-trust/extracted/pem";
      mount_ro (volumeNameETCSSL c) "/etc/ssl" ] in
  let volumeMounts :=
    if isWebhookEnabled o
    then volumeMounts ++
      [ mount (volumeNameKubeAPIServerAdmissionConfig c) "/etc/gardener-apiserver/admission";
        mount (volumeNameKubeAPIServerAdmissionKubeconfig c)
          "/var/run/secrets/admission-kubeconfig";
        mount (volumeNameKubeAPIServerAdmissionTokens c) "/var/run/secrets/admission-tokens" ]
    else volumeMounts in
  let volumeMounts := volumeMounts ++ AdditionalVolumeMounts k in
  volumeMounts.

(** A host directory, created when it is missing. *)
Definition hostPathVolume (name path : string) : corev1.Volume :=
  {| corev1.VolumeName := name;
     corev1.Source := corev1.HostPath path corev1.HostPathDirectoryOrCreate |}.

Definition tokenProjection (t : WebhookToken) (path : string) : corev1.VolumeProjection :=
  {| corev1.ServiceAccountToken :=
       {| corev1.Audience := Audience t;
          corev1.ExpirationSeconds := ExpirationSeconds t;
          corev1.Path := path |} |}.

Definition getAPIServerVolumes (o : operation) (k : apiServerImports) : list corev1.Volume :=
  let volumes := [] in
  let volumes :=
    if hasEncryptionConfig
    then volumes ++
      [ volumeWithSecretSource (volumeNameKubeAPIServerEncryptionConfig c)
          (KubeApiServerSecretNameEncryptionConfig Prefix) ]
    else volumes in
  let volumes :=
    if isSeedAuthorizerEnabled k
    then volumes ++
      [ volumeWithSecretSource (volumeNameKubeAPIServerAuthWebhookConfig c)
          (KubeApiServerSecretNameAuthWebhookConfig c) ]
    else volumes in
  let volumes :=
    if isOidcWebhookAuthenticatorEnabled k
    then volumes ++
      [ volumeWithSecretSource (volumeNameKubeAPIServerOidcAuthenticationWebhookConfig c)
          (KubeApiServerSecretNameOidcAuthenticationWebhookConfig c) ]
    else volumes in
  let volumes := volumes ++
    [ volumeWithConfigMapSource (volumeNameKubeAPIServerAuditPolicyConfig c)
        (KubeApiServerConfigMapAuditPolicy c) ] in
  let volumes :=
    if bool_decide (0 < String.length (getAPIServerAuditWebhookConfig o))
    then volumes ++
      [ volumeWithSecretSource (volumeNameKubeAPIServerAuditWebhookConfig c)
          KubeApiServerSecretNameAuditWebhookConfig ]
    else volumes in
  let volumes := volumes ++
    [ volumeWithSecretSource (volumeNameKubeAPIServerCA c)
        (KubeApiServerSecretNameApiServerCACertificate c);
      volumeWithSecretSource (volumeNameCAETCD c) "virtual-garden-etcd-ca";
      volumeWithSecretSource (volumeNameCAFrontProxy c)
        (KubeApiServerSecretNameAggregatorCACertificate c);
      volumeWithSecretSource (volumeNameKubeAPIServer c)
        (KubeApiServerSecretNameApiServerServerCertificate c);
      volumeWithSecretSource (volumeNameETCDClientTLS c) "virtual-garden-etcd-client";
      volumeWithSecretSource (volumeNameKubeAPIServerStaticToken c)
        (KubeApiServerSecretNameStaticToken c);
      volumeWithSecretSource (volumeNameServiceAccountKey c)
        (KubeApiServerSecretNameServiceAccountKey c);
      volumeWithSecretSource (volumeNameKubeAggregator c)
        (KubeApiServerSecretNameAggregatorClientCertificate c) ] in
  let volumes :=
    if isSNIEnabled k
    then volumes ++ [ volumeWithSecretSource (volumeNameSNITLS c) (getSNISecretName k) ]
    else volumes in
  let volumes :=
    if isWebhookEnabled o
    then
      let volumes := volumes ++
        [ volumeWithConfigMapSource (volumeNameKubeAPIServerAdmissionConfig c)
            (KubeApiServerConfigMapAdmission c);
          volumeWithSecretSource (volumeNameKubeAPIServerAdmissionKubeconfig c)
            (KubeApiServerSecretNameAdmissionKubeconfig Prefix) ] in
      let projections := [] in
      let projections :=
        if Enabled (ValidatingWebhookToken k)
        then projections ++ [ tokenProjection (ValidatingWebhookToken k) "validating-webhook-token" ]
        else projections in
      let projections :=
        if Enabled (MutatingWebhookToken k)
        then projections ++ [ tokenProjection (MutatingWebhookToken k) "mutating-webhook-token" ]
        else projections in
      volumes ++
        [ {| corev1.VolumeName := volumeNameKubeAPIServerAdmissionTokens c;
             corev1.Source := corev1.Projected projections |} ]
    else volumes in
  let volumes := volumes ++
    [ hostPathVolume (volumeNameFedora c) "/etc/pki/tls";
      hostPathVolume (volumeNameCentos c) "/etc/pki/ca-trust/extracted/pem";
      hostPathVolume (volumeNameETCSSL c) "/etc/ssl" ] in
  let volumes := volumes ++ AdditionalVolumes k in
  volumes.

End Container.

(** ** Further views *)

(** Create-or-update of a secret with a mutation that cannot fail, as the
    operation sees it. *)
Definition apply_secret (secret : Secret) (g : Secret → Secret) : M (option error) :=
  '(_, _, err) ← controllerutil.CreateOrUpdate secret (fun secret => (g secret, None));
  ret err.

(** The object a fetch under [k] gives for the stored data [d]. *)
Definition fetched (k : ObjectKey) (d : SecretData) : Secret :=
  {| SecretMeta := {| Name := k.2; Namespace := k.1 |}; Data := d |}.

(** The mutation of the admission-kubeconfig secret. *)
Definition admission_put (validating mutating : list byte) (secret : Secret) : Secret :=
  assign_Data "mutating-webhook" mutating
    (assign_Data "validating-webhook" validating (ensure_Data secret)).

(** Only fetches of secrets. *)
Definition only_gets (evs : list Event) : Prop :=
  Forall (fun ev => ∃ k, ev = EvGet KSecret k) evs.

(** A run that only read the secret under [k]: the store and the entropy
    are as before, one or two fetches of [k] were issued and nothing else,
    and the result is nil or a failure of the store. *)
Definition read_only_run (k : ObjectKey) (w : World) (res : option error * World) : Prop :=
  secrets res.2 = secrets w
  ∧ deployments res.2 = deployments w
  ∧ entropy res.2 = entropy w
  ∧ (trace res.2 = trace w ++ [EvGet KSecret k]
     ∨ trace res.2 = trace w ++ [EvGet KSecret k; EvGet KSecret k])
  ∧ (res.1 = None ∨ ∃ reason, res.1 = Some (ErrStore reason)).

(** A run that found the secret under [k] without an entry for [key] and
    wrote the empty value there, drawing nothing. *)
Definition blank_run (k : ObjectKey) (key : string) (d : SecretData) (w : World)
    (res : option error * World) : Prop :=
  res.1 = None
  ∧ secrets res.2 = <[k := Some (<[key := []]> (default ∅ d))]> (secrets w)
  ∧ entropy res.2 = entropy w
  ∧ trace res.2 = trace w ++ [EvGet KSecret k; EvGet KSecret k; EvUpdate KSecret k].

(** A run that stopped at the failing random source: the secret was
    looked for once, the draw was asked for, nothing was written. *)
Definition starved_run (k : ObjectKey) (w : World) (res : option error * World) : Prop :=
  res.1 = Some ErrRandom
  ∧ secrets res.2 = secrets w
  ∧ deployments res.2 = deployments w
  ∧ entropy res.2 = entropy w
  ∧ trace res.2 = trace w ++ [EvGet KSecret k; EvRandom 32].

(** ** Further sample inputs *)

Module Sample2.

(** The basic-auth secret is there with no data at all, the
    encryption-config secret with another entry only. *)
Definition hollow : World := {|
  secrets :=
    {[ ("garden", "virtual-garden-kube-apiserver-basic-auth") := None;
       ("garden", "virtual-garden-kube-apiserver-encryption-config") :=
         Some {[ "note" := String.list_byte_of_string "kept" ]} ]};
  deployments := ∅; faults := [];
  entropy := replicate 40 "a"%byte; trace := [] |}.

(** An empty cluster and a random source that has ten bytes left. *)
Definition starved : World := {|
  secrets := ∅; deployments := ∅; faults := [];
  entropy := replicate 10 "a"%byte; trace := [] |}.

End Sample2.

(** ** Views of the secrets' steps *)

(** What a step that works on the secret under [k] leaves alone: the
    deployments, every other secret, and all entropy but the at most 32
    bytes it may draw. *)
Definition step_frame (k : ObjectKey) (w : World) (res : option error * World) : Prop :=
  deployments res.2 = deployments w
  ∧ (∀ k', k' ≠ k → secrets res.2 !! k' = secrets w !! k')
  ∧ ∃ n, n ≤ 32 ∧ entropy res.2 = drop n (entropy w).

(** The entries a successful run leaves in the secret under [k], beside
    whatever the secret held under other keys before. *)
Definition holds_entries (entries : list (string * list byte)) (k : ObjectKey)
    (w : World) (res : option error * World) : Prop :=
  ∃ m : gmap string (list byte),
    secrets res.2 !! k = Some (Some m)
    ∧ (∀ key v, (key, v) ∈ entries → m !! key = Some v)
    ∧ (∀ key, key ∉ entries.*1 →
         m !! key = match secrets w !! k with
                    | Some d => data_lookup d key
                    | None => None
                    end).

(** The store already holds what the four steps would write: the webhook
    kubeconfigs when a webhook is enabled, the audit webhook config when
    one is configured, and some value for basic auth and for the
    encryption config. *)
Definition converged (Prefix : string) (validating mutating : list byte) (o : operation)
    (s : gmap ObjectKey SecretData) : Prop :=
  let controlplane := GardenerControlplane_ (imports o) in
  let config := Config (AuditWebhookConfig_ (imports o)) in
  ((ValidatingWebhookEnabled controlplane = false ∧ MutatingWebhookEnabled controlplane = false)
   ∨ ∃ m, s !! (namespace o, KubeApiServerSecretNameAdmissionKubeconfig Prefix) = Some (Some m)
          ∧ m !! "validating-webhook" = Some validating
          ∧ m !! "mutating-webhook" = Some mutating)
  ∧ (config = ""
     ∨ ∃ m, s !! (namespace o, KubeApiServerSecretNameAuditWebhookConfig) = Some (Some m)
            ∧ m !! "audit-webhook-config.yaml" = Some (String.list_byte_of_string config))
  ∧ (∃ d v, s !! (namespace o, KubeApiServerSecretNameBasicAuth Prefix) = Some d
            ∧ data_lookup d basicAuthKey = Some v)
  ∧ (∃ d v, s !! (namespace o, KubeApiServerSecretNameEncryptionConfig Prefix) = Some d
            ∧ data_lookup d encryptionConfigKey = Some v).

(** A run that left the store, the deployments and the entropy as they
    were and issued nothing but fetches of secrets. *)
Definition quiet (a b : World) : Prop :=
  secrets b = secrets a ∧ deployments b = deployments a ∧ entropy b = entropy a
  ∧ ∃ evs, trace b = trace a ++ evs ∧ only_gets evs.

(** The identities of the four secrets of the kube-apiserver. *)
Definition secretKeys (Prefix : string) (o : operation) : list ObjectKey :=
  [ (namespace o, KubeApiServerSecretNameAdmissionKubeconfig Prefix);
    (namespace o, KubeApiServerSecretNameAuditWebhookConfig);
    (namespace o, KubeApiServerSecretNameBasicAuth Prefix);
    (namespace o, KubeApiServerSecretNameEncryptionConfig Prefix) ].

Module Sample3.

(** An operation with the validating webhook enabled and an audit webhook
    config. *)
Definition o_webhooks : operation := {|
  namespace := "garden";
  imports := {|
    GardenerControlplane_ :=
      {| ValidatingWebhookEnabled := true; MutatingWebhookEnabled := false |};
    AuditWebhookConfig_ := {| Config := "kind: Config" |} |};
  handleNamespace := false |}.

(** An empty cluster, a store without failures, 70 bytes of entropy. *)
Definition rich : World := {|
  secrets := ∅; deployments := ∅; faults := [];
  entropy := replicate 70 "b"%byte; trace := [] |}.

End Sample3.


(** The identities of the two deployments [deleteDeployments] removes. *)
Definition deploymentKeys (Prefix : string) (o : operation) : list ObjectKey :=
  [ (namespace o, KubeAPIServerDeploymentNameAPIServer Prefix);
    (namespace o, KubeAPIServerDeploymentNameControllerManager Prefix) ].

(** What a delete loop over [keys] may have done to a map of stored
    objects: every identity is either as before or one of [keys] and
    gone. *)
Definition only_removed {A} (keys : list ObjectKey) (before after : gmap ObjectKey A) : Prop :=
  ∀ k, after !! k = before !! k ∨ (k ∈ keys ∧ after !! k = None).

(** The result of a delete loop: nil or a failure of the store's own. *)
Definition nil_or_store (err : option error) : Prop :=
  err = None ∨ ∃ reason, err = Some (ErrStore reason).

(** A delete loop over [keys] that the store failed at position [i]: the
    error is the store's, [i + 1] deletes were issued, the first [i]
    objects are gone and everything else is as before. *)
Definition stopped_at {A} (kind : Kind) (keys : list ObjectKey) (i : nat) (reason : string)
    (before after : gmap ObjectKey A) (w : World) (res : option error * World) : Prop :=
  res.1 = Some (ErrStore reason)
  ∧ trace res.2 = trace w ++ (EvDelete kind <$> take (S i) keys)
  ∧ (∀ k, k ∈ take i keys → after !! k = None)
  ∧ (∀ k, k ∉ take i keys → after !! k = before !! k).

Module Sample4.

(** All four secrets and both deployments are there; the store answers
    one call and fails the second. *)
Definition crowded : World := {|
  secrets :=
    {[ ("garden", "virtual-garden-kube-apiserver-admission-kubeconfig") := None;
       ("garden", "kube-apiserver-audit-webhook-config") := None;
       ("garden", "virtual-garden-kube-apiserver-basic-auth") := None;
       ("garden", "virtual-garden-kube-apiserver-encryption-config") := None ]};
  deployments :=
    {[ ("garden", "virtual-garden-kube-apiserver") := ∅;
       ("garden", "virtual-garden-kube-controller-manager") := ∅ ]};
  faults := [None; Some "timeout"];
  entropy := []; trace := [] |}.

End Sample4.

(** ** Views of the container's command *)

(** The name of a command-line argument: the text before the first [=]. *)
Fixpoint flag_name (arg : string) : string :=
  match arg with
  | EmptyString => EmptyString
  | String a s => if Ascii.eqb a "="%char then EmptyString else String a (flag_name s)
  end.

(** Its value: the text after the first [=], if there is one. *)
Fixpoint flag_value (arg : string) : option string :=
  match arg with
  | EmptyString => None
  | String a s => if Ascii.eqb a "="%char then Some s else flag_value s
  end.

Fixpoint has_suffix (suffix s : string) : bool :=
  String.eqb s suffix
  || match s with
     | EmptyString => false
     | String _ s => has_suffix suffix s
     end.

(** The flags of the kube-apiserver whose value is a file in the
    container: those named [...file], the encryption provider config and
    the SNI certificate and key. *)
Definition names_a_file (name : string) : bool :=
  has_suffix "file" name
  || bool_decide (name ∈ ["--encryption-provider-config"; "--tls-sni-cert-key"]).

(** The file an argument points to. *)
Definition file_of (arg : string) : option string :=
  if names_a_file (flag_name arg) then flag_value arg else None.

(** [path] lies in the directory of one of the mounts. *)
Definition mounted_under (mounts : list corev1.VolumeMount) (path : string) : bool :=
  existsb (fun m => String.prefix (corev1.MountPath m +:+ "/") path) mounts.

Definition file_mounted (mounts : list corev1.VolumeMount) (arg : string) : bool :=
  match file_of arg with
  | Some path => mounted_under mounts path
  | None => true
  end.

(** A command line of the expected shape: the binary, then flags
    [--name=value] with no name given twice. *)
Definition well_formed_command (binary : string) (command : list string) : Prop :=
  match command with
  | [] => False
  | b :: flags =>
      b = binary
      ∧ Forall (fun arg => String.prefix "--" arg = true ∧ is_Some (flag_value arg)) flags
      ∧ NoDup (flag_name <$> flags)
  end.

#[global] Instance well_formed_command_decision binary command :
  Decision (well_formed_command binary command).
Proof. destruct command; apply _. Defined.

(** The path from a flag of the command to the data it reads: the flag
    names the file [key] in the directory of a mount, the mount's volume
    is filled from the secret [name], and the store holds that secret
    with an entry under [key]. *)
Definition wired (command : list string) (mounts : list corev1.VolumeMount)
    (volumes : list corev1.Volume) (store : gmap ObjectKey SecretData)
    (ns flag name key : string) (value : list byte) : Prop :=
  ∃ m v d,
    (flag +:+ "=" +:+ corev1.MountPath m +:+ "/" +:+ key) ∈ command
    ∧ m ∈ mounts ∧ v ∈ volumes
    ∧ corev1.Name m = corev1.VolumeName v
    ∧ corev1.Source v = corev1.Secret name
    ∧ store !! (ns, name) = Some d
    ∧ data_lookup d key = Some value.

Module Sample5.

Definition volumeWithSecretSource (name secretName : string) : corev1.Volume :=
  {| corev1.VolumeName := name; corev1.Source := corev1.Secret secretName |}.

Definition volumeWithConfigMapSource (name configMapName : string) : corev1.Volume :=
  {| corev1.VolumeName := name; corev1.Source := corev1.ConfigMap configMapName |}.

Definition isWebhookEnabled (o : operation) : bool :=
  ValidatingWebhookEnabled (GardenerControlplane_ (imports o))
  || MutatingWebhookEnabled (GardenerControlplane_ (imports o)).

Definition GetMaxMutatingRequestsInflight (k : apiServerImports) (def : Z) : Z := def.
Definition GetMaxRequestsInflight (k : apiServerImports) (def : Z) : Z := def.

Definition c : podConstants := {|
  volumeNameKubeAPIServerAuditPolicyConfig := "kube-apiserver-audit-policy-config";
  volumeNameKubeAPIServerAuditWebhookConfig := "kube-apiserver-audit-webhook-config";
  volumeNameKubeAPIServerEncryptionConfig := "kube-apiserver-encryption-config";
  volumeNameKubeAPIServerAuthWebhookConfig := "kube-apiserver-auth-webhook-config";
  volumeNameKubeAPIServerOidcAuthenticationWebhookConfig :=
    "kube-apiserver-oidc-authentication-webhook-config";
  volumeNameKubeAPIServerCA := "ca";
  volumeNameCAETCD := "ca-etcd";
  volumeNameCAFrontProxy := "ca-front-proxy";
  volumeNameETCDClientTLS := "etcd-client-tls";
  volumeNameKubeAPIServer := "kube-apiserver";
  volumeNameServiceAccountKey := "service-account-key";
  volumeNameKubeAPIServerStaticToken := "kube-apiserver-static-token";
  volumeNameKubeAggregator := "kube-aggregator";
  volumeNameSNITLS := "sni-tls";
  volumeNameFedora := "fedora-rhel6-openelec-cabundle";
  volumeNameCentos := "centos-rhel7-cabundle";
  volumeNameETCSSL := "etc-ssl";
  volumeNameKubeAPIServerAdmissionConfig := "kube-apiserver-admission-config";
  volumeNameKubeAPIServerAdmissionKubeconfig := "kube-apiserver-admission-kubeconfig";
  volumeNameKubeAPIServerAdmissionTokens := "kube-apiserver-admission-tokens";
  KubeApiServerSecretNameAuthWebhookConfig := "kube-apiserver-auth-webhook-config";
  KubeApiServerSecretNameOidcAuthenticationWebhookConfig :=
    "kube-apiserver-oidc-authentication-webhook-config";
  KubeApiServerConfigMapAuditPolicy := "kube-apiserver-audit-policy-config";
  KubeApiServerSecretNameApiServerCACertificate := "kube-apiserver-ca";
  KubeApiServerSecretNameAggregatorCACertificate := "kube-aggregator-ca";
  KubeApiServerSecretNameApiServerServerCertificate := "kube-apiserver";
  KubeApiServerSecretNameStaticToken := "kube-apiserver-static-token";
  KubeApiServerSecretNameServiceAccountKey := "service-account-key";
  KubeApiServerSecretNameAggregatorClientCertificate := "kube-aggregator";
  KubeApiServerConfigMapAdmission := "kube-apiserver-admission-config";
|}.

(** Imports with an SNI certificate and an OIDC issuer, no event TTL. *)
Definition k : apiServerImports := {|
  AuditWebhookBatchMaxSize := "30";
  SeedAuthorizerEnabled := true;
  OidcWebhookAuthenticatorEnabled := false;
  EventTTL := None;
  OidcIssuerURL := Some "https://issuer.example";
  SNI_ := Some {| Hostname := "api.example"; SecretName := "sni" |};
  Profiling := false;
  DnsAccessDomain := "garden.example";
  ValidatingWebhookToken := {| Enabled := true; Audience := "validating"; ExpirationSeconds := 3600 |};
  MutatingWebhookToken := {| Enabled := false; Audience := "mutating"; ExpirationSeconds := 3600 |};
  AdditionalVolumeMounts := [];
  AdditionalVolumes := [];
|}.

End Sample5.

(** ** Views of the outcome of the secrets' steps *)

(** A step that issues at most [calls] calls to the store: it takes as
    many entries off the schedule of failures, and a failure of the
    store it returns is one of those entries. *)
Definition within_calls (calls : nat) (w : World) (res : option error * World) : Prop :=
  (∃ j, j ≤ calls ∧ faults res.2 = drop j (faults w))
  ∧ (∀ reason, res.1 = Some (ErrStore reason) →
       ∃ i, i < calls ∧ faults w !! i = Some (Some reason))
  ∧ (res.1 = Some ErrRandom ∨ nil_or_store res.1).

Module Sample6.

(** The basic-auth secret is there, the encryption-config secret is not;
    a store without failures and 40 bytes of entropy. *)
Definition half : World := {|
  secrets :=
    {[ ("garden", "virtual-garden-kube-apiserver-basic-auth") :=
         Some {[ "basic_auth.csv" := String.list_byte_of_string "pw,admin,admin,system:masters" ]} ]};
  deployments := ∅; faults := [];
  entropy := replicate 40 "a"%byte; trace := [] |}.

End Sample6.

(** * Properties *)

(** ** Checksum annotations *)

Section AnnotationFacts.
Import GoMap GoMapFacts.

Lemma contents_app_valid (h : Heap) (r : ref) (m : gmap string string) :
  valid h r → contents (h ++ [m]) r = contents h r.
Proof.
  destruct r as [l|]; simpl; [|done].
  intros Hl. by rewrite lookup_app_l.
Qed.

Lemma stamped_lookup (cs : gmap string string) keys m k :
  stamped cs keys m !! k =
    if decide (k ∈ keys) then (match cs !! k with Some v => Some v | None => m !! k end)
    else m !! k.
Proof.
  revert m. induction keys as [|key keys IH]; intros m; simpl; [done|].
  rewrite IH. destruct (decide (k = key)) as [->|Hne].
  - destruct (cs !! key) eqn:Hcs;
      destruct (decide (key ∈ keys)); destruct (decide (key ∈ key :: keys)) as [|Hn];
      rewrite ?lookup_insert_eq; try done;
      exfalso; apply Hn; by left.
  - destruct (cs !! key) eqn:Hcs; rewrite ?lookup_insert_ne by done;
      destruct (decide (k ∈ keys)); destruct (decide (k ∈ key :: keys)) as [Hy|Hn];
      try done; exfalso;
      first [ apply Hn; by right | apply elem_of_cons in Hy as [?|?]; done ].
Qed.

(** The loop touches the annotations cell only. *)
Lemma addChecksums_range_app (checksums : ref) keys (h : Heap) m :
  valid h checksums →
  addChecksums_range checksums (List.length h) keys (h ++ [m]) =
    h ++ [stamped (contents h checksums) keys m].
Proof.
  intros Hv. revert m. induction keys as [|key keys IH]; intros m; simpl; [done|].
  unfold index. rewrite contents_app_valid by done.
  destruct (contents h checksums !! key) as [v|] eqn:Hk; [|apply IH].
  unfold assign.
  replace (alter (λ m0, <[key:=v]> m0) (List.length h) (h ++ [m]))
    with (h ++ [<[key:=v]> m]); [apply IH|].
  replace (List.length h) with (List.length h + 0) at 1 by lia.
  by rewrite alter_app_r.
Qed.

Lemma addChecksumsToAnnotations_eq o (checksums : ref) keys (h : Heap) :
  valid h checksums →
  addChecksumsToAnnotations o checksums keys h =
    (Some (List.length h), h ++ [stamped (contents h checksums) keys ∅]).
Proof.
  intros Hv. unfold addChecksumsToAnnotations, make.
  by rewrite addChecksums_range_app.
Qed.

Lemma contents_fresh (h : Heap) m : contents (h ++ [m]) (Some (List.length h)) = m.
Proof.
  simpl. rewrite lookup_app_r by lia. by rewrite Nat.sub_diag.
Qed.

End AnnotationFacts.

Section ApiServerAnnotations.
Import GoMap GoMapFacts.

Context (ChecksumKeyKubeAPIServerAuditPolicyConfig
         ChecksumKeyKubeAPIServerEncryptionConfig
         ChecksumKeyKubeAggregatorCA
         ChecksumKeyKubeAggregatorClient
         ChecksumKeyKubeAPIServerCA
         ChecksumKeyKubeAPIServerServer
         ChecksumKeyKubeAPIServerAuditWebhookConfig
         ChecksumKeyKubeAPIServerAuthWebhookConfig
         ChecksumKeyKubeAPIServerOidcAuthenticationWebhookConfig
         ChecksumKeyKubeAPIServerStaticToken
         ChecksumKeyKubeAPIServerAdmissionConfig : string).

(** C3. [addChecksumsToAnnotations] returns the projection of the checksum
    map onto the selected keys: the result holds exactly the selected
    keys that the checksum map holds, each with its checksum; a selected
    key the checksum map lacks gives no entry, and no other key appears.
    [computeApiServerAnnotations] is this projection at the fixed list of
    eleven watched keys. *)
Theorem addChecksumsToAnnotations_projection o (checksums : ref) keys (h : Heap) :
  valid h checksums →
  let cs := contents h checksums in
  let result := addChecksumsToAnnotations o checksums keys h in
  let annotations := contents result.2 result.1 in
  let watched := apiServerChecksumKeys
    ChecksumKeyKubeAPIServerAuditPolicyConfig ChecksumKeyKubeAPIServerEncryptionConfig
    ChecksumKeyKubeAggregatorCA ChecksumKeyKubeAggregatorClient
    ChecksumKeyKubeAPIServerCA ChecksumKeyKubeAPIServerServer
    ChecksumKeyKubeAPIServerAuditWebhookConfig ChecksumKeyKubeAPIServerAuthWebhookConfig
    ChecksumKeyKubeAPIServerOidcAuthenticationWebhookConfig
    ChecksumKeyKubeAPIServerStaticToken ChecksumKeyKubeAPIServerAdmissionConfig in
  annotations = filter (fun kv => kv.1 ∈ keys) cs
  ∧ (∀ k v, k ∈ keys → cs !! k = Some v → annotations !! k = Some v)
  ∧ (∀ k, k ∈ keys → cs !! k = None → annotations !! k = None)
  ∧ (∀ k, k ∉ keys → annotations !! k = None)
  ∧ computeApiServerAnnotations
      ChecksumKeyKubeAPIServerAuditPolicyConfig ChecksumKeyKubeAPIServerEncryptionConfig
      ChecksumKeyKubeAggregatorCA ChecksumKeyKubeAggregatorClient
      ChecksumKeyKubeAPIServerCA ChecksumKeyKubeAPIServerServer
      ChecksumKeyKubeAPIServerAuditWebhookConfig ChecksumKeyKubeAPIServerAuthWebhookConfig
      ChecksumKeyKubeAPIServerOidcAuthenticationWebhookConfig
      ChecksumKeyKubeAPIServerStaticToken ChecksumKeyKubeAPIServerAdmissionConfig
      o checksums h
    = addChecksumsToAnnotations o checksums watched h
  ∧ List.length watched = 11.
Proof.
  intros Hv cs result annotations watched.
  assert (Hlook : ∀ k, annotations !! k = if decide (k ∈ keys) then cs !! k else None).
  { intros k. subst annotations result.
    rewrite addChecksumsToAnnotations_eq by done. cbn [fst snd].
    rewrite contents_fresh, stamped_lookup, lookup_empty.
    fold cs. case_decide; [by destruct (cs !! k) | done]. }
  split_and!.
  - apply map_eq. intros k. rewrite Hlook, map_lookup_filter.
    destruct (cs !! k) as [v|]; simpl.
    + case_decide as Hin.
      * by rewrite option_guard_True.
      * by rewrite option_guard_False.
    + by case_decide.
  - intros k v Hin Hk. rewrite Hlook, decide_True by done. done.
  - intros k Hin Hk. rewrite Hlook, decide_True by done. done.
  - intros k Hnin. rewrite Hlook, decide_False by done. done.
  - unfold computeApiServerAnnotations. fold watched.
    by destruct (addChecksumsToAnnotations o checksums watched h).
  - done.
Qed.

End ApiServerAnnotations.

(** The projection at a one-map heap: of the selected keys "server" and
    "token" only "server" has a checksum. *)
Lemma addChecksumsToAnnotations_projection_witness :
  let result := addChecksumsToAnnotations Sample.o (Some 0) ["server"; "token"] Sample.heap in
  GoMap.contents result.2 result.1
    = filter (fun kv => kv.1 ∈ ["server"; "token"]) (GoMap.contents Sample.heap (Some 0)).
Proof.
  apply (addChecksumsToAnnotations_projection "k1" "k2" "k3" "k4" "k5" "k6" "k7" "k8" "k9"
           "k10" "k11" Sample.o (Some 0) ["server"; "token"] Sample.heap).
  simpl. lia.
Defined.

Section AnnotationFrame.
Import GoMap GoMapFacts.

(** C10. [addChecksumsToAnnotations] only reads its input: every map
    allocated before the call, the checksum map among them, is left as
    it was.  The result is never nil: it is a map allocated by the call,
    at a location no earlier reference names, and it is the empty map
    when no selected key has a checksum (an empty or nil checksum map
    included). *)
Theorem addChecksumsToAnnotations_frame o (checksums : ref) keys (h : Heap) :
  valid h checksums →
  ∃ m : gmap string string,
    addChecksumsToAnnotations o checksums keys h = (Some (List.length h), h ++ [m])
    ∧ h !! List.length h = None
    ∧ (∀ l, l < List.length h → (h ++ [m]) !! l = h !! l)
    ∧ contents (h ++ [m]) checksums = contents h checksums
    ∧ ((∀ k, k ∈ keys → contents h checksums !! k = None) → m = ∅).
Proof.
  intros Hv. exists (stamped (contents h checksums) keys ∅). split_and!.
  - by apply addChecksumsToAnnotations_eq.
  - by apply lookup_ge_None_2.
  - intros l Hl. by rewrite lookup_app_l.
  - by apply contents_app_valid.
  - intros Hnone. apply map_eq. intros k.
    rewrite stamped_lookup, lookup_empty.
    case_decide as Hin; [|done]. by rewrite (Hnone k Hin).
Qed.

End AnnotationFrame.

(** A nil checksum map: the result is a new, empty, non-nil map. *)
Lemma addChecksumsToAnnotations_frame_witness :
  ∃ m : gmap string string,
    addChecksumsToAnnotations Sample.o None ["server"] Sample.heap
      = (Some 1, Sample.heap ++ [m])
    ∧ Sample.heap !! 1 = None
    ∧ (∀ l, l < 1 → (Sample.heap ++ [m]) !! l = Sample.heap !! l)
    ∧ GoMap.contents (Sample.heap ++ [m]) None = GoMap.contents Sample.heap None
    ∧ ((∀ k, k ∈ ["server"] → GoMap.contents Sample.heap None !! k = None) → m = ∅).
Proof.
  apply (addChecksumsToAnnotations_frame Sample.o None ["server"] Sample.heap).
  exact I.
Defined.

(** ** The store client, call by call *)

Section ClientFacts.

Ltac run_client :=
  unfold client.Get, client.Create, client.Update, client.Delete, client.next_fault,
    modify, gets, ret, mret, M_ret, mbind, M_bind, after_call, fault_now; cbn.

Lemma Get_secret_eq key (obj : Secret) w :
  client.Get key obj w =
    (match fault_now w with
     | Some reason => (obj, Some (ErrStore reason))
     | None =>
         match secrets w !! key with
         | Some cur =>
             ({| SecretMeta := {| Name := key.2; Namespace := key.1 |}; Data := cur |}, None)
         | None => (obj, Some ErrNotFound)
         end
     end, after_call (EvGet KSecret key) w).
Proof.
  destruct w as [sec dep [|[r|] fs] ent tr]; run_client; try reflexivity.
  all: destruct (sec !! key); reflexivity.
Qed.

Lemma Create_secret_eq (obj : Secret) w :
  let key := client.ObjectKeyFromObject obj in
  client.Create obj w =
    match fault_now w with
    | Some reason => (Some (ErrStore reason), after_call (EvCreate KSecret key) w)
    | None =>
        match secrets w !! key with
        | Some _ => (Some ErrAlreadyExists, after_call (EvCreate KSecret key) w)
        | None => (None, set_secrets (fun m => <[key := Data obj]> m)
                           (after_call (EvCreate KSecret key) w))
        end
    end.
Proof.
  destruct w as [sec dep [|[r|] fs] ent tr]; run_client; try reflexivity.
  all: destruct (sec !! _); reflexivity.
Qed.

Lemma Update_secret_eq (obj : Secret) w :
  let key := client.ObjectKeyFromObject obj in
  client.Update obj w =
    match fault_now w with
    | Some reason => (Some (ErrStore reason), after_call (EvUpdate KSecret key) w)
    | None =>
        match secrets w !! key with
        | Some _ => (None, set_secrets (fun m => <[key := Data obj]> m)
                           (after_call (EvUpdate KSecret key) w))
        | None => (Some ErrNotFound, after_call (EvUpdate KSecret key) w)
        end
    end.
Proof.
  destruct w as [sec dep [|[r|] fs] ent tr]; run_client; try reflexivity.
  all: destruct (sec !! _); reflexivity.
Qed.

Lemma Delete_eq `{Object T} (obj : T) w :
  let key := client.ObjectKeyFromObject obj in
  let w1 := after_call (EvDelete (kindOf (T:=T)) key) w in
  client.Delete obj w =
    match fault_now w with
    | Some reason => (Some (ErrStore reason), w1)
    | None =>
        match stored (T:=T) w1 !! key with
        | Some _ => (None, set_stored (T:=T) (fun m => delete key m) w1)
        | None => (Some ErrNotFound, w1)
        end
    end.
Proof.
  destruct w as [sec dep [|[r|] fs] ent tr]; run_client; try reflexivity.
  all: destruct (stored _ !! _); reflexivity.
Qed.

(** Create-or-update of a secret with a mutation that cannot fail and
    keeps the identity. *)
Lemma CreateOrUpdate_secret_eq (obj : Secret) (g : Secret → Secret) w :
  (∀ s, SecretMeta (g s) = SecretMeta s) →
  let key := client.ObjectKeyFromObject obj in
  let w1 := after_call (EvGet KSecret key) w in
  controllerutil.CreateOrUpdate obj (fun s => (g s, None)) w =
    match fault_now w with
    | Some reason => ((obj, controllerutil.OperationResultNone, Some (ErrStore reason)), w1)
    | None =>
        match secrets w !! key with
        | None =>
            match fault_now w1 with
            | Some reason =>
                ((g obj, controllerutil.OperationResultNone, Some (ErrStore reason)),
                 after_call (EvCreate KSecret key) w1)
            | None =>
                ((g obj, controllerutil.OperationResultCreated, None),
                 set_secrets (fun m => <[key := Data (g obj)]> m)
                   (after_call (EvCreate KSecret key) w1))
            end
        | Some d =>
            let existing :=
              {| SecretMeta := {| Name := key.2; Namespace := key.1 |}; Data := d |} in
            if decide (existing = g existing)
            then ((g existing, controllerutil.OperationResultNone, None), w1)
            else
              match fault_now w1 with
              | Some reason =>
                  ((g existing, controllerutil.OperationResultNone, Some (ErrStore reason)),
                   after_call (EvUpdate KSecret key) w1)
              | None =>
                  ((g existing, controllerutil.OperationResultUpdated, None),
                   set_secrets (fun m => <[key := Data (g existing)]> m)
                     (after_call (EvUpdate KSecret key) w1))
              end
        end
    end.
Proof.
  intros Hmeta key w1. unfold controllerutil.CreateOrUpdate.
  unfold mbind at 1, M_bind at 1. fold key. rewrite Get_secret_eq. fold w1.
  destruct (fault_now w) as [reason|] eqn:Hf; [reflexivity|].
  destruct (secrets w !! key) as [d|] eqn:Hk.
  - cbn zeta. destruct (decide (_ = g _)) as [He|He]; [reflexivity|].
    unfold mbind, M_bind. rewrite Update_secret_eq.
    assert (Hkey : client.ObjectKeyFromObject
              (g {| SecretMeta := {| Name := key.2; Namespace := key.1 |}; Data := d |}) = key).
    { unfold client.ObjectKeyFromObject, ObjectKeyFromMeta. cbn. rewrite Hmeta.
      cbn. symmetry. apply surjective_pairing. }
    rewrite Hkey. replace (secrets w1) with (secrets w) by reflexivity. rewrite Hk.
    by destruct (fault_now w1).
  - rewrite decide_True by done. unfold mbind, M_bind. rewrite Create_secret_eq.
    assert (Hkey : client.ObjectKeyFromObject (g obj) = key).
    { unfold key, client.ObjectKeyFromObject. cbn. by rewrite Hmeta. }
    rewrite Hkey. replace (secrets w1) with (secrets w) by reflexivity. rewrite Hk.
    by destruct (fault_now w1).
Qed.

End ClientFacts.

(** ** The generate-once secrets *)

Section GenerateOnce.

Context (Prefix : string).

Lemma put_meta key value s : SecretMeta (put key value s) = SecretMeta s.
Proof. destruct s as [m [d|]]; reflexivity. Qed.

Lemma put_Data key value s :
  Data (put key value s) = Some (<[key := value]> (default ∅ (Data s))).
Proof. destruct s as [m [d|]]; reflexivity. Qed.

Lemma data_index_put key value s : data_index (Data (put key value s)) key = value.
Proof. rewrite put_Data. simpl. by rewrite lookup_insert_eq. Qed.

Lemma data_lookup_put key value s : data_lookup (Data (put key value s)) key = Some value.
Proof. rewrite put_Data. simpl. by rewrite lookup_insert_eq. Qed.

Lemma data_index_lookup d key : data_index d key = default [] (data_lookup d key).
Proof. by destruct d. Qed.

Lemma bind_eq {A B} (m : M A) (k : A → M B) w :
  (m ≫= k) w = let '(a, w') := m w in k a w'.
Proof. reflexivity. Qed.

Lemma Read_eq n w :
  cryptorand.Read n w =
    if decide (n ≤ List.length (entropy w))
    then ((take n (entropy w), None),
          set_entropy (drop n (entropy w)) (emit (EvRandom n) w))
    else ((replicate n x00, Some ErrRandom), emit (EvRandom n) w).
Proof. reflexivity. Qed.

(** [generate_once], case by case. *)
Lemma generate_once_eq o name key encode w :
  let k := (namespace o, name) in
  let w1 := after_call (EvGet KSecret k) w in
  generate_once o name key encode w =
    match fault_now w with
    | Some reason => (Some (ErrStore reason), w1)
    | None =>
        match secrets w !! k with
        | Some d =>
            upsert {| SecretMeta := {| Name := name; Namespace := namespace o |};
                      Data := d |} key (data_index d key) w1
        | None =>
            if decide (32 ≤ List.length (entropy w))
            then upsert (emptySecret o name) key (encode (take 32 (entropy w)))
                   (set_entropy (drop 32 (entropy w)) (emit (EvRandom 32) w1))
            else (Some ErrRandom, emit (EvRandom 32) w1)
        end
    end.
Proof.
  intros k w1. unfold generate_once.
  rewrite bind_eq.
  replace (util.GetKey (emptySecret o name)) with k by reflexivity.
  rewrite Get_secret_eq. fold w1.
  destruct (fault_now w) as [reason|]; [reflexivity|].
  destruct (secrets w !! k) as [d|]; [reflexivity|].
  cbn [client.IgnoreNotFound]. rewrite !bind_eq, Read_eq.
  replace (entropy w1) with (entropy w) by reflexivity.
  destruct (decide (32 ≤ List.length (entropy w))); reflexivity.
Qed.

Lemma deployKubeApiServerSecretBasicAuth_generate_once o w :
  deployKubeApiServerSecretBasicAuth Prefix o w =
    generate_once o (KubeApiServerSecretNameBasicAuth Prefix) basicAuthKey
      basicAuth_encode w.
Proof.
  unfold deployKubeApiServerSecretBasicAuth, generate_once.
  rewrite !bind_eq.
  destruct (client.Get _ _ w) as [[secret [e|]] w1]; [|reflexivity].
  destruct (client.IgnoreNotFound (Some e)); [reflexivity|].
  unfold utils.GenerateRandomString.
  rewrite !bind_eq, Read_eq.
  destruct (decide (32 ≤ List.length (entropy w1))); reflexivity.
Qed.

Lemma deployKubeApiServerSecretEncryptionConfig_generate_once o w :
  deployKubeApiServerSecretEncryptionConfig Prefix o w =
    generate_once o (KubeApiServerSecretNameEncryptionConfig Prefix) encryptionConfigKey
      encryptionConfig_encode w.
Proof.
  unfold deployKubeApiServerSecretEncryptionConfig, generate_once.
  rewrite !bind_eq.
  destruct (client.Get _ _ w) as [[secret [e|]] w1]; [|reflexivity].
  destruct (client.IgnoreNotFound (Some e)); [reflexivity|].
  unfold generateNewEncryptionConfig.
  rewrite !bind_eq, Read_eq.
  destruct (decide (32 ≤ List.length (entropy w1))); reflexivity.
Qed.

End GenerateOnce.

Section WorldFacts.

Lemma secrets_after_call ev w : secrets (after_call ev w) = secrets w.
Proof. reflexivity. Qed.
Lemma deployments_after_call ev w : deployments (after_call ev w) = deployments w.
Proof. reflexivity. Qed.
Lemma entropy_after_call ev w : entropy (after_call ev w) = entropy w.
Proof. reflexivity. Qed.
Lemma trace_after_call ev w : trace (after_call ev w) = trace w ++ [ev].
Proof. reflexivity. Qed.
Lemma faults_after_call ev w : faults (after_call ev w) = tail (faults w).
Proof. reflexivity. Qed.

Lemma secrets_emit ev w : secrets (emit ev w) = secrets w.
Proof. reflexivity. Qed.
Lemma deployments_emit ev w : deployments (emit ev w) = deployments w.
Proof. reflexivity. Qed.
Lemma entropy_emit ev w : entropy (emit ev w) = entropy w.
Proof. reflexivity. Qed.
Lemma trace_emit ev w : trace (emit ev w) = trace w ++ [ev].
Proof. reflexivity. Qed.
Lemma faults_emit ev w : faults (emit ev w) = faults w.
Proof. reflexivity. Qed.

Lemma secrets_set_secrets f w : secrets (set_secrets f w) = f (secrets w).
Proof. reflexivity. Qed.
Lemma deployments_set_secrets f w : deployments (set_secrets f w) = deployments w.
Proof. reflexivity. Qed.
Lemma entropy_set_secrets f w : entropy (set_secrets f w) = entropy w.
Proof. reflexivity. Qed.
Lemma trace_set_secrets f w : trace (set_secrets f w) = trace w.
Proof. reflexivity. Qed.
Lemma faults_set_secrets f w : faults (set_secrets f w) = faults w.
Proof. reflexivity. Qed.

Lemma secrets_set_deployments f w : secrets (set_deployments f w) = secrets w.
Proof. reflexivity. Qed.
Lemma deployments_set_deployments f w : deployments (set_deployments f w) = f (deployments w).
Proof. reflexivity. Qed.
Lemma entropy_set_deployments f w : entropy (set_deployments f w) = entropy w.
Proof. reflexivity. Qed.
Lemma trace_set_deployments f w : trace (set_deployments f w) = trace w.
Proof. reflexivity. Qed.
Lemma faults_set_deployments f w : faults (set_deployments f w) = faults w.
Proof. reflexivity. Qed.

Lemma secrets_set_entropy e w : secrets (set_entropy e w) = secrets w.
Proof. reflexivity. Qed.
Lemma deployments_set_entropy e w : deployments (set_entropy e w) = deployments w.
Proof. reflexivity. Qed.
Lemma entropy_set_entropy e w : entropy (set_entropy e w) = e.
Proof. reflexivity. Qed.
Lemma trace_set_entropy e w : trace (set_entropy e w) = trace w.
Proof. reflexivity. Qed.
Lemma faults_set_entropy e w : faults (set_entropy e w) = faults w.
Proof. reflexivity. Qed.

Lemma fault_now_emit ev w : fault_now (emit ev w) = fault_now w.
Proof. reflexivity. Qed.
Lemma fault_now_set_entropy e w : fault_now (set_entropy e w) = fault_now w.
Proof. reflexivity. Qed.
Lemma fault_now_set_secrets f w : fault_now (set_secrets f w) = fault_now w.
Proof. reflexivity. Qed.
Lemma fault_now_set_deployments f w : fault_now (set_deployments f w) = fault_now w.
Proof. reflexivity. Qed.

End WorldFacts.

Create Rewrite HintDb world.
#[local] Hint Rewrite secrets_after_call deployments_after_call entropy_after_call
  trace_after_call faults_after_call secrets_emit deployments_emit entropy_emit trace_emit
  faults_emit secrets_set_secrets deployments_set_secrets entropy_set_secrets
  trace_set_secrets faults_set_secrets secrets_set_deployments deployments_set_deployments
  entropy_set_deployments trace_set_deployments faults_set_deployments
  secrets_set_entropy deployments_set_entropy entropy_set_entropy trace_set_entropy
  faults_set_entropy fault_now_emit fault_now_set_entropy fault_now_set_secrets
  fault_now_set_deployments : world.

Section Upsert.

Lemma upsert_eq (secret : Secret) key value w :
  let k := client.ObjectKeyFromObject secret in
  let w1 := after_call (EvGet KSecret k) w in
  upsert secret key value w =
    match fault_now w with
    | Some reason => (Some (ErrStore reason), w1)
    | None =>
        match secrets w !! k with
        | None =>
            match fault_now w1 with
            | Some reason => (Some (ErrStore reason), after_call (EvCreate KSecret k) w1)
            | None =>
                (None, set_secrets (fun m => <[k := Data (put key value secret)]> m)
                         (after_call (EvCreate KSecret k) w1))
            end
        | Some d =>
            let existing :=
              {| SecretMeta := {| Name := k.2; Namespace := k.1 |}; Data := d |} in
            if decide (existing = put key value existing) then (None, w1)
            else
              match fault_now w1 with
              | Some reason => (Some (ErrStore reason), after_call (EvUpdate KSecret k) w1)
              | None =>
                  (None, set_secrets (fun m => <[k := Data (put key value existing)]> m)
                           (after_call (EvUpdate KSecret k) w1))
              end
        end
    end.
Proof.
  intros k w1. unfold upsert. rewrite bind_eq.
  rewrite (CreateOrUpdate_secret_eq secret (put key value) w (put_meta key value)).
  fold k w1.
  destruct (fault_now w); [reflexivity|].
  destruct (secrets w !! k) as [d|].
  - cbn zeta. destruct (decide (_ = put key value _)); [reflexivity|].
    by destruct (fault_now w1).
  - by destruct (fault_now w1).
Qed.

(** What a create-or-update with [put] leaves behind, whatever the
    store's failures: the random source is not touched, only store
    calls on this identity are logged, other secrets stay, and the
    secret either stays as it was or holds [value] under [key]. *)
Lemma upsert_post (secret : Secret) key value w :
  let k := client.ObjectKeyFromObject secret in
  let res := upsert secret key value w in
  entropy res.2 = entropy w
  ∧ deployments res.2 = deployments w
  ∧ (∃ evs, trace res.2 = trace w ++ evs
            ∧ Forall (fun ev => ∀ n, ev ≠ EvRandom n) evs)
  ∧ (∀ k', k' ≠ k → secrets res.2 !! k' = secrets w !! k')
  ∧ (secrets res.2 !! k = secrets w !! k
     ∨ ∃ d', secrets res.2 !! k = Some d' ∧ data_lookup d' key = Some value
             ∧ ∀ key', key' ≠ key →
                 data_lookup d' key' =
                 match secrets w !! k with
                 | Some d => data_lookup d key'
                 | None => data_lookup (Data secret) key'
                 end)
  ∧ (res.1 = None →
     ∃ d', secrets res.2 !! k = Some d' ∧ data_index d' key = value)
  ∧ res.1 ≠ Some ErrNotFound.
Proof.
  intros k res. subst res. rewrite upsert_eq. fold k.
  set (w1 := after_call (EvGet KSecret k) w).
  destruct (fault_now w) as [reason|].
  { cbn [fst snd]. subst w1. autorewrite with world. split_and!; try done.
    - exists [EvGet KSecret k]. split; [done|]. by repeat constructor.
    - by left. }
  destruct (secrets w !! k) as [d|] eqn:Hk.
  - cbn zeta. set (existing := {| SecretMeta := _; Data := d |}).
    destruct (decide (existing = put key value existing)) as [Heq|Hne].
    { cbn [fst snd]. subst w1. autorewrite with world. split_and!; try done.
      - exists [EvGet KSecret k]. split; [done|]. by repeat constructor.
      - by left.
      - intros _. exists d. split; [done|].
        assert (Hd : d = Data (put key value existing)) by (by rewrite <- Heq).
        rewrite Hd. apply data_index_put. }
    destruct (fault_now w1) as [reason|]; cbn [fst snd]; subst w1;
      autorewrite with world.
    { split_and!; try done.
      - exists [EvGet KSecret k; EvUpdate KSecret k]. rewrite <- app_assoc.
        split; [done|]. by repeat constructor.
      - by left. }
    split_and!; try done.
    + exists [EvGet KSecret k; EvUpdate KSecret k]. rewrite <- app_assoc.
      split; [done|]. by repeat constructor.
    + intros k' Hk'. by rewrite lookup_insert_ne.
    + right. rewrite lookup_insert_eq. eexists. split; [done|].
      split; [apply data_lookup_put|].
      intros key' Hkey'. rewrite put_Data. cbn. rewrite lookup_insert_ne by done.
      subst existing. cbn. by destruct d.
    + intros _. rewrite lookup_insert_eq. eexists. split; [done|]. apply data_index_put.
  - destruct (fault_now w1) as [reason|]; cbn [fst snd]; subst w1;
      autorewrite with world.
    { split_and!; try done.
      - exists [EvGet KSecret k; EvCreate KSecret k]. rewrite <- app_assoc.
        split; [done|]. by repeat constructor.
      - by left. }
    split_and!; try done.
    + exists [EvGet KSecret k; EvCreate KSecret k]. rewrite <- app_assoc.
      split; [done|]. by repeat constructor.
    + intros k' Hk'. by rewrite lookup_insert_ne.
    + right. rewrite lookup_insert_eq. eexists. split; [done|].
      split; [apply data_lookup_put|].
      intros key' Hkey'. rewrite put_Data. cbn. rewrite lookup_insert_ne by done.
      by destruct (Data secret).
    + intros _. rewrite lookup_insert_eq. eexists. split; [done|]. apply data_index_put.
Qed.

End Upsert.

(** ** Generate-once, whatever the store does *)

Section GenerateOnceFacts.

(** The initial fetch fails for a reason other than NotFound. *)
Lemma generate_once_fault o name key encode w reason :
  fault_now w = Some reason →
  generate_once o name key encode w =
    (Some (ErrStore reason), after_call (EvGet KSecret (namespace o, name)) w).
Proof. intros Hf. rewrite generate_once_eq. by rewrite Hf. Qed.

(** The secret exists: its value is carried forward. *)
Lemma generate_once_present o name key encode w d :
  let k := (namespace o, name) in
  let res := generate_once o name key encode w in
  secrets w !! k = Some d →
  entropy res.2 = entropy w
  ∧ deployments res.2 = deployments w
  ∧ (∃ evs, trace res.2 = trace w ++ evs ∧ no_draw evs)
  ∧ (∀ k', k' ≠ k → secrets res.2 !! k' = secrets w !! k')
  ∧ (∃ d', secrets res.2 !! k = Some d'
           ∧ data_index d' key = data_index d key
           ∧ (∀ v, data_lookup d key = Some v → data_lookup d' key = Some v)
           ∧ (∀ key', key' ≠ key → data_lookup d' key' = data_lookup d key'))
  ∧ res.1 ≠ Some ErrNotFound.
Proof.
  intros k res Hk. subst res. rewrite generate_once_eq. fold k.
  set (w1 := after_call (EvGet KSecret k) w).
  destruct (fault_now w) as [reason|].
  { cbn [fst snd]. subst w1. autorewrite with world. split_and!; try done.
    - exists [EvGet KSecret k]. split; [done|]. by repeat constructor.
    - exists d. by rewrite Hk. }
  rewrite Hk.
  set (secret := {| SecretMeta := _; Data := d |}).
  destruct (upsert_post secret key (data_index d key) w1)
    as (Hent & Hdep & (evs & Htr & Hevs) & Hother & Hmine & _ & Hnf).
  replace (client.ObjectKeyFromObject secret) with k in * by reflexivity.
  subst w1. autorewrite with world in *.
  split_and!; try done.
  - exists (EvGet KSecret k :: evs). rewrite Htr, <- app_assoc. split; [done|].
    constructor; [done|apply Hevs].
  - destruct Hmine as [Hsame|(d' & Hd' & Hval & Hrest)].
    + exists d. by rewrite Hsame, Hk.
    + exists d'. split; [done|]. rewrite Hk in Hrest. split_and!.
      * by rewrite (data_index_lookup d'), Hval.
      * intros v Hv. rewrite Hval. f_equal.
        by rewrite (data_index_lookup d), Hv.
      * done.
Qed.

(** The secret is absent and the fetch says so: the creation branch. *)
Lemma generate_once_absent o name key encode w :
  let k := (namespace o, name) in
  let res := generate_once o name key encode w in
  secrets w !! k = None →
  fault_now w = None →
  deployments res.2 = deployments w
  ∧ (∀ k', k' ≠ k → secrets res.2 !! k' = secrets w !! k')
  ∧ res.1 ≠ Some ErrNotFound
  ∧ (∃ evs, trace res.2 = trace w ++ EvGet KSecret k :: EvRandom 32 :: evs ∧ no_draw evs
            ∧ (32 ≤ List.length (entropy w) → ∃ evs', evs = EvGet KSecret k :: evs'))
  ∧ (List.length (entropy w) < 32 → res.1 = Some ErrRandom ∧ secrets res.2 = secrets w)
  ∧ (32 ≤ List.length (entropy w) → entropy res.2 = drop 32 (entropy w))
  ∧ (res.1 = None →
       32 ≤ List.length (entropy w)
       ∧ ∃ d', secrets res.2 !! k = Some d'
               ∧ data_lookup d' key = Some (encode (take 32 (entropy w)))).
Proof.
  intros k res Hk Hf. subst res. rewrite generate_once_eq. fold k.
  rewrite Hf, Hk.
  set (w1 := after_call (EvGet KSecret k) w).
  destruct (decide (32 ≤ List.length (entropy w))) as [Hlen|Hlen].
  2: { cbn [fst snd]. subst w1. autorewrite with world. split_and!; try done.
       - exists []. rewrite <- app_assoc. split; [done|]. split; [constructor|]. lia. }
  set (w2 := set_entropy _ _).
  set (value := encode _).
  destruct (upsert_post (emptySecret o name) key value w2)
    as (Hent & Hdep & (evs & Htr & Hevs) & Hother & Hmine & Hok & Hnf).
  pose proof (upsert_eq (emptySecret o name) key value w2) as Heq.
  replace (client.ObjectKeyFromObject (emptySecret o name)) with k in * by reflexivity.
  cbn zeta in Heq.
  assert (Hk2 : secrets w2 !! k = None)
    by (subst w2 w1; by autorewrite with world).
  assert (Hevs' : ∃ evs', evs = EvGet KSecret k :: evs').
  { rewrite Hk2 in Heq. clear -Heq Htr.
    destruct (fault_now w2);
      [|destruct (fault_now (after_call (EvGet KSecret k) w2))];
      rewrite Heq in Htr; cbn [snd] in Htr; autorewrite with world in Htr.
    - exists []. by apply app_inv_head in Htr.
    - exists [EvCreate KSecret k]. rewrite <- app_assoc in Htr.
      by apply app_inv_head in Htr.
    - exists [EvCreate KSecret k]. rewrite <- app_assoc in Htr.
      by apply app_inv_head in Htr. }
  subst w2 w1. autorewrite with world in *.
  split_and!; try done.
  - exists evs. rewrite Htr, <- !app_assoc. split_and!; [done|done|by intros _].
  - lia.
  - intros Hnone. split; [done|].
    destruct Hmine as [Hsame|(d' & Hd' & Hval & _)].
    + destruct (Hok Hnone) as (d' & Hd' & _). rewrite Hsame, Hk in Hd'. done.
    + by exists d'.
Qed.

End GenerateOnceFacts.

Section Calm.

Lemma calm_now n w : calm (S n) w → fault_now w = None.
Proof.
  unfold calm, fault_now. destruct (faults w) as [|f fs]; [done|].
  cbn. by intros [-> _]%Forall_cons.
Qed.

Lemma calm_next n w w' : calm (S n) w → faults w' = tail (faults w) → calm n w'.
Proof.
  unfold calm. intros Hc ->. destruct (faults w) as [|f fs]; cbn in *.
  - by rewrite take_nil.
  - by apply Forall_cons in Hc as [_ Hc].
Qed.

Lemma calm_same n w w' : calm n w → faults w' = faults w → calm n w'.
Proof. unfold calm. by intros Hc ->. Qed.

End Calm.

Section GenerateOnceCreated.

(** Absent secret, a store that answers three calls, and entropy at
    hand: fetch, draw, fetch again, create. *)
Lemma generate_once_created o name key encode w :
  let k := (namespace o, name) in
  secrets w !! k = None →
  calm 3 w →
  32 ≤ List.length (entropy w) →
  generate_once o name key encode w =
    (None,
     set_secrets (fun m => <[k := Some {[ key := encode (take 32 (entropy w)) ]}]> m)
       (after_call (EvCreate KSecret k)
          (after_call (EvGet KSecret k)
             (set_entropy (drop 32 (entropy w))
                (emit (EvRandom 32) (after_call (EvGet KSecret k) w)))))).
Proof.
  intros k Hk Hc Hlen. rewrite generate_once_eq. fold k.
  rewrite (calm_now _ _ Hc), Hk, decide_True by done.
  rewrite upsert_eq.
  replace (client.ObjectKeyFromObject (emptySecret o name)) with k by reflexivity.
  cbn zeta. autorewrite with world. rewrite Hk.
  assert (Hc1 : calm 2 (after_call (EvGet KSecret k) w)) by (by eapply calm_next).
  rewrite (calm_now _ _ Hc1).
  set (w2 := set_entropy _ _).
  assert (Hc2 : calm 1 (after_call (EvGet KSecret k) w2)).
  { eapply calm_next; [|reflexivity]. by eapply calm_same. }
  rewrite (calm_now _ _ Hc2). do 3 f_equal.
Qed.

End GenerateOnceCreated.

(** ** The basic-auth and the encryption-config secret *)

Section GenerateOnceSecrets.

Context (Prefix : string).

Lemma no_draw_elem evs n : no_draw evs → EvRandom n ∉ evs.
Proof. intros Hnd Hin. eapply Forall_forall in Hnd; [|done]. by apply (Hnd n). Qed.

(** C1. [deployKubeApiServerSecretBasicAuth] generates the password once.
    Whatever the store held and however its calls fail: when the
    basic-auth secret exists, its "basic_auth.csv" value is still there
    unchanged afterwards and the random source is not drawn from; a draw
    happens only when the secret is absent; and when the operation
    succeeds from an absent secret it stores a value rendered from 32
    fresh random bytes, which a second call leaves as the first wrote it. *)
Theorem deployKubeApiServerSecretBasicAuth_generates_once o w :
  let k := (namespace o, KubeApiServerSecretNameBasicAuth Prefix) in
  let res := deployKubeApiServerSecretBasicAuth Prefix o w in
  (∀ d, secrets w !! k = Some d →
     (∃ d', secrets res.2 !! k = Some d'
            ∧ data_index d' basicAuthKey = data_index d basicAuthKey
            ∧ ∀ v, data_lookup d basicAuthKey = Some v →
                   data_lookup d' basicAuthKey = Some v)
     ∧ entropy res.2 = entropy w
     ∧ ∃ evs, trace res.2 = trace w ++ evs ∧ no_draw evs)
  ∧ (∀ evs n, trace res.2 = trace w ++ evs → EvRandom n ∈ evs → secrets w !! k = None)
  ∧ (entropy res.2 ≠ entropy w → secrets w !! k = None)
  ∧ (secrets w !! k = None → res.1 = None →
       32 ≤ List.length (entropy w)
       ∧ entropy res.2 = drop 32 (entropy w)
       ∧ ∃ d1, secrets res.2 !! k = Some d1
           ∧ data_lookup d1 basicAuthKey = Some (basicAuth_encode (take 32 (entropy w)))
           ∧ let res2 := deployKubeApiServerSecretBasicAuth Prefix o res.2 in
             entropy res2.2 = entropy res.2
             ∧ ∃ d2, secrets res2.2 !! k = Some d2
                 ∧ data_lookup d2 basicAuthKey = data_lookup d1 basicAuthKey).
Proof.
  intros k res.
  assert (Hpresent : ∀ w0 d, secrets w0 !! k = Some d →
    let r := deployKubeApiServerSecretBasicAuth Prefix o w0 in
    (∃ d', secrets r.2 !! k = Some d'
           ∧ data_index d' basicAuthKey = data_index d basicAuthKey
           ∧ ∀ v, data_lookup d basicAuthKey = Some v →
                  data_lookup d' basicAuthKey = Some v)
    ∧ entropy r.2 = entropy w0
    ∧ ∃ evs, trace r.2 = trace w0 ++ evs ∧ no_draw evs).
  { intros w0 d Hd r. subst r.
    rewrite deployKubeApiServerSecretBasicAuth_generate_once.
    destruct (generate_once_present o (KubeApiServerSecretNameBasicAuth Prefix)
                basicAuthKey basicAuth_encode w0 d Hd)
      as (Hent & _ & Htr & _ & (d' & Hd' & Hidx & Hlook & _) & _).
    split_and!; [by exists d' | done | done]. }
  split_and!.
  - intros d Hd. by apply Hpresent.
  - intros evs n Htr Hin. destruct (secrets w !! k) as [d|] eqn:Hd; [exfalso|done].
    destruct (Hpresent w d Hd) as (_ & _ & evs' & Htr' & Hnd).
    fold res in Htr'. rewrite Htr in Htr'. apply app_inv_head in Htr' as ->.
    by eapply no_draw_elem.
  - intros Hne. destruct (secrets w !! k) as [d|] eqn:Hd; [exfalso|done].
    by destruct (Hpresent w d Hd) as (_ & Hent & _).
  - intros Hk Hok.
    pose proof (deployKubeApiServerSecretBasicAuth_generate_once Prefix o w) as Heq.
    fold res in Heq.
    destruct (fault_now w) as [reason|] eqn:Hf.
    { rewrite (generate_once_fault _ _ _ _ _ _ Hf) in Heq. by rewrite Heq in Hok. }
    destruct (generate_once_absent o (KubeApiServerSecretNameBasicAuth Prefix)
                basicAuthKey basicAuth_encode w Hk Hf)
      as (_ & _ & _ & _ & _ & Hent & Hcreated).
    rewrite <- Heq in Hent, Hcreated.
    destruct (Hcreated Hok) as (Hlen & d1 & Hd1 & Hv1).
    split_and!; [done | by apply Hent |].
    exists d1. split_and!; [done | done |].
    intros res2. subst res2.
    destruct (Hpresent res.2 d1 Hd1) as ((d2 & Hd2 & _ & Hlook) & Hent2 & _).
    split; [done|]. exists d2. split; [done|]. rewrite Hv1. by apply Hlook.
Qed.


Lemma generateNewEncryptionConfig_eq o w :
  generateNewEncryptionConfig o w =
    if decide (32 ≤ List.length (entropy w))
    then ((encryptionConfig_encode (take 32 (entropy w)), None),
          set_entropy (drop 32 (entropy w)) (emit (EvRandom 32) w))
    else (([], Some ErrRandom), emit (EvRandom 32) w).
Proof.
  unfold generateNewEncryptionConfig. rewrite bind_eq, Read_eq.
  by destruct (decide (32 ≤ List.length (entropy w))).
Qed.

(** C2. [deployKubeApiServerSecretEncryptionConfig] draws from the random
    source only on the creation branch: a draw is logged, or entropy is
    used up, only when the secret is absent and the fetch said so, and
    then it is one draw of 32 bytes, the AES key of the new
    configuration built by [generateNewEncryptionConfig].  When the
    secret exists, its "encryption-config.yaml" value is carried forward
    unchanged and the random source is not invoked. *)
Theorem deployKubeApiServerSecretEncryptionConfig_randomness o w :
  let k := (namespace o, KubeApiServerSecretNameEncryptionConfig Prefix) in
  let res := deployKubeApiServerSecretEncryptionConfig Prefix o w in
  (∀ evs n, trace res.2 = trace w ++ evs → EvRandom n ∈ evs →
     secrets w !! k = None ∧ fault_now w = None ∧ n = 32)
  ∧ (entropy res.2 ≠ entropy w →
       secrets w !! k = None ∧ fault_now w = None
       ∧ 32 ≤ List.length (entropy w) ∧ entropy res.2 = drop 32 (entropy w))
  ∧ (∀ d, secrets w !! k = Some d →
       (∃ d', secrets res.2 !! k = Some d'
              ∧ data_index d' encryptionConfigKey = data_index d encryptionConfigKey
              ∧ ∀ v, data_lookup d encryptionConfigKey = Some v →
                     data_lookup d' encryptionConfigKey = Some v)
       ∧ entropy res.2 = entropy w
       ∧ ∃ evs, trace res.2 = trace w ++ evs ∧ no_draw evs)
  ∧ (secrets w !! k = None → res.1 = None →
       let aesKey := take 32 (entropy w) in
       List.length aesKey = 32
       ∧ entropy res.2 = drop 32 (entropy w)
       ∧ (generateNewEncryptionConfig o w).1 = (encryptionConfig_encode aesKey, None)
       ∧ ∃ d', secrets res.2 !! k = Some d'
           ∧ data_lookup d' encryptionConfigKey = Some (encryptionConfig_encode aesKey)).
Proof.
  intros k res.
  pose proof (deployKubeApiServerSecretEncryptionConfig_generate_once Prefix o w) as Heq.
  fold res in Heq.
  set (name := KubeApiServerSecretNameEncryptionConfig Prefix) in *.
  assert (Hfault : ∀ reason, fault_now w = Some reason →
            entropy res.2 = entropy w ∧ trace res.2 = trace w ++ [EvGet KSecret k]).
  { intros reason Hf. by rewrite Heq, (generate_once_fault _ _ _ _ _ _ Hf). }
  assert (Hpresent : ∀ d, secrets w !! k = Some d →
    (∃ d', secrets res.2 !! k = Some d'
           ∧ data_index d' encryptionConfigKey = data_index d encryptionConfigKey
           ∧ ∀ v, data_lookup d encryptionConfigKey = Some v →
                  data_lookup d' encryptionConfigKey = Some v)
    ∧ entropy res.2 = entropy w
    ∧ ∃ evs, trace res.2 = trace w ++ evs ∧ no_draw evs).
  { intros d Hd. rewrite Heq.
    destruct (generate_once_present o name encryptionConfigKey encryptionConfig_encode
                w d Hd)
      as (Hent & _ & Htr & _ & (d' & Hd' & Hidx & Hlook & _) & _).
    split_and!; [by exists d' | done | done]. }
  split_and!.
  - intros evs n Htr Hin.
    destruct (fault_now w) as [reason|] eqn:Hf.
    { destruct (Hfault reason eq_refl) as [_ Htr']. rewrite Htr in Htr'.
      apply app_inv_head in Htr' as ->. by apply list_elem_of_singleton in Hin. }
    destruct (secrets w !! k) as [d|] eqn:Hd.
    { destruct (Hpresent d eq_refl) as (_ & _ & evs' & Htr' & Hnd).
      rewrite Htr in Htr'. apply app_inv_head in Htr' as ->.
      by apply no_draw_elem in Hin. }
    split_and!; [done | done |].
    destruct (generate_once_absent o name encryptionConfigKey encryptionConfig_encode
                w Hd Hf) as (_ & _ & _ & (evs' & Htr' & Hnd & _) & _).
    rewrite <- Heq, Htr in Htr'. apply app_inv_head in Htr' as ->.
    apply elem_of_cons in Hin as [?|Hin]; [done|].
    apply elem_of_cons in Hin as [Hin|Hin]; [by injection Hin|].
    by apply no_draw_elem in Hin.
  - intros Hne.
    destruct (fault_now w) as [reason|] eqn:Hf.
    { by destruct (Hfault reason eq_refl) as [Hent _]. }
    destruct (secrets w !! k) as [d|] eqn:Hd.
    { by destruct (Hpresent d eq_refl) as (_ & Hent & _). }
    destruct (generate_once_absent o name encryptionConfigKey encryptionConfig_encode
                w Hd Hf) as (_ & _ & _ & _ & Hshort & Hent & _).
    rewrite <- Heq in Hshort, Hent.
    destruct (decide (32 ≤ List.length (entropy w))) as [Hlen|Hlen].
    + split_and!; try done. by apply Hent.
    + exfalso. apply Hne. rewrite Heq, generate_once_eq, Hf.
      fold name k. rewrite Hd, decide_False by done. done.
  - done.
  - intros Hk Hok aesKey.
    destruct (fault_now w) as [reason|] eqn:Hf.
    { rewrite Heq, (generate_once_fault _ _ _ _ _ _ Hf) in Hok. done. }
    destruct (generate_once_absent o name encryptionConfigKey encryptionConfig_encode
                w Hk Hf) as (_ & _ & _ & _ & _ & Hent & Hcreated).
    rewrite <- Heq in Hent, Hcreated.
    destruct (Hcreated Hok) as (Hlen & d' & Hd' & Hv).
    split_and!.
    + subst aesKey. rewrite length_take. lia.
    + by apply Hent.
    + rewrite generateNewEncryptionConfig_eq, decide_True by done. done.
    + by exists d'.
Qed.

(** C4. For the basic-auth and the encryption-config secret alike: when
    the initial fetch fails with anything but NotFound, that error is the
    result, nothing further is asked of the store and its objects stay
    as they were.  NotFound from the initial fetch is no error: the
    operation goes on to draw the random bytes and to create-or-update,
    it never returns NotFound, and with a store that answers and entropy
    at hand it succeeds and the secret is created. *)
Theorem generate_once_secrets_initial_fetch o w :
  let kb := (namespace o, KubeApiServerSecretNameBasicAuth Prefix) in
  let ke := (namespace o, KubeApiServerSecretNameEncryptionConfig Prefix) in
  let rb := deployKubeApiServerSecretBasicAuth Prefix o w in
  let re := deployKubeApiServerSecretEncryptionConfig Prefix o w in
  (∀ reason, fault_now w = Some reason →
     (rb.1 = Some (ErrStore reason)
      ∧ secrets rb.2 = secrets w ∧ deployments rb.2 = deployments w
      ∧ entropy rb.2 = entropy w
      ∧ trace rb.2 = trace w ++ [EvGet KSecret kb])
     ∧ (re.1 = Some (ErrStore reason)
        ∧ secrets re.2 = secrets w ∧ deployments re.2 = deployments w
        ∧ entropy re.2 = entropy w
        ∧ trace re.2 = trace w ++ [EvGet KSecret ke]))
  ∧ (fault_now w = None → secrets w !! kb = None →
       rb.1 ≠ Some ErrNotFound
       ∧ (∃ evs, trace rb.2 = trace w ++ EvGet KSecret kb :: EvRandom 32 :: evs
                 ∧ (32 ≤ List.length (entropy w) → ∃ evs', evs = EvGet KSecret kb :: evs'))
       ∧ (calm 3 w → 32 ≤ List.length (entropy w) →
            rb.1 = None
            ∧ secrets rb.2 =
                <[kb := Some {[ basicAuthKey := basicAuth_encode (take 32 (entropy w)) ]}]>
                  (secrets w)
            ∧ trace rb.2 = trace w ++ [EvGet KSecret kb; EvRandom 32;
                                       EvGet KSecret kb; EvCreate KSecret kb]))
  ∧ (fault_now w = None → secrets w !! ke = None →
       re.1 ≠ Some ErrNotFound
       ∧ (∃ evs, trace re.2 = trace w ++ EvGet KSecret ke :: EvRandom 32 :: evs
                 ∧ (32 ≤ List.length (entropy w) → ∃ evs', evs = EvGet KSecret ke :: evs'))
       ∧ (calm 3 w → 32 ≤ List.length (entropy w) →
            re.1 = None
            ∧ secrets re.2 =
                <[ke := Some {[ encryptionConfigKey :=
                                  encryptionConfig_encode (take 32 (entropy w)) ]}]>
                  (secrets w)
            ∧ trace re.2 = trace w ++ [EvGet KSecret ke; EvRandom 32;
                                       EvGet KSecret ke; EvCreate KSecret ke])).
Proof.
  intros kb ke rb re. subst rb re.
  rewrite deployKubeApiServerSecretBasicAuth_generate_once,
    deployKubeApiServerSecretEncryptionConfig_generate_once.
  assert (Hgen : ∀ name key encode,
    let k := (namespace o, name) in
    let r := generate_once o name key encode w in
    (∀ reason, fault_now w = Some reason →
       r.1 = Some (ErrStore reason)
       ∧ secrets r.2 = secrets w ∧ deployments r.2 = deployments w
       ∧ entropy r.2 = entropy w
       ∧ trace r.2 = trace w ++ [EvGet KSecret k])
    ∧ (fault_now w = None → secrets w !! k = None →
         r.1 ≠ Some ErrNotFound
         ∧ (∃ evs, trace r.2 = trace w ++ EvGet KSecret k :: EvRandom 32 :: evs
                   ∧ (32 ≤ List.length (entropy w) → ∃ evs', evs = EvGet KSecret k :: evs'))
         ∧ (calm 3 w → 32 ≤ List.length (entropy w) →
              r.1 = None
              ∧ secrets r.2 = <[k := Some {[ key := encode (take 32 (entropy w)) ]}]> (secrets w)
              ∧ trace r.2 = trace w ++ [EvGet KSecret k; EvRandom 32;
                                        EvGet KSecret k; EvCreate KSecret k]))).
  { intros name key encode k r. subst r. split.
    - intros reason Hf. by rewrite (generate_once_fault _ _ _ _ _ _ Hf).
    - intros Hf Hk.
      destruct (generate_once_absent o name key encode w Hk Hf)
        as (_ & _ & Hnf & (evs & Htr & _ & Hmore) & _).
      split_and!; [done | by exists evs |].
      intros Hc Hlen. rewrite (generate_once_created o name key encode w Hk Hc Hlen).
      cbn [fst snd]. autorewrite with world. rewrite <- !app_assoc. done. }
  split_and!.
  - intros reason Hf. split.
    + by apply (Hgen (KubeApiServerSecretNameBasicAuth Prefix)).
    + by apply (Hgen (KubeApiServerSecretNameEncryptionConfig Prefix)).
  - apply (Hgen (KubeApiServerSecretNameBasicAuth Prefix)).
  - apply (Hgen (KubeApiServerSecretNameEncryptionConfig Prefix)).
Qed.

End GenerateOnceSecrets.

(** The secret is there and the store fails the second fetch: the value
    stays; from an empty cluster the password is rendered from 32 fresh
    bytes and survives a second call. *)
Lemma deployKubeApiServerSecretBasicAuth_generates_once_witness :
  let k := (namespace Sample.o, KubeApiServerSecretNameBasicAuth Sample.Prefix) in
  let kept := deployKubeApiServerSecretBasicAuth Sample.Prefix Sample.o
                (Sample.settled [None; Some "timeout"]) in
  let made := deployKubeApiServerSecretBasicAuth Sample.Prefix Sample.o Sample.fresh in
  ((∃ d', secrets kept.2 !! k = Some d'
          ∧ data_index d' basicAuthKey =
              String.list_byte_of_string "pw,admin,admin,system:masters")
   ∧ entropy kept.2 = entropy (Sample.settled [None; Some "timeout"]))
  ∧ (32 ≤ List.length (entropy Sample.fresh)
     ∧ entropy made.2 = drop 32 (entropy Sample.fresh)).
Proof.
  intros k kept made. split.
  - destruct (deployKubeApiServerSecretBasicAuth_generates_once Sample.Prefix Sample.o
                (Sample.settled [None; Some "timeout"])) as (Hkept & _).
    assert (Hd : secrets (Sample.settled [None; Some "timeout"]) !! k =
              Some (Some {[ "basic_auth.csv" :=
                String.list_byte_of_string "pw,admin,admin,system:masters" ]}))
      by (vm_compute; reflexivity).
    destruct (Hkept _ Hd) as ((d' & Hd' & Hidx & _) & Hent & _).
    split; [|exact Hent]. exists d'. split; [exact Hd'|]. rewrite Hidx.
    vm_compute. reflexivity.
  - destruct (deployKubeApiServerSecretBasicAuth_generates_once Sample.Prefix Sample.o
                Sample.fresh) as (_ & _ & _ & Hmade).
    assert (Hk : secrets Sample.fresh !! k = None) by (vm_compute; reflexivity).
    assert (Hok : made.1 = None) by (vm_compute; reflexivity).
    destruct (Hmade Hk Hok) as (Hlen & Hent & _).
    split; [exact Hlen | exact Hent].
Defined.

(** The encryption-config secret, kept when it is there and made from a
    32-byte key when it is not. *)
Lemma deployKubeApiServerSecretEncryptionConfig_randomness_witness :
  let k := (namespace Sample.o, KubeApiServerSecretNameEncryptionConfig Sample.Prefix) in
  let kept := deployKubeApiServerSecretEncryptionConfig Sample.Prefix Sample.o
                (Sample.settled []) in
  let made := deployKubeApiServerSecretEncryptionConfig Sample.Prefix Sample.o Sample.fresh in
  (entropy kept.2 = entropy (Sample.settled [])
   ∧ ∃ evs, trace kept.2 = trace (Sample.settled []) ++ evs ∧ no_draw evs)
  ∧ (List.length (take 32 (entropy Sample.fresh)) = 32
     ∧ entropy made.2 = drop 32 (entropy Sample.fresh)).
Proof.
  intros k kept made. split.
  - destruct (deployKubeApiServerSecretEncryptionConfig_randomness Sample.Prefix Sample.o
                (Sample.settled [])) as (_ & _ & Hkept & _).
    assert (Hd : secrets (Sample.settled []) !! k =
              Some (Some {[ "encryption-config.yaml" :=
                String.list_byte_of_string "resources: []" ]}))
      by (vm_compute; reflexivity).
    destruct (Hkept _ Hd) as (_ & Hent & Htr).
    split; [exact Hent | exact Htr].
  - destruct (deployKubeApiServerSecretEncryptionConfig_randomness Sample.Prefix Sample.o
                Sample.fresh) as (_ & _ & _ & Hmade).
    assert (Hk : secrets Sample.fresh !! k = None) by (vm_compute; reflexivity).
    assert (Hok : made.1 = None) by (vm_compute; reflexivity).
    destruct (Hmade Hk Hok) as (Hlen & Hent & _).
    split; [exact Hlen | exact Hent].
Defined.

(** A store that fails the first call with a timeout, and an empty cluster
    with a store that answers. *)
Lemma generate_once_secrets_initial_fetch_witness :
  let kb := (namespace Sample.o, KubeApiServerSecretNameBasicAuth Sample.Prefix) in
  let failed := deployKubeApiServerSecretBasicAuth Sample.Prefix Sample.o
                  (Sample.settled [Some "timeout"]) in
  let made := deployKubeApiServerSecretBasicAuth Sample.Prefix Sample.o Sample.fresh in
  (failed.1 = Some (ErrStore "timeout")
   ∧ secrets failed.2 = secrets (Sample.settled [Some "timeout"]))
  ∧ (made.1 = None
     ∧ trace made.2 = trace Sample.fresh ++ [EvGet KSecret kb; EvRandom 32;
                                             EvGet KSecret kb; EvCreate KSecret kb]).
Proof.
  intros kb failed made. split.
  - destruct (generate_once_secrets_initial_fetch Sample.Prefix Sample.o
                (Sample.settled [Some "timeout"])) as (Hfail & _).
    destruct (Hfail "timeout" eq_refl) as ((Hres & Hsec & _) & _).
    split; [exact Hres | exact Hsec].
  - destruct (generate_once_secrets_initial_fetch Sample.Prefix Sample.o Sample.fresh)
      as (_ & Hmade & _).
    assert (Hk : secrets Sample.fresh !! kb = None) by (vm_compute; reflexivity).
    destruct (Hmade eq_refl Hk) as (_ & _ & Hcalm).
    assert (Hc : calm 3 Sample.fresh) by (unfold calm; cbn; constructor).
    assert (Hlen : 32 ≤ List.length (entropy Sample.fresh)) by (cbn; lia).
    destruct (Hcalm Hc Hlen) as (Hres & _ & Htr).
    split; [exact Hres | exact Htr].
Defined.

(** ** The secrets of the kube-apiserver, together *)

Section SecretsTogether.

Context (Prefix : string).
Context (validatingWebhookKubeconfig mutatingWebhookKubeconfig : list byte).

(** C9. With both the validating and the mutating webhook disabled,
    [deployKubeApiServerSecretAdmissionKubeconfig] returns nil and leaves
    the world as it was: no call reaches the store.  The same holds for
    [deployKubeApiServerSecretAuditWebhookConfig] when the configured
    audit webhook config is the empty string. *)
Theorem webhook_secrets_skipped o w :
  let controlplane := GardenerControlplane_ (imports o) in
  (ValidatingWebhookEnabled controlplane = false →
   MutatingWebhookEnabled controlplane = false →
     deployKubeApiServerSecretAdmissionKubeconfig Prefix validatingWebhookKubeconfig
       mutatingWebhookKubeconfig o w = (None, w))
  ∧ (Config (AuditWebhookConfig_ (imports o)) = "" →
       deployKubeApiServerSecretAuditWebhookConfig o w = (None, w)).
Proof.
  intros controlplane. split.
  - intros Hv Hm. unfold deployKubeApiServerSecretAdmissionKubeconfig.
    fold controlplane. by rewrite Hv, Hm.
  - intros Hc. unfold deployKubeApiServerSecretAuditWebhookConfig. by rewrite Hc.
Qed.

(** C8. [deployKubeAPIServerSecrets] runs its four sub-steps in the order
    admission kubeconfig, audit webhook config, basic auth, encryption
    config, each on the world the one before left.  It returns nil
    exactly when all four return nil; otherwise it returns the error of
    the first sub-step that fails, in the world that sub-step left, so
    that no later sub-step has run. *)
Theorem deployKubeAPIServerSecrets_fail_fast o w :
  let r1 := deployKubeApiServerSecretAdmissionKubeconfig Prefix
              validatingWebhookKubeconfig mutatingWebhookKubeconfig o w in
  let r2 := deployKubeApiServerSecretAuditWebhookConfig o r1.2 in
  let r3 := deployKubeApiServerSecretBasicAuth Prefix o r2.2 in
  let r4 := deployKubeApiServerSecretEncryptionConfig Prefix o r3.2 in
  let res := deployKubeAPIServerSecrets Prefix validatingWebhookKubeconfig
               mutatingWebhookKubeconfig o w in
  (res.1 = None ↔ r1.1 = None ∧ r2.1 = None ∧ r3.1 = None ∧ r4.1 = None)
  ∧ (∀ e, r1.1 = Some e → res = (Some e, r1.2))
  ∧ (∀ e, r1.1 = None → r2.1 = Some e → res = (Some e, r2.2))
  ∧ (∀ e, r1.1 = None → r2.1 = None → r3.1 = Some e → res = (Some e, r3.2))
  ∧ (∀ e, r1.1 = None → r2.1 = None → r3.1 = None → r4.1 = Some e →
       res = (Some e, r4.2))
  ∧ (r1.1 = None → r2.1 = None → r3.1 = None → r4.1 = None → res = (None, r4.2)).
Proof.
  intros r1 r2 r3 r4 res. subst res.
  unfold deployKubeAPIServerSecrets. rewrite bind_eq. fold r1.
  destruct r1 as [[e1|] w1] eqn:H1; cbn [fst snd] in *.
  { split_and!; try done; [split; [done | by intros [? _]] | by intros e [= ->]]. }
  rewrite bind_eq. fold r2.
  destruct r2 as [[e2|] w2] eqn:H2; cbn [fst snd] in *.
  { split_and!; try done; [split; [done | by intros (_ & ? & _)] | by intros e _ [= ->]]. }
  rewrite bind_eq. fold r3.
  destruct r3 as [[e3|] w3] eqn:H3; cbn [fst snd] in *.
  { split_and!; try done;
      [split; [done | by intros (_ & _ & ? & _)] | by intros e _ _ [= ->]]. }
  rewrite bind_eq. fold r4.
  destruct r4 as [[e4|] w4] eqn:H4; cbn [fst snd] in *.
  { split_and!; try done;
      [split; [done | by intros (_ & _ & _ & ?)] | by intros e _ _ _ [= ->]]. }
  split_and!; done.
Qed.

End SecretsTogether.

(** The sample operation has both webhooks disabled and no audit webhook
    config. *)
Lemma webhook_secrets_skipped_witness :
  deployKubeApiServerSecretAdmissionKubeconfig Sample.Prefix [] [] Sample.o Sample.fresh
    = (None, Sample.fresh)
  ∧ deployKubeApiServerSecretAuditWebhookConfig Sample.o Sample.fresh = (None, Sample.fresh).
Proof.
  destruct (webhook_secrets_skipped Sample.Prefix [] [] Sample.o Sample.fresh) as [Ha Hb].
  split; [exact (Ha eq_refl eq_refl) | exact (Hb eq_refl)].
Defined.

(** The first two sub-steps have nothing to do, the store fails the fetch
    of the third: its error is the result and the fourth does not run. *)
Lemma deployKubeAPIServerSecrets_fail_fast_witness :
  deployKubeAPIServerSecrets Sample.Prefix [] [] Sample.o (Sample.settled [Some "timeout"])
    = (Some (ErrStore "timeout"),
       (deployKubeApiServerSecretBasicAuth Sample.Prefix Sample.o
          (Sample.settled [Some "timeout"])).2).
Proof.
  destruct (deployKubeAPIServerSecrets_fail_fast Sample.Prefix [] [] Sample.o
              (Sample.settled [Some "timeout"])) as (_ & _ & _ & H3 & _).
  apply (H3 (ErrStore "timeout")); vm_compute; reflexivity.
Defined.

(** ** Deletion *)

Section DeleteRange.

Context `{Object T} (empty : string → T) (key_of : string → ObjectKey).
Hypothesis empty_key : ∀ n, client.ObjectKeyFromObject (empty n) = key_of n.
Hypothesis stored_after_call : ∀ ev w, stored (T:=T) (after_call ev w) = stored w.
Hypothesis stored_set_stored : ∀ f w, stored (T:=T) (set_stored f w) = f (stored w).
Hypothesis faults_set_stored : ∀ f w, faults (set_stored (T:=T) f w) = faults w.
Hypothesis trace_set_stored : ∀ f w, trace (set_stored (T:=T) f w) = trace w.

(** With a store that raises no failure of its own, the loop deletes
    every name, present or not, and returns nil. *)
Lemma delete_range_calm names w :
  calm (List.length names) w →
  let res := delete_range empty names w in
  res.1 = None
  ∧ trace res.2 = trace w ++ ((fun n => EvDelete (kindOf (T:=T)) (key_of n)) <$> names)
  ∧ stored (T:=T) res.2 = foldl (fun m n => delete (key_of n) m) (stored w) names.
Proof using All.
  revert w. induction names as [|n names IH]; intros w Hc res; subst res.
  - cbn. by rewrite app_nil_r.
  - cbn [delete_range]. rewrite bind_eq, Delete_eq, empty_key.
    cbn zeta. rewrite (calm_now _ _ Hc), stored_after_call.
    set (w1 := after_call _ w).
    assert (Hc1 : calm (List.length names) w1) by (by eapply calm_next).
    destruct (stored w !! key_of n) as [c|] eqn:Hn; cbn [client.IgnoreNotFound].
    + set (w2 := set_stored _ w1).
      assert (Hc2 : calm (List.length names) w2).
      { eapply calm_same; [done|]. apply faults_set_stored. }
      destruct (IH w2 Hc2) as (Hr & Htr & Hst).
      split_and!; [done | |].
      * rewrite Htr. subst w2. rewrite trace_set_stored. subst w1.
        rewrite trace_after_call, <- app_assoc. done.
      * rewrite Hst. subst w2. rewrite stored_set_stored. subst w1.
        by rewrite stored_after_call.
    + destruct (IH w1 Hc1) as (Hr & Htr & Hst).
      split_and!; [done | |].
      * rewrite Htr. subst w1. rewrite trace_after_call, <- app_assoc. done.
      * rewrite Hst. subst w1. rewrite stored_after_call. cbn [foldl].
        by rewrite delete_id.
Qed.

End DeleteRange.

Section DeleteFacts.

Lemma lookup_foldl_delete {A} (key_of : string → ObjectKey) (names : list string)
    (m : gmap ObjectKey A) (k : ObjectKey) :
  foldl (fun m n => delete (key_of n) m) m names !! k =
    if decide (k ∈ key_of <$> names) then None else m !! k.
Proof.
  revert m. induction names as [|n names IH]; intros m; cbn [foldl fmap list_fmap].
  - rewrite decide_False; [done | apply not_elem_of_nil].
  - rewrite IH. destruct (decide (k = key_of n)) as [->|Hne].
    + rewrite lookup_delete_eq, (decide_True (P := _ ∈ _ :: _)) by (by left).
      by destruct (decide _).
    + rewrite lookup_delete_ne by done.
      destruct (decide (k ∈ key_of <$> names)) as [Hin|Hnin].
      * rewrite decide_True; [done | by right].
      * rewrite decide_False; [done|]. by intros [?|?]%elem_of_cons.
Qed.

Lemma foldl_delete_absent {A} (key_of : string → ObjectKey) (names : list string)
    (m : gmap ObjectKey A) :
  (∀ n, n ∈ names → m !! key_of n = None) →
  foldl (fun m n => delete (key_of n) m) m names = m.
Proof.
  intros Habs. apply map_eq. intros k. rewrite lookup_foldl_delete.
  case_decide as Hin; [|done].
  apply list_elem_of_fmap in Hin as (n & -> & Hn). by rewrite Habs.
Qed.

End DeleteFacts.

Section Deletes.

Context (Prefix : string).

(** C5. Deleting is idempotent with respect to absence.  Whatever the
    store holds, as long as its Delete calls fail with NotFound only,
    [deleteKubeAPIServerSecrets] and [deleteDeployments] return nil: a
    Delete is issued for every name in order, whether or not an earlier
    one met NotFound, none of the named objects is left, and no other
    object is touched.  When all the named objects are absent the
    operation succeeds and the store stays as it was. *)
Theorem deletes_ignore_absence o w :
  let ns := namespace o in
  let secretKeys : list ObjectKey :=
    (fun n => (ns, n)) <$>
      [ KubeApiServerSecretNameAdmissionKubeconfig Prefix;
        KubeApiServerSecretNameAuditWebhookConfig;
        KubeApiServerSecretNameBasicAuth Prefix;
        KubeApiServerSecretNameEncryptionConfig Prefix ] in
  let deploymentKeys : list ObjectKey :=
    (fun n => (ns, n)) <$>
      [ KubeAPIServerDeploymentNameAPIServer Prefix;
        KubeAPIServerDeploymentNameControllerManager Prefix ] in
  let rs := deleteKubeAPIServerSecrets Prefix o w in
  let rd := deleteDeployments Prefix o w in
  (calm 4 w →
     rs.1 = None
     ∧ trace rs.2 = trace w ++ (EvDelete KSecret <$> secretKeys)
     ∧ (∀ k, k ∈ secretKeys → secrets rs.2 !! k = None)
     ∧ (∀ k, k ∉ secretKeys → secrets rs.2 !! k = secrets w !! k)
     ∧ ((∀ k, k ∈ secretKeys → secrets w !! k = None) → secrets rs.2 = secrets w))
  ∧ (calm 2 w →
       rd.1 = None
       ∧ trace rd.2 = trace w ++ (EvDelete KDeployment <$> deploymentKeys)
       ∧ (∀ k, k ∈ deploymentKeys → deployments rd.2 !! k = None)
       ∧ (∀ k, k ∉ deploymentKeys → deployments rd.2 !! k = deployments w !! k)
       ∧ ((∀ k, k ∈ deploymentKeys → deployments w !! k = None) →
            deployments rd.2 = deployments w)).
Proof.
  intros ns secretKeys deploymentKeys rs rd. split.
  - intros Hc.
    destruct (@delete_range_calm Secret Secret_Object (emptySecret o) (fun n => (ns, n))
                (fun _ => eq_refl) (fun _ _ => eq_refl) (fun _ _ => eq_refl)
                (fun _ _ => eq_refl) (fun _ _ => eq_refl)
                [ KubeApiServerSecretNameAdmissionKubeconfig Prefix;
                  KubeApiServerSecretNameAuditWebhookConfig;
                  KubeApiServerSecretNameBasicAuth Prefix;
                  KubeApiServerSecretNameEncryptionConfig Prefix ] w Hc)
      as (Hr & Htr & Hst).
    change (stored ?x) with (secrets x) in Hst.
    fold (deleteKubeAPIServerSecrets Prefix o) in Hr, Htr, Hst. fold rs in Hr, Htr, Hst.
    split_and!; [done | | | |].
    + rewrite Htr. f_equal.
    + intros k Hk. rewrite Hst, lookup_foldl_delete. by rewrite decide_True.
    + intros k Hk. rewrite Hst, lookup_foldl_delete. by rewrite decide_False.
    + intros Habs. rewrite Hst. apply foldl_delete_absent.
      intros n Hn. apply Habs. by apply (list_elem_of_fmap_2 (fun n => (ns, n))).
  - intros Hc.
    destruct (@delete_range_calm Deployment Deployment_Object (emptyDeployment o) (fun n => (ns, n))
                (fun _ => eq_refl) (fun _ _ => eq_refl) (fun _ _ => eq_refl)
                (fun _ _ => eq_refl) (fun _ _ => eq_refl)
                [ KubeAPIServerDeploymentNameAPIServer Prefix;
                  KubeAPIServerDeploymentNameControllerManager Prefix ] w Hc)
      as (Hr & Htr & Hst).
    change (stored ?x) with (deployments x) in Hst.
    fold (deleteDeployments Prefix o) in Hr, Htr, Hst. fold rd in Hr, Htr, Hst.
    split_and!; [done | | | |].
    + rewrite Htr. f_equal.
    + intros k Hk. rewrite Hst, lookup_foldl_delete. by rewrite decide_True.
    + intros k Hk. rewrite Hst, lookup_foldl_delete. by rewrite decide_False.
    + intros Habs. rewrite Hst. apply foldl_delete_absent.
      intros n Hn. apply Habs. by apply (list_elem_of_fmap_2 (fun n => (ns, n))).
Qed.

End Deletes.

(** Deleting in an empty cluster: four and two NotFound answers, success,
    nothing changed. *)
Lemma deletes_ignore_absence_witness :
  ((deleteKubeAPIServerSecrets Sample.Prefix Sample.o Sample.fresh).1 = None
   ∧ secrets (deleteKubeAPIServerSecrets Sample.Prefix Sample.o Sample.fresh).2
       = secrets Sample.fresh)
  ∧ (deleteDeployments Sample.Prefix Sample.o Sample.fresh).1 = None.
Proof.
  destruct (deletes_ignore_absence Sample.Prefix Sample.o Sample.fresh) as [Hs Hd].
  assert (Hc4 : calm 4 Sample.fresh) by (unfold calm; cbn; constructor).
  assert (Hc2 : calm 2 Sample.fresh) by (unfold calm; cbn; constructor).
  destruct (Hs Hc4) as (Hr & _ & _ & _ & Hsame).
  destruct (Hd Hc2) as (Hr' & _).
  split; [split; [exact Hr|] | exact Hr'].
  apply Hsame. intros k _. apply lookup_empty.
Defined.

(** ** The task graph engine *)

Section FlowFacts.
Import flow.

(** In the layers computed from [pending], every dependency of a task
    was placed before the call or sits in an earlier layer. *)
Lemma layers_sound fuel pending placed ls :
  layers fuel pending placed = inr ls →
  ∀ i lvl t d, ls !! i = Some lvl → t ∈ lvl → d ∈ Dependencies t →
    d ∈ placed ∨ ∃ j lvl', j < i ∧ ls !! j = Some lvl' ∧ d ∈ names lvl'.
Proof.
  revert pending placed ls. induction fuel as [|fuel IH]; intros pending placed ls.
  - destruct pending as [|first pending]; cbn; [|done].
    intros [= <-] i lvl t d Hi. by rewrite lookup_nil in Hi.
  - destruct pending as [|first pending].
    { cbn. intros [= <-] i lvl t d Hi. by rewrite lookup_nil in Hi. }
    cbn [layers].
    destruct (filter (ready placed) (first :: pending)) as [|t0 level'] eqn:Hlevel;
      [done|].
    destruct (layers fuel _ _) as [e|ls'] eqn:Hrest; [done|].
    intros [= <-] i lvl t d Hi Ht Hd.
    destruct i as [|i]; cbn in Hi.
    + injection Hi as <-. left.
      rewrite <- Hlevel in Ht. apply list_elem_of_filter in Ht as [Hready _].
      by apply Hready.
    + destruct (IH _ _ _ Hrest i lvl t d Hi Ht Hd) as [Hin|(j & lvl' & Hj & Hl & Hin)].
      * apply elem_of_union in Hin as [Hin|Hin]; [by left|].
        right. exists 0, (t0 :: level'). split; [lia|]. split; [done|].
        by apply elem_of_list_to_set in Hin.
      * right. exists (S j), lvl'. split; [lia|]. done.
Qed.

(** For every compiled plan: a task sits at a level strictly after the
    level of each of its dependencies. *)
Lemma Compile_levels g p :
  Compile g = inr p →
  ∀ i lvl t d, levels p !! i = Some lvl → t ∈ lvl → d ∈ Dependencies t →
    ∃ j, level_of p d = Some j ∧ j < i.
Proof.
  unfold Compile. destruct (check_dependencies _ _); [done|].
  destruct (layers _ _ _) as [e|ls] eqn:Hls; [done|].
  intros [= <-] i lvl t d Hi Ht Hd. cbn [levels] in *.
  destruct (layers_sound _ _ _ _ Hls i lvl t d Hi Ht Hd) as [Hin|(j & lvl' & Hj & Hl & Hin)].
  { by apply not_elem_of_empty in Hin. }
  unfold level_of. cbn [levels].
  destruct (list_find (fun lvl => d ∈ names lvl) ls) as [[j0 lvl0]|] eqn:Hfind.
  - exists j0. split; [done|].
    apply list_find_Some in Hfind as (_ & _ & Hmin).
    destruct (decide (j0 ≤ j)) as [|Hgt]; [lia|]. exfalso.
    apply (Hmin j lvl' Hl); [lia | done].
  - exfalso. apply list_find_None in Hfind.
    apply list_elem_of_lookup_2 in Hl.
    by eapply Forall_forall in Hfind.
Qed.

End FlowFacts.

Section DeletionGraph.
Import flow.

Context (DeleteKubeAPIServerService DeleteETCD DeleteBackupBucket DeleteNamespace
          : operation → M (option error)).

Local Abbreviation graph o :=
  (deletionTasks DeleteKubeAPIServerService DeleteETCD DeleteBackupBucket DeleteNamespace o).
Local Abbreviation plan o :=
  (deletionPlan DeleteKubeAPIServerService DeleteETCD DeleteBackupBucket DeleteNamespace o).
Local Abbreviation serviceTask o := (deleteKubeAPIServerServiceTask DeleteKubeAPIServerService o).
Local Abbreviation etcdTask o := (deleteETCDTask DeleteETCD o).
Local Abbreviation bucketTask o := (deleteBackupBucketTask DeleteETCD DeleteBackupBucket o).
Local Abbreviation namespaceTask o :=
  (deleteNamespaceTask DeleteKubeAPIServerService DeleteETCD DeleteBackupBucket
     DeleteNamespace o).

Lemma deletionGraph_eq o :
  deletionGraph DeleteKubeAPIServerService DeleteETCD DeleteBackupBucket DeleteNamespace o
    = inr (graph o).
Proof. reflexivity. Qed.

Lemma deletion_Compile o : Compile (graph o) = inr (plan o).
Proof. vm_compute. reflexivity. Qed.

Lemma deletion_depends_rank o a b : depends (graph o) a b → rank b < rank a.
Proof.
  intros (t & Ht & <- & Hb). cbn [tasks deletionTasks] in Ht.
  repeat (apply elem_of_cons in Ht as [->|Ht]);
    try (by apply elem_of_nil in Ht);
    cbn [Dependencies deleteKubeAPIServerServiceTask deleteETCDTask
         deleteBackupBucketTask deleteNamespaceTask] in Hb;
    unfold NewTaskIDs in Hb; set_unfold in Hb.
  - done.
  - done.
  - destruct Hb as [->|[]]. vm_compute. lia.
  - destruct Hb as [->|[->|[->|[]]]]; vm_compute; lia.
Qed.

Lemma deletion_acyclic o : acyclic (graph o).
Proof.
  intros a Hcycle.
  assert (Hrank : ∀ x y, tc (depends (graph o)) x y → rank y < rank x).
  { intros x y Htc. induction Htc as [x y Hd|x y z Hd _ IH].
    - by eapply deletion_depends_rank.
    - apply deletion_depends_rank in Hd. lia. }
  specialize (Hrank a a Hcycle). lia.
Qed.

(** C6. The task graph of the deletion workflow is built without a name
    clash, is acyclic, and compiles.  In the plan every task sits at a
    level strictly after the levels of all its dependencies: the service
    and the etcd task at level 0, the backup-bucket task at level 1 after
    the etcd task, the namespace task at level 2 after the other three. *)
Theorem deletion_graph_compiles o :
  deletionGraph DeleteKubeAPIServerService DeleteETCD DeleteBackupBucket DeleteNamespace o
    = inr (graph o)
  ∧ acyclic (graph o)
  ∧ Compile (graph o) = inr (plan o)
  ∧ (∀ i lvl t d, levels (plan o) !! i = Some lvl → t ∈ lvl → d ∈ Dependencies t →
       ∃ j, level_of (plan o) d = Some j ∧ j < i)
  ∧ (∀ t, t ∈ tasks (graph o) →
       ∃ i lvl, levels (plan o) !! i = Some lvl ∧ t ∈ lvl
                ∧ level_of (plan o) (Name t) = Some i)
  ∧ level_of (plan o) (Name (serviceTask o)) = Some 0
  ∧ level_of (plan o) (Name (etcdTask o)) = Some 0
  ∧ level_of (plan o) (Name (bucketTask o)) = Some 1
  ∧ level_of (plan o) (Name (namespaceTask o)) = Some 2.
Proof.
  split_and!.
  - apply deletionGraph_eq.
  - apply deletion_acyclic.
  - apply deletion_Compile.
  - apply Compile_levels with (g := graph o). apply deletion_Compile.
  - intros t Ht. cbn [tasks deletionTasks] in Ht.
    repeat (apply elem_of_cons in Ht as [->|Ht]); try (by apply elem_of_nil in Ht).
    + exists 0, [serviceTask o; etcdTask o]. split_and!; [done | by left | by vm_compute].
    + exists 0, [serviceTask o; etcdTask o].
      split_and!; [done | by right; left | by vm_compute].
    + exists 1, [bucketTask o]. split_and!; [done | by left | by vm_compute].
    + exists 2, [namespaceTask o]. split_and!; [done | by left | by vm_compute].
  - by vm_compute.
  - by vm_compute.
  - by vm_compute.
  - by vm_compute.
Qed.

End DeletionGraph.

(** ** The deletion workflow *)

Ltac run_flow :=
  cbv [flow.Run flow.Execute flow.run_levels flow.run_level flow.run_task flow.report
       deletionOpts flow.NewImmediateProgressReporter flow.ProgressReporter_
       mbind M_bind ret mret M_ret modify
       flow.levels deletionPlan flow.skip flow.Fn flow.body flow.ofFn flow.SkipIf
       deleteKubeAPIServerServiceTask deleteETCDTask deleteBackupBucketTask
       deleteNamespaceTask flow.failure flow.record flow.outcomes flow.skip_level foldl
       flow.Name negb mjoin list_join app List.length fst snd].

Ltac outcome_cases H :=
  repeat (apply elem_of_cons in H as [H|H]);
  try (by apply elem_of_nil in H); simplify_eq.

(** C7. The skip predicate of the namespace task is the negation of
    [handleNamespace].  With the flag false the body [DeleteNamespace] is
    never invoked: the run and its result are the same whatever that body
    is, the task is never recorded as failed (it is skipped, or not run
    when an earlier task failed), and when the three tasks before it
    succeed it is recorded as skipped and the run succeeds.  With the flag
    true the body is invoked once those three tasks have succeeded, and
    its result decides the outcome. *)
Theorem deletion_namespace_skip
    (DeleteKubeAPIServerService DeleteETCD DeleteBackupBucket DeleteNamespace
       DeleteNamespace' : operation → M (option error)) o w :
  let task := deleteNamespaceTask DeleteKubeAPIServerService DeleteETCD DeleteBackupBucket
                DeleteNamespace o in
  let run := flow.Execute
               (deletionPlan DeleteKubeAPIServerService DeleteETCD DeleteBackupBucket
                  DeleteNamespace o) (deletionOpts o) w in
  let res := Delete DeleteKubeAPIServerService DeleteETCD DeleteBackupBucket
               DeleteNamespace o w in
  let reached := reach_namespace DeleteKubeAPIServerService DeleteETCD DeleteBackupBucket
                   o w in
  flow.skip (flow.Fn task) = negb (handleNamespace o)
  ∧ (handleNamespace o = false →
       (∀ w', flow.run_task task w' = (flow.Skipped, w'))
       ∧ flow.Execute
           (deletionPlan DeleteKubeAPIServerService DeleteETCD DeleteBackupBucket
              DeleteNamespace' o) (deletionOpts o) w = run
       ∧ Delete DeleteKubeAPIServerService DeleteETCD DeleteBackupBucket
           DeleteNamespace' o w = res
       ∧ (∀ out, (flow.Name task, out) ∈ flow.outcomes run.1 →
            out = flow.Skipped ∨ out = flow.NotRun)
       ∧ (∀ w3, reached = Some w3 →
            (flow.Name task, flow.Skipped) ∈ flow.outcomes run.1
            ∧ flow.failure run.1 = None
            ∧ res = (None, emit (EvProgress 4 4) w3)))
  ∧ (handleNamespace o = true →
       ∀ w3, reached = Some w3 →
         let r4 := DeleteNamespace o w3 in
         (flow.Name task,
          match r4.1 with None => flow.Succeeded | Some e => flow.Failed e end)
           ∈ flow.outcomes run.1
         ∧ res = (match r4.1 with
                  | None => None
                  | Some e => Some (ErrFlow (flow.Name task) e)
                  end, emit (EvProgress 4 4) r4.2)).
Proof.
  intros task run res reached. subst task run res reached.
  unfold Delete. rewrite !deletionGraph_eq, !deletion_Compile.
  unfold reach_namespace. split_and!.
  - reflexivity.
  - intros Hflag. split_and!.
    + intros w'. run_flow. by rewrite Hflag.
    + run_flow. by rewrite Hflag.
    + run_flow. by rewrite Hflag.
    + intros out. run_flow. rewrite Hflag.
      destruct (DeleteKubeAPIServerService o w) as [[e1|] w1];
        destruct (DeleteETCD o _) as [[e2|] w2];
        try destruct (DeleteBackupBucket o _) as [[e3|] w3];
        intros Hin; outcome_cases Hin; subst; auto.
    + intros w3. run_flow. rewrite Hflag.
      destruct (DeleteKubeAPIServerService o w) as [[e1|] w1];
        destruct (DeleteETCD o _) as [[e2|] w2]; try done.
      destruct (DeleteBackupBucket o _) as [[e3|] w3']; [done|].
      intros [= <-]. split_and!; [|done|done].
      do 3 apply list_elem_of_further. apply list_elem_of_here.
  - intros Hflag w3. run_flow. rewrite Hflag.
    destruct (DeleteKubeAPIServerService o w) as [[e1|] w1];
      destruct (DeleteETCD o _) as [[e2|] w2]; try done.
    destruct (DeleteBackupBucket o _) as [[e3|] w3']; [done|].
    intros [= <-].
    destruct (DeleteNamespace o _) as [[e4|] w4]; (split; [|done]);
      do 3 apply list_elem_of_further; apply list_elem_of_here.
Qed.

(** Three tasks that succeed and a namespace body that would fail: with
    the flag false the run succeeds, with the flag true the failure of the
    body is the result. *)
Lemma deletion_namespace_skip_witness :
  let w3 := emit (EvProgress 3 4) (emit (EvProgress 2 4) (emit (EvProgress 1 4) Sample.fresh)) in
  Delete Sample.done_body Sample.done_body Sample.done_body Sample.broken_body
    Sample.o Sample.fresh = (None, emit (EvProgress 4 4) w3)
  ∧ Delete Sample.done_body Sample.done_body Sample.done_body Sample.broken_body
      Sample.o_handle Sample.fresh
    = (Some (ErrFlow "Deleting namespace for virtual-garden deployment in hosting cluster"
               ErrRandom),
       emit (EvProgress 4 4) w3).
Proof.
  intros w3. split.
  - destruct (deletion_namespace_skip Sample.done_body Sample.done_body Sample.done_body
                Sample.broken_body Sample.done_body Sample.o Sample.fresh)
      as (_ & Hskip & _).
    destruct (Hskip eq_refl) as (_ & _ & _ & _ & Hreach).
    destruct (Hreach w3 eq_refl) as (_ & _ & Hres). exact Hres.
  - destruct (deletion_namespace_skip Sample.done_body Sample.done_body Sample.done_body
                Sample.broken_body Sample.done_body Sample.o_handle Sample.fresh)
      as (_ & _ & Hrun).
    destruct (Hrun eq_refl w3 eq_refl) as (_ & Hres). exact Hres.
Defined.

(** * Further properties *)

(** ** Create-or-update of a secret *)

Section ApplySecret.

Lemma apply_secret_eq (secret : Secret) (g : Secret → Secret) w :
  (∀ s, SecretMeta (g s) = SecretMeta s) →
  let k := client.ObjectKeyFromObject secret in
  let w1 := after_call (EvGet KSecret k) w in
  apply_secret secret g w =
    match fault_now w with
    | Some reason => (Some (ErrStore reason), w1)
    | None =>
        match secrets w !! k with
        | None =>
            match fault_now w1 with
            | Some reason => (Some (ErrStore reason), after_call (EvCreate KSecret k) w1)
            | None =>
                (None, set_secrets (fun m => <[k := Data (g secret)]> m)
                         (after_call (EvCreate KSecret k) w1))
            end
        | Some d =>
            if decide (fetched k d = g (fetched k d)) then (None, w1)
            else
              match fault_now w1 with
              | Some reason => (Some (ErrStore reason), after_call (EvUpdate KSecret k) w1)
              | None =>
                  (None, set_secrets (fun m => <[k := Data (g (fetched k d))]> m)
                           (after_call (EvUpdate KSecret k) w1))
              end
        end
    end.
Proof.
  intros Hmeta k w1. unfold apply_secret. rewrite bind_eq.
  rewrite (CreateOrUpdate_secret_eq secret g w Hmeta). fold k w1.
  destruct (fault_now w); [reflexivity|].
  destruct (secrets w !! k) as [d|].
  - cbn zeta. fold (fetched k d). destruct (decide (_ = g _)); [reflexivity|].
    by destruct (fault_now w1).
  - by destruct (fault_now w1).
Qed.

(** What a create-or-update of a secret leaves behind, whatever the
    store's failures. *)
Lemma apply_secret_post (secret : Secret) (g : Secret → Secret) w :
  (∀ s, SecretMeta (g s) = SecretMeta s) →
  let k := client.ObjectKeyFromObject secret in
  let base := match secrets w !! k with Some d => fetched k d | None => secret end in
  let res := apply_secret secret g w in
  entropy res.2 = entropy w
  ∧ deployments res.2 = deployments w
  ∧ (∃ evs, trace res.2 = trace w ++ evs ∧ no_draw evs)
  ∧ (∀ k', k' ≠ k → secrets res.2 !! k' = secrets w !! k')
  ∧ (secrets res.2 !! k = secrets w !! k ∨ secrets res.2 !! k = Some (Data (g base)))
  ∧ (res.1 = None → secrets res.2 !! k = Some (Data (g base)))
  ∧ (∀ d, secrets w !! k = Some d → g (fetched k d) = fetched k d →
       secrets res.2 = secrets w ∧ trace res.2 = trace w ++ [EvGet KSecret k])
  ∧ res.1 ≠ Some ErrNotFound ∧ res.1 ≠ Some ErrAlreadyExists ∧ res.1 ≠ Some ErrRandom.
Proof.
  intros Hmeta k base res. subst res base. rewrite (apply_secret_eq _ _ _ Hmeta). fold k.
  set (w1 := after_call (EvGet KSecret k) w).
  destruct (fault_now w) as [reason|].
  { cbn [fst snd]. subst w1. autorewrite with world. split_and!; try done.
    - exists [EvGet KSecret k]. split; [done|]. by repeat constructor.
    - by left. }
  destruct (secrets w !! k) as [d|] eqn:Hk.
  - destruct (decide (fetched k d = g (fetched k d))) as [Heq|Hne].
    { cbn [fst snd]. subst w1. autorewrite with world. split_and!; try done.
      - exists [EvGet KSecret k]. split; [done|]. by repeat constructor.
      - by left.
      - intros _. rewrite Hk, <- Heq. done. }
    destruct (fault_now w1) as [reason|]; cbn [fst snd]; subst w1;
      autorewrite with world.
    { split_and!; try done.
      - exists [EvGet KSecret k; EvUpdate KSecret k]. rewrite <- app_assoc.
        split; [done|]. by repeat constructor.
      - by left.
      - intros d' [= <-] Hfix. by rewrite Hfix in Hne. }
    split_and!; try done.
    + exists [EvGet KSecret k; EvUpdate KSecret k]. rewrite <- app_assoc.
      split; [done|]. by repeat constructor.
    + intros k' Hk'. by rewrite lookup_insert_ne.
    + right. by rewrite lookup_insert_eq.
    + intros _. by rewrite lookup_insert_eq.
    + intros d' [= <-] Hfix. by rewrite Hfix in Hne.
  - destruct (fault_now w1) as [reason|]; cbn [fst snd]; subst w1;
      autorewrite with world.
    { split_and!; try done.
      - exists [EvGet KSecret k; EvCreate KSecret k]. rewrite <- app_assoc.
        split; [done|]. by repeat constructor.
      - by left. }
    split_and!; try done.
    + exists [EvGet KSecret k; EvCreate KSecret k]. rewrite <- app_assoc.
      split; [done|]. by repeat constructor.
    + intros k' Hk'. by rewrite lookup_insert_ne.
    + right. by rewrite lookup_insert_eq.
    + intros _. by rewrite lookup_insert_eq.
Qed.

End ApplySecret.

(** ** The names of the objects *)

Section Names.

Lemma list_ascii_of_string_app s1 s2 :
  String.list_ascii_of_string (s1 +:+ s2) = String.list_ascii_of_string s1 ++ String.list_ascii_of_string s2.
Proof.
  induction s1 as [|a s1 IH]; [done|].
  change (String a s1 +:+ s2) with (String a (s1 +:+ s2)).
  cbn [String.list_ascii_of_string app]. by rewrite IH.
Qed.

(** A string with a prefix put before [a] ends in [a]. *)
Lemma append_suffix p a b :
  p +:+ a = b → String.list_ascii_of_string a `suffix_of` String.list_ascii_of_string b.
Proof. intros <-. rewrite list_ascii_of_string_app. by eexists. Qed.

Lemma append_neq p a b :
  ¬ (String.list_ascii_of_string a `suffix_of` String.list_ascii_of_string b) → p +:+ a ≠ b.
Proof. intros Hn Heq. by apply Hn, (append_suffix p). Qed.

Lemma names_NoDup (Prefix : string) :
  NoDup [ KubeApiServerSecretNameAdmissionKubeconfig Prefix;
          KubeApiServerSecretNameAuditWebhookConfig;
          KubeApiServerSecretNameBasicAuth Prefix;
          KubeApiServerSecretNameEncryptionConfig Prefix ]
  ∧ NoDup [ KubeAPIServerDeploymentNameAPIServer Prefix;
            KubeAPIServerDeploymentNameControllerManager Prefix ].
Proof.
  unfold KubeApiServerSecretNameAdmissionKubeconfig, KubeApiServerSecretNameAuditWebhookConfig,
    KubeApiServerSecretNameBasicAuth, KubeApiServerSecretNameEncryptionConfig,
    KubeAPIServerDeploymentNameAPIServer, KubeAPIServerDeploymentNameControllerManager.
  assert (Hinj : ∀ a b, a ≠ b → Prefix +:+ a ≠ Prefix +:+ b).
  { intros a b Hne Heq. by apply Hne, (inj (String.app Prefix)). }
  assert (Hfix : ∀ a b,
    bool_decide (String.list_ascii_of_string a `suffix_of` String.list_ascii_of_string b) = false →
    Prefix +:+ a ≠ b).
  { intros a b Hb. apply append_neq. by apply bool_decide_eq_false in Hb. }
  split.
  - repeat (apply NoDup_cons; split); [| | | |apply NoDup_nil_2];
      rewrite ?elem_of_cons, ?elem_of_nil.
    + intros [H|[H|[H|[]]]].
      * revert H. apply Hfix. by vm_compute.
      * revert H. by apply Hinj.
      * revert H. by apply Hinj.
    + intros [H|[H|[]]]; symmetry in H; revert H; apply Hfix; by vm_compute.
    + intros [H|[]]. revert H. by apply Hinj.
    + intros [].
  - repeat (apply NoDup_cons; split); [| |apply NoDup_nil_2];
      rewrite ?elem_of_cons, ?elem_of_nil.
    + intros [H|[]]. revert H. by apply Hinj.
    + intros [].
Qed.

(** Whatever [Prefix] is, the four secrets of the kube-apiserver have
    four different names, and so have the two deployments: no object of
    one step is the object of another. *)
Theorem object_names_distinct (Prefix : string) :
  NoDup [ KubeApiServerSecretNameAdmissionKubeconfig Prefix;
          KubeApiServerSecretNameAuditWebhookConfig;
          KubeApiServerSecretNameBasicAuth Prefix;
          KubeApiServerSecretNameEncryptionConfig Prefix ]
  ∧ NoDup [ KubeAPIServerDeploymentNameAPIServer Prefix;
            KubeAPIServerDeploymentNameControllerManager Prefix ].
Proof. apply names_NoDup. Qed.

End Names.

(** ** The generate-once secrets, further *)

Section GenerateOnceMore.

Context (Prefix : string).

Lemma put_fixed k key v d :
  data_lookup d key = Some v → put key v (fetched k d) = fetched k d.
Proof.
  destruct d as [m|]; [|done]. cbn. intros Hv.
  unfold put, fetched, assign_Data, ensure_Data, with_Data. cbn.
  by rewrite insert_id.
Qed.

Lemma put_changes k key v d :
  data_lookup d key = None → fetched k d ≠ put key v (fetched k d).
Proof.
  intros Hnone Heq. assert (Hd : data_lookup (Data (fetched k d)) key = None) by done.
  rewrite Heq, data_lookup_put in Hd. done.
Qed.

Lemma generate_once_read_only o name key encode w d v :
  secrets w !! (namespace o, name) = Some d →
  data_lookup d key = Some v →
  read_only_run (namespace o, name) w (generate_once o name key encode w).
Proof.
  intros Hk Hv. rewrite generate_once_eq. cbn zeta. rewrite Hk.
  set (k := (namespace o, name)) in *. set (w1 := after_call (EvGet KSecret k) w).
  destruct (fault_now w) as [reason|].
  { unfold read_only_run. cbn [fst snd]. subst w1. autorewrite with world.
    split_and!; try done; [by left | right; by eexists]. }
  rewrite upsert_eq.
  replace (client.ObjectKeyFromObject _) with k by reflexivity. cbn zeta.
  destruct (fault_now w1) as [reason|].
  { unfold read_only_run. cbn [fst snd]. subst w1. autorewrite with world.
    rewrite <- app_assoc. split_and!; try done; [by right | right; by eexists]. }
  replace (secrets w1) with (secrets w) by reflexivity. rewrite Hk.
  assert (Hidx : data_index d key = v) by (by rewrite data_index_lookup, Hv).
  rewrite Hidx. fold (fetched k d).
  rewrite decide_True by (by rewrite put_fixed).
  unfold read_only_run. cbn [fst snd]. subst w1. autorewrite with world.
  rewrite <- app_assoc. split_and!; try done; [by right | by left].
Qed.

Lemma generate_once_blank o name key encode w d :
  secrets w !! (namespace o, name) = Some d →
  data_lookup d key = None →
  calm 3 w →
  blank_run (namespace o, name) key d w (generate_once o name key encode w).
Proof.
  intros Hk Hnone Hc. rewrite generate_once_eq. cbn zeta. rewrite Hk, (calm_now _ _ Hc).
  set (k := (namespace o, name)) in *. set (w1 := after_call (EvGet KSecret k) w).
  assert (Hc1 : calm 2 w1) by (by eapply calm_next).
  rewrite upsert_eq.
  replace (client.ObjectKeyFromObject _) with k by reflexivity. cbn zeta.
  rewrite (calm_now _ _ Hc1).
  replace (secrets w1) with (secrets w) by reflexivity. rewrite Hk.
  assert (Hidx : data_index d key = []) by (by rewrite data_index_lookup, Hnone).
  rewrite Hidx. fold (fetched k d).
  rewrite decide_False by (by apply put_changes).
  assert (Hc2 : calm 1 (after_call (EvGet KSecret k) w1)) by (by eapply calm_next).
  rewrite (calm_now _ _ Hc2).
  unfold blank_run. cbn [fst snd]. subst w1. autorewrite with world.
  rewrite <- !app_assoc, put_Data. done.
Qed.

Lemma generate_once_starved o name key encode w :
  secrets w !! (namespace o, name) = None →
  fault_now w = None →
  List.length (entropy w) < 32 →
  starved_run (namespace o, name) w (generate_once o name key encode w).
Proof.
  intros Hk Hf Hlen. rewrite generate_once_eq. cbn zeta. rewrite Hk, Hf, decide_False by lia.
  unfold starved_run. cbn [fst snd]. autorewrite with world.
  rewrite <- !app_assoc. done.
Qed.

End GenerateOnceMore.

Section GenerateOnceEdges.

Context (Prefix : string).

(** When the basic-auth secret exists and has a "basic_auth.csv" entry,
    [deployKubeApiServerSecretBasicAuth] only reads: the store and the
    entropy stay as they were, one or two fetches of the secret are all it
    issues (no create, no update), and it returns nil or the store's
    failure.  The same holds for the encryption-config secret and its
    "encryption-config.yaml" entry. *)
Theorem generate_once_secrets_read_only o w :
  let kb := (namespace o, KubeApiServerSecretNameBasicAuth Prefix) in
  let ke := (namespace o, KubeApiServerSecretNameEncryptionConfig Prefix) in
  (∀ d v, secrets w !! kb = Some d → data_lookup d basicAuthKey = Some v →
     read_only_run kb w (deployKubeApiServerSecretBasicAuth Prefix o w))
  ∧ (∀ d v, secrets w !! ke = Some d → data_lookup d encryptionConfigKey = Some v →
       read_only_run ke w (deployKubeApiServerSecretEncryptionConfig Prefix o w)).
Proof.
  intros kb ke. split; intros d v Hk Hv.
  - rewrite deployKubeApiServerSecretBasicAuth_generate_once.
    by eapply generate_once_read_only.
  - rewrite deployKubeApiServerSecretEncryptionConfig_generate_once.
    by eapply generate_once_read_only.
Qed.

(** When the secret exists but has no entry under its key (its data may
    even be nil), no password or key is generated: with a store that
    answers, the operation succeeds and stores the empty value under the
    key, leaving the other entries and the entropy as they were. *)
Theorem generate_once_secrets_blank_entry o w :
  let kb := (namespace o, KubeApiServerSecretNameBasicAuth Prefix) in
  let ke := (namespace o, KubeApiServerSecretNameEncryptionConfig Prefix) in
  (∀ d, secrets w !! kb = Some d → data_lookup d basicAuthKey = None → calm 3 w →
     blank_run kb basicAuthKey d w (deployKubeApiServerSecretBasicAuth Prefix o w))
  ∧ (∀ d, secrets w !! ke = Some d → data_lookup d encryptionConfigKey = None → calm 3 w →
       blank_run ke encryptionConfigKey d w
         (deployKubeApiServerSecretEncryptionConfig Prefix o w)).
Proof.
  intros kb ke. split; intros d Hk Hv Hc.
  - rewrite deployKubeApiServerSecretBasicAuth_generate_once.
    by eapply generate_once_blank.
  - rewrite deployKubeApiServerSecretEncryptionConfig_generate_once.
    by eapply generate_once_blank.
Qed.

(** When the secret is absent and the random source cannot deliver 32
    bytes, the operation returns the failure of the random source and
    writes nothing: the secret is looked for once, the draw is asked for,
    and the store and the entropy stay as they were.
    [generateNewEncryptionConfig] itself then returns the error with an
    empty configuration. *)
Theorem generate_once_secrets_random_failure o w :
  let kb := (namespace o, KubeApiServerSecretNameBasicAuth Prefix) in
  let ke := (namespace o, KubeApiServerSecretNameEncryptionConfig Prefix) in
  fault_now w = None →
  List.length (entropy w) < 32 →
  (secrets w !! kb = None →
     starved_run kb w (deployKubeApiServerSecretBasicAuth Prefix o w))
  ∧ (secrets w !! ke = None →
       starved_run ke w (deployKubeApiServerSecretEncryptionConfig Prefix o w))
  ∧ generateNewEncryptionConfig o w = (([], Some ErrRandom), emit (EvRandom 32) w).
Proof.
  intros kb ke Hf Hlen. split_and!.
  - intros Hk. rewrite deployKubeApiServerSecretBasicAuth_generate_once.
    by apply generate_once_starved.
  - intros Hk. rewrite deployKubeApiServerSecretEncryptionConfig_generate_once.
    by apply generate_once_starved.
  - rewrite generateNewEncryptionConfig_eq, decide_False by lia. done.
Qed.

End GenerateOnceEdges.

(** Both secrets are there with their entries. *)
Lemma generate_once_secrets_read_only_witness :
  read_only_run ("garden", KubeApiServerSecretNameBasicAuth Sample.Prefix)
    (Sample.settled [])
    (deployKubeApiServerSecretBasicAuth Sample.Prefix Sample.o (Sample.settled [])).
Proof.
  destruct (generate_once_secrets_read_only Sample.Prefix Sample.o (Sample.settled []))
    as [Hb _].
  eapply Hb; vm_compute; reflexivity.
Defined.

(** The basic-auth secret is there with nil data. *)
Lemma generate_once_secrets_blank_entry_witness :
  blank_run ("garden", KubeApiServerSecretNameBasicAuth Sample.Prefix) basicAuthKey None
    Sample2.hollow
    (deployKubeApiServerSecretBasicAuth Sample.Prefix Sample.o Sample2.hollow).
Proof.
  destruct (generate_once_secrets_blank_entry Sample.Prefix Sample.o Sample2.hollow)
    as [Hb _].
  apply Hb; [vm_compute; reflexivity | reflexivity | unfold calm; cbn; constructor].
Defined.

(** Ten bytes of entropy are not enough. *)
Lemma generate_once_secrets_random_failure_witness :
  starved_run ("garden", KubeApiServerSecretNameBasicAuth Sample.Prefix) Sample2.starved
    (deployKubeApiServerSecretBasicAuth Sample.Prefix Sample.o Sample2.starved).
Proof.
  destruct (generate_once_secrets_random_failure Sample.Prefix Sample.o Sample2.starved)
    as (Hb & _); [reflexivity | cbn; lia |].
  apply Hb. vm_compute. reflexivity.
Defined.

(** ** The webhook secrets *)

Section WebhookSecrets.

Context (Prefix : string).
Context (validatingWebhookKubeconfig mutatingWebhookKubeconfig : list byte).

Lemma admission_put_meta v m s : SecretMeta (admission_put v m s) = SecretMeta s.
Proof. destruct s as [meta [d|]]; reflexivity. Qed.

Lemma admission_put_Data v m s :
  Data (admission_put v m s) =
    Some (<["mutating-webhook" := m]> (<["validating-webhook" := v]> (default ∅ (Data s)))).
Proof. destruct s as [meta [d|]]; reflexivity. Qed.

Lemma apply_secret_calm secret g w :
  (∀ s, SecretMeta (g s) = SecretMeta s) →
  calm 2 w → (apply_secret secret g w).1 = None.
Proof.
  intros Hmeta Hc. rewrite (apply_secret_eq _ _ _ Hmeta). cbn zeta.
  rewrite (calm_now _ _ Hc).
  set (k := client.ObjectKeyFromObject secret).
  assert (Hc1 : calm 1 (after_call (EvGet KSecret k) w)) by (by eapply calm_next).
  rewrite (calm_now _ _ Hc1).
  destruct (secrets w !! k) as [d|]; [|done]. by destruct (decide _).
Qed.

Lemma deployKubeApiServerSecretAdmissionKubeconfig_enabled o w :
  let controlplane := GardenerControlplane_ (imports o) in
  ValidatingWebhookEnabled controlplane || MutatingWebhookEnabled controlplane = true →
  deployKubeApiServerSecretAdmissionKubeconfig Prefix validatingWebhookKubeconfig
    mutatingWebhookKubeconfig o w
  = apply_secret (emptySecret o (KubeApiServerSecretNameAdmissionKubeconfig Prefix))
      (admission_put validatingWebhookKubeconfig mutatingWebhookKubeconfig) w.
Proof.
  intros controlplane Hen. unfold deployKubeApiServerSecretAdmissionKubeconfig.
  fold controlplane.
  destruct (ValidatingWebhookEnabled controlplane), (MutatingWebhookEnabled controlplane);
    try done.
Qed.

Lemma deployKubeApiServerSecretAuditWebhookConfig_configured o w :
  let config := Config (AuditWebhookConfig_ (imports o)) in
  config ≠ "" →
  deployKubeApiServerSecretAuditWebhookConfig o w
  = apply_secret (emptySecret o KubeApiServerSecretNameAuditWebhookConfig)
      (put "audit-webhook-config.yaml" (String.list_byte_of_string config)) w.
Proof.
  intros config Hne. unfold deployKubeApiServerSecretAuditWebhookConfig. fold config.
  destruct config as [|a s]; [done|]. reflexivity.
Qed.

Lemma admission_holds o w :
  let ka := (namespace o, KubeApiServerSecretNameAdmissionKubeconfig Prefix) in
  let ra := deployKubeApiServerSecretAdmissionKubeconfig Prefix validatingWebhookKubeconfig
              mutatingWebhookKubeconfig o w in
  ValidatingWebhookEnabled (GardenerControlplane_ (imports o))
  || MutatingWebhookEnabled (GardenerControlplane_ (imports o)) = true →
  ra.1 = None →
  holds_entries [ ("validating-webhook", validatingWebhookKubeconfig);
                  ("mutating-webhook", mutatingWebhookKubeconfig) ] ka w ra.
Proof.
  intros ka ra Hen. subst ra.
  rewrite (deployKubeApiServerSecretAdmissionKubeconfig_enabled o w Hen).
  intros Hok.
  destruct (apply_secret_post
              (emptySecret o (KubeApiServerSecretNameAdmissionKubeconfig Prefix)) _ w
              (admission_put_meta validatingWebhookKubeconfig mutatingWebhookKubeconfig))
    as (_ & _ & _ & _ & _ & Hdone & _).
  specialize (Hdone Hok). cbn zeta in Hdone.
  replace (client.ObjectKeyFromObject _) with ka in Hdone by reflexivity.
  rewrite admission_put_Data in Hdone.
  eexists. split; [exact Hdone|]. split.
  - intros key v Hin.
    apply elem_of_cons in Hin as [[= -> ->]|Hin].
    { rewrite lookup_insert_ne by done. by rewrite lookup_insert_eq. }
    apply elem_of_cons in Hin as [[= -> ->]|Hin]; [by rewrite lookup_insert_eq|].
    by apply elem_of_nil in Hin.
  - intros key Hkey. cbn in Hkey.
    rewrite !lookup_insert_ne by (intros <-; apply Hkey; set_solver).
    destruct (secrets w !! ka) as [[m|]|]; done.
Qed.

Lemma audit_holds o w :
  let config := Config (AuditWebhookConfig_ (imports o)) in
  let ku := (namespace o, KubeApiServerSecretNameAuditWebhookConfig) in
  let ru := deployKubeApiServerSecretAuditWebhookConfig o w in
  config ≠ "" →
  ru.1 = None →
  holds_entries [ ("audit-webhook-config.yaml", String.list_byte_of_string config) ] ku w ru.
Proof.
  intros config ku ru Hne. subst ru.
  rewrite (deployKubeApiServerSecretAuditWebhookConfig_configured o w Hne).
  intros Hok.
  destruct (apply_secret_post
              (emptySecret o KubeApiServerSecretNameAuditWebhookConfig) _ w
              (put_meta "audit-webhook-config.yaml" (String.list_byte_of_string config)))
    as (_ & _ & _ & _ & _ & Hdone & _).
  specialize (Hdone Hok). cbn zeta in Hdone.
  replace (client.ObjectKeyFromObject _) with ku in Hdone by reflexivity.
  rewrite put_Data in Hdone.
  eexists. split; [exact Hdone|]. split.
  - intros key v Hin.
    apply elem_of_cons in Hin as [[= -> ->]|Hin]; [by rewrite lookup_insert_eq|].
    by apply elem_of_nil in Hin.
  - intros key Hkey. cbn in Hkey.
    rewrite !lookup_insert_ne by (intros <-; apply Hkey; set_solver).
    destruct (secrets w !! ku) as [[m|]|]; done.
Qed.

(** With a webhook enabled, a successful
    [deployKubeApiServerSecretAdmissionKubeconfig] leaves the admission
    secret holding the two embedded kubeconfigs under "validating-webhook"
    and "mutating-webhook", and every other entry the secret had before;
    with an audit webhook config, a successful
    [deployKubeApiServerSecretAuditWebhookConfig] leaves the config under
    "audit-webhook-config.yaml" in the same way.  Both succeed when the
    store answers their two calls. *)
Theorem webhook_secrets_content o w :
  let controlplane := GardenerControlplane_ (imports o) in
  let config := Config (AuditWebhookConfig_ (imports o)) in
  let ka := (namespace o, KubeApiServerSecretNameAdmissionKubeconfig Prefix) in
  let ku := (namespace o, KubeApiServerSecretNameAuditWebhookConfig) in
  let ra := deployKubeApiServerSecretAdmissionKubeconfig Prefix validatingWebhookKubeconfig
              mutatingWebhookKubeconfig o w in
  let ru := deployKubeApiServerSecretAuditWebhookConfig o w in
  (ValidatingWebhookEnabled controlplane || MutatingWebhookEnabled controlplane = true →
     (calm 2 w → ra.1 = None)
     ∧ (ra.1 = None →
          holds_entries [ ("validating-webhook", validatingWebhookKubeconfig);
                          ("mutating-webhook", mutatingWebhookKubeconfig) ] ka w ra))
  ∧ (config ≠ "" →
       (calm 2 w → ru.1 = None)
       ∧ (ru.1 = None →
            holds_entries [ ("audit-webhook-config.yaml", String.list_byte_of_string config) ]
              ku w ru)).
Proof.
  intros controlplane config ka ku ra ru. split.
  - intros Hen. split; [|by apply admission_holds].
    subst ra. rewrite (deployKubeApiServerSecretAdmissionKubeconfig_enabled o w Hen).
    by apply apply_secret_calm, admission_put_meta.
  - intros Hne. split; [|by apply audit_holds].
    subst ru. rewrite (deployKubeApiServerSecretAuditWebhookConfig_configured o w Hne).
    by apply apply_secret_calm, put_meta.
Qed.

End WebhookSecrets.

(** The sample operation with a webhook and an audit webhook config, in an
    empty cluster. *)
Lemma webhook_secrets_content_witness :
  (deployKubeApiServerSecretAdmissionKubeconfig Sample.Prefix [x01] [x02]
     Sample3.o_webhooks Sample3.rich).1 = None
  ∧ (deployKubeApiServerSecretAuditWebhookConfig Sample3.o_webhooks Sample3.rich).1 = None.
Proof.
  destruct (webhook_secrets_content Sample.Prefix [x01] [x02] Sample3.o_webhooks
              Sample3.rich) as [Ha Hu].
  destruct (Ha eq_refl) as [Hcalm _]. destruct (Hu ltac:(done)) as [Hcalm' _].
  split; [apply Hcalm | apply Hcalm']; unfold calm; cbn; constructor.
Defined.

(** ** What the secrets' steps leave alone *)

Section SecretsFrame.

Context (Prefix : string).
Context (validatingWebhookKubeconfig mutatingWebhookKubeconfig : list byte).

Lemma step_frame_same k w e w' :
  secrets w' = secrets w → deployments w' = deployments w → entropy w' = entropy w →
  step_frame k w (e, w').
Proof.
  intros Hs Hd He. unfold step_frame. cbn [fst snd]. rewrite Hs, Hd, He.
  split_and!; [done | done |]. exists 0. split; [lia|]. done.
Qed.

Lemma step_frame_from k w w1 res :
  secrets w1 = secrets w → deployments w1 = deployments w → entropy w1 = entropy w →
  step_frame k w1 res → step_frame k w res.
Proof. intros Hs Hd He (Hdep & Hother & Hent). unfold step_frame. by rewrite <- Hs, <- Hd, <- He. Qed.

Lemma apply_secret_frame secret g w :
  (∀ s, SecretMeta (g s) = SecretMeta s) →
  step_frame (client.ObjectKeyFromObject secret) w (apply_secret secret g w)
  ∧ entropy (apply_secret secret g w).2 = entropy w.
Proof.
  intros Hmeta.
  destruct (apply_secret_post secret g w Hmeta) as (Hent & Hdep & _ & Hother & _).
  split; [|done]. split_and!; [done | done |]. exists 0. split; [lia|]. done.
Qed.

Lemma generate_once_step_frame o name key encode w :
  step_frame (namespace o, name) w (generate_once o name key encode w).
Proof.
  rewrite generate_once_eq. cbn zeta. set (k := (namespace o, name)).
  set (w1 := after_call (EvGet KSecret k) w).
  destruct (fault_now w); [by apply step_frame_same|].
  destruct (secrets w !! k) as [d|].
  - change (upsert ?s key ?v) with (apply_secret s (put key v)).
    apply (step_frame_from k w w1); [done..|].
    apply (apply_secret_frame (fetched k d) _ w1 (put_meta key _)).
  - destruct (decide (32 ≤ List.length (entropy w))); [|by apply step_frame_same].
    change (upsert ?s key ?v) with (apply_secret s (put key v)).
    set (w2 := set_entropy _ _).
    destruct (apply_secret_frame (emptySecret o name) (put key (encode (take 32 (entropy w))))
                w2 (put_meta key _)) as ((Hdep & Hother & _) & Hent).
    split_and!; [done | done |]. exists 32. split; [lia|]. done.
Qed.

Lemma admission_step_frame o w :
  let res := deployKubeApiServerSecretAdmissionKubeconfig Prefix validatingWebhookKubeconfig
               mutatingWebhookKubeconfig o w in
  step_frame (namespace o, KubeApiServerSecretNameAdmissionKubeconfig Prefix) w res
  ∧ entropy res.2 = entropy w.
Proof.
  intros res. subst res.
  destruct (ValidatingWebhookEnabled (GardenerControlplane_ (imports o))
            || MutatingWebhookEnabled (GardenerControlplane_ (imports o))) eqn:Hen.
  - rewrite (deployKubeApiServerSecretAdmissionKubeconfig_enabled _ _ _ o w Hen).
    apply (apply_secret_frame
             (emptySecret o (KubeApiServerSecretNameAdmissionKubeconfig Prefix)) _ w
             (admission_put_meta _ _)).
  - apply orb_false_iff in Hen as [Hv Hm].
    unfold deployKubeApiServerSecretAdmissionKubeconfig. rewrite Hv, Hm.
    split; [by apply step_frame_same | done].
Qed.

Lemma audit_step_frame o w :
  let res := deployKubeApiServerSecretAuditWebhookConfig o w in
  step_frame (namespace o, KubeApiServerSecretNameAuditWebhookConfig) w res
  ∧ entropy res.2 = entropy w.
Proof.
  intros res. subst res.
  destruct (decide (Config (AuditWebhookConfig_ (imports o)) = "")) as [He|Hne].
  - unfold deployKubeApiServerSecretAuditWebhookConfig. rewrite He.
    split; [by apply step_frame_same | done].
  - rewrite (deployKubeApiServerSecretAuditWebhookConfig_configured o w Hne).
    apply (apply_secret_frame (emptySecret o KubeApiServerSecretNameAuditWebhookConfig) _ w
             (put_meta _ _)).
Qed.

(** The steps of [deployKubeAPIServerSecrets], unfolded: a property that
    every step establishes from its start to its end, and that chains, holds
    from the start to the end of the whole. *)
Lemma deployKubeAPIServerSecrets_chain (R : World → World → Prop) o w :
  R w w →
  (∀ a b c, R a b → R b c → R a c) →
  (∀ w0, R w0 (deployKubeApiServerSecretAdmissionKubeconfig Prefix
                 validatingWebhookKubeconfig mutatingWebhookKubeconfig o w0).2) →
  (∀ w0, R w0 (deployKubeApiServerSecretAuditWebhookConfig o w0).2) →
  (∀ w0, R w0 (deployKubeApiServerSecretBasicAuth Prefix o w0).2) →
  (∀ w0, R w0 (deployKubeApiServerSecretEncryptionConfig Prefix o w0).2) →
  R w (deployKubeAPIServerSecrets Prefix validatingWebhookKubeconfig
         mutatingWebhookKubeconfig o w).2.
Proof.
  intros Hrefl Htrans H1 H2 H3 H4. unfold deployKubeAPIServerSecrets.
  rewrite bind_eq. specialize (H1 w).
  destruct (deployKubeApiServerSecretAdmissionKubeconfig _ _ _ o w) as [[e1|] w1];
    [exact H1|].
  rewrite bind_eq. specialize (H2 w1).
  destruct (deployKubeApiServerSecretAuditWebhookConfig o w1) as [[e2|] w2];
    [by eapply Htrans|].
  rewrite bind_eq. specialize (H3 w2).
  destruct (deployKubeApiServerSecretBasicAuth Prefix o w2) as [[e3|] w3];
    [eauto|].
  rewrite bind_eq. specialize (H4 w3).
  destruct (deployKubeApiServerSecretEncryptionConfig Prefix o w3) as [[e4|] w4]; eauto.
Qed.

Lemma deployKubeAPIServerSecrets_touches o w :
  let res := deployKubeAPIServerSecrets Prefix validatingWebhookKubeconfig
               mutatingWebhookKubeconfig o w in
  deployments res.2 = deployments w
  ∧ (∀ k, k ∉ secretKeys Prefix o → secrets res.2 !! k = secrets w !! k)
  ∧ ∃ n, n ≤ 64 ∧ entropy res.2 = drop n (entropy w).
Proof.
  intros res. subst res.
  unfold deployKubeAPIServerSecrets. rewrite bind_eq.
  pose proof (admission_step_frame o w) as ((Hd1 & Ho1 & _) & Hn1'). cbn zeta in *.
  destruct (deployKubeApiServerSecretAdmissionKubeconfig _ _ _ o w) as [[e1|] w1];
    unfold ret, mret, M_ret; cbn [fst snd] in *.
  { split_and!; [done | |exists 0; split; [lia|done]].
    intros k Hk. apply Ho1. intros ->. apply Hk. unfold secretKeys. set_solver. }
  rewrite bind_eq.
  pose proof (audit_step_frame o w1) as ((Hd2 & Ho2 & _) & Hn2'). cbn zeta in *.
  destruct (deployKubeApiServerSecretAuditWebhookConfig o w1) as [[e2|] w2];
    unfold ret, mret, M_ret; cbn [fst snd] in *.
  { split_and!; [by rewrite ?Hd4, ?Hd3, ?Hd2, ?Hd1 | |exists 0; split; [lia|by rewrite ?Hn2', ?Hn1']].
    intros k Hk. rewrite Ho2, Ho1; [done | |];
      intros ->; apply Hk; unfold secretKeys; set_solver. }
  rewrite bind_eq.
  pose proof (generate_once_step_frame o (KubeApiServerSecretNameBasicAuth Prefix)
                basicAuthKey basicAuth_encode w2) as (Hd3 & Ho3 & n3 & Hn3 & He3).
  rewrite <- deployKubeApiServerSecretBasicAuth_generate_once in Hd3, Ho3, He3.
  destruct (deployKubeApiServerSecretBasicAuth Prefix o w2) as [[e3|] w3];
    unfold ret, mret, M_ret; cbn [fst snd] in *.
  { split_and!; [by rewrite ?Hd4, ?Hd3, ?Hd2, ?Hd1 | |exists n3; split; [lia|by rewrite He3, ?Hn2', ?Hn1']].
    intros k Hk. rewrite Ho3, Ho2, Ho1; [done | | |];
      intros ->; apply Hk; unfold secretKeys; set_solver. }
  rewrite bind_eq.
  pose proof (generate_once_step_frame o (KubeApiServerSecretNameEncryptionConfig Prefix)
                encryptionConfigKey encryptionConfig_encode w3) as (Hd4 & Ho4 & n4 & Hn4 & He4).
  rewrite <- deployKubeApiServerSecretEncryptionConfig_generate_once in Hd4, Ho4, He4.
  assert (Hall : deployments
            (deployKubeApiServerSecretEncryptionConfig Prefix o w3).2 = deployments w
    ∧ (∀ k, k ∉ secretKeys Prefix o →
         secrets (deployKubeApiServerSecretEncryptionConfig Prefix o w3).2 !! k
         = secrets w !! k)
    ∧ ∃ n, n ≤ 64 ∧ entropy (deployKubeApiServerSecretEncryptionConfig Prefix o w3).2
                    = drop n (entropy w)).
  { split_and!; [by rewrite ?Hd4, ?Hd3, ?Hd2, ?Hd1 | |].
    - intros k Hk. rewrite Ho4, Ho3, Ho2, Ho1; [done | | | |];
        intros ->; apply Hk; unfold secretKeys; set_solver.
    - exists (n3 + n4). split; [lia|].
      rewrite He4, He3, Hn2', Hn1', drop_drop. done. }
  destruct (deployKubeApiServerSecretEncryptionConfig Prefix o w3) as [[e4|] w4]; exact Hall.
Qed.

(** [deployKubeAPIServerSecrets] touches nothing but its four secrets:
    whatever the store's failures and whatever the random source
    delivers, the deployments and every secret under another identity
    are as before. *)
Theorem deployKubeAPIServerSecrets_frame o w :
  let res := deployKubeAPIServerSecrets Prefix validatingWebhookKubeconfig
               mutatingWebhookKubeconfig o w in
  deployments res.2 = deployments w
  ∧ (∀ k, k ∉ secretKeys Prefix o → secrets res.2 !! k = secrets w !! k).
Proof.
  intros res. destruct (deployKubeAPIServerSecrets_touches o w) as (Hdep & Hother & _).
  split; [exact Hdep | exact Hother].
Qed.

End SecretsFrame.

(** ** Running the secrets' steps again *)

Section SecretsAgain.

Context (Prefix : string).
Context (validatingWebhookKubeconfig mutatingWebhookKubeconfig : list byte).

Lemma quiet_refl a : quiet a a.
Proof.
  split_and!; try done. exists []. split; [by rewrite app_nil_r | constructor].
Qed.

Lemma quiet_trans a b c : quiet a b → quiet b c → quiet a c.
Proof.
  intros (Hs & Hd & He & evs & Ht & Hg) (Hs' & Hd' & He' & evs' & Ht' & Hg').
  split_and!; [congruence..|]. exists (evs ++ evs'). split.
  - by rewrite Ht', Ht, app_assoc.
  - by apply Forall_app.
Qed.

Lemma read_only_quiet k w res : read_only_run k w res → quiet w res.2.
Proof.
  intros (Hs & Hd & He & Ht & _). split_and!; try done.
  destruct Ht as [Ht|Ht]; eexists; (split; [exact Ht|]); repeat constructor; by eexists.
Qed.

Lemma names_pairwise o :
  NoDup (secretKeys Prefix o).
Proof.
  destruct (names_NoDup Prefix) as [Hn _]. unfold secretKeys.
  apply (NoDup_fmap_2 (fun n => (namespace o, n))) in Hn; exact Hn.
Qed.

Lemma generate_once_success o name key encode w :
  (generate_once o name key encode w).1 = None →
  ∃ d v, secrets (generate_once o name key encode w).2 !! (namespace o, name) = Some d
         ∧ data_lookup d key = Some v.
Proof.
  rewrite generate_once_eq. cbn zeta. set (k := (namespace o, name)).
  set (w1 := after_call (EvGet KSecret k) w).
  destruct (fault_now w); [done|].
  destruct (secrets w !! k) as [d|].
  - change (upsert ?s key ?v) with (apply_secret s (put key v)). intros Hok.
    destruct (apply_secret_post (fetched k d) (put key (data_index d key)) w1
                (put_meta key _)) as (_ & _ & _ & _ & _ & Hdone & _).
    specialize (Hdone Hok). eexists _, _. split; [exact Hdone|]. apply data_lookup_put.
  - destruct (decide (32 ≤ List.length (entropy w))); [|done].
    change (upsert ?s key ?v) with (apply_secret s (put key v)). intros Hok.
    set (w2 := set_entropy _ _) in *.
    destruct (apply_secret_post (emptySecret o name) (put key (encode (take 32 (entropy w))))
                w2 (put_meta key _)) as (_ & _ & _ & _ & _ & Hdone & _).
    specialize (Hdone Hok). eexists _, _. split; [exact Hdone|]. apply data_lookup_put.
Qed.

Lemma admission_put_fixed k m :
  m !! "validating-webhook" = Some validatingWebhookKubeconfig →
  m !! "mutating-webhook" = Some mutatingWebhookKubeconfig →
  admission_put validatingWebhookKubeconfig mutatingWebhookKubeconfig (fetched k (Some m))
  = fetched k (Some m).
Proof.
  intros Hv Hm. unfold admission_put, fetched, assign_Data, ensure_Data, with_Data. cbn.
  rewrite (insert_id m "validating-webhook") by done. by rewrite insert_id.
Qed.

(** From a converged store every step is quiet. *)
Lemma admission_quiet o w :
  converged Prefix validatingWebhookKubeconfig mutatingWebhookKubeconfig o (secrets w) →
  quiet w (deployKubeApiServerSecretAdmissionKubeconfig Prefix validatingWebhookKubeconfig
             mutatingWebhookKubeconfig o w).2.
Proof.
  intros ([[Hv Hm]|(m & Hk & Hmv & Hmm)] & _).
  { unfold deployKubeApiServerSecretAdmissionKubeconfig. rewrite Hv, Hm. apply quiet_refl. }
  destruct (ValidatingWebhookEnabled (GardenerControlplane_ (imports o))
            || MutatingWebhookEnabled (GardenerControlplane_ (imports o))) eqn:Hen.
  - rewrite (deployKubeApiServerSecretAdmissionKubeconfig_enabled _ _ _ o w Hen).
    destruct (apply_secret_post
                (emptySecret o (KubeApiServerSecretNameAdmissionKubeconfig Prefix)) _ w
                (admission_put_meta validatingWebhookKubeconfig mutatingWebhookKubeconfig))
      as (Hent & Hdep & _ & _ & _ & _ & Hfix & _).
    destruct (Hfix _ Hk (admission_put_fixed _ m Hmv Hmm)) as [Hs Ht].
    split_and!; try done. eexists. split; [exact Ht|]. repeat constructor. by eexists.
  - apply orb_false_iff in Hen as [Hv Hm].
    unfold deployKubeApiServerSecretAdmissionKubeconfig. rewrite Hv, Hm. apply quiet_refl.
Qed.

Lemma audit_quiet o w :
  converged Prefix validatingWebhookKubeconfig mutatingWebhookKubeconfig o (secrets w) →
  quiet w (deployKubeApiServerSecretAuditWebhookConfig o w).2.
Proof.
  intros (_ & [He|(m & Hk & Hm)] & _).
  { unfold deployKubeApiServerSecretAuditWebhookConfig. rewrite He. apply quiet_refl. }
  destruct (decide (Config (AuditWebhookConfig_ (imports o)) = "")) as [He|Hne].
  { unfold deployKubeApiServerSecretAuditWebhookConfig. rewrite He. apply quiet_refl. }
  rewrite (deployKubeApiServerSecretAuditWebhookConfig_configured o w Hne).
  destruct (apply_secret_post (emptySecret o KubeApiServerSecretNameAuditWebhookConfig) _ w
              (put_meta "audit-webhook-config.yaml"
                 (String.list_byte_of_string (Config (AuditWebhookConfig_ (imports o))))))
    as (Hent & Hdep & _ & _ & _ & _ & Hfix & _).
  destruct (Hfix _ Hk (put_fixed _ _ _ (Some m) Hm)) as [Hs Ht].
  split_and!; try done. eexists. split; [exact Ht|]. repeat constructor. by eexists.
Qed.

Lemma basicAuth_quiet o w :
  converged Prefix validatingWebhookKubeconfig mutatingWebhookKubeconfig o (secrets w) →
  quiet w (deployKubeApiServerSecretBasicAuth Prefix o w).2.
Proof.
  intros (_ & _ & (d & v & Hk & Hv) & _).
  rewrite deployKubeApiServerSecretBasicAuth_generate_once.
  eapply read_only_quiet. by eapply generate_once_read_only.
Qed.

Lemma encryptionConfig_quiet o w :
  converged Prefix validatingWebhookKubeconfig mutatingWebhookKubeconfig o (secrets w) →
  quiet w (deployKubeApiServerSecretEncryptionConfig Prefix o w).2.
Proof.
  intros (_ & _ & _ & (d & v & Hk & Hv)).
  rewrite deployKubeApiServerSecretEncryptionConfig_generate_once.
  eapply read_only_quiet. by eapply generate_once_read_only.
Qed.

Lemma deployKubeAPIServerSecrets_quiet o w :
  converged Prefix validatingWebhookKubeconfig mutatingWebhookKubeconfig o (secrets w) →
  quiet w (deployKubeAPIServerSecrets Prefix validatingWebhookKubeconfig
             mutatingWebhookKubeconfig o w).2.
Proof.
  intros Hconv.
  apply (deployKubeAPIServerSecrets_chain Prefix validatingWebhookKubeconfig
           mutatingWebhookKubeconfig
           (fun a b => converged Prefix validatingWebhookKubeconfig mutatingWebhookKubeconfig
                         o (secrets a) → quiet a b) o w); [| | | | | |done].
  - intros _. apply quiet_refl.
  - intros a b c Hab Hbc Ha. specialize (Hab Ha). eapply quiet_trans; [done|].
    apply Hbc. destruct Hab as (-> & _). done.
  - intros w0. apply admission_quiet.
  - intros w0. apply audit_quiet.
  - intros w0. apply basicAuth_quiet.
  - intros w0. apply encryptionConfig_quiet.
Qed.

Lemma keys_distinct o :
  let ka := (namespace o, KubeApiServerSecretNameAdmissionKubeconfig Prefix) in
  let ku := (namespace o, KubeApiServerSecretNameAuditWebhookConfig) in
  let kb := (namespace o, KubeApiServerSecretNameBasicAuth Prefix) in
  let ke := (namespace o, KubeApiServerSecretNameEncryptionConfig Prefix) in
  ka ≠ ku ∧ ka ≠ kb ∧ ka ≠ ke ∧ ku ≠ kb ∧ ku ≠ ke ∧ kb ≠ ke.
Proof.
  intros ka ku kb ke. pose proof (names_pairwise o) as Hn. unfold secretKeys in Hn.
  fold ka ku kb ke in Hn.
  apply NoDup_cons in Hn as [Ha Hn]. apply NoDup_cons in Hn as [Hu Hn].
  apply NoDup_cons in Hn as [Hb _].
  split_and!; intros Heq;
    [apply Ha | apply Ha | apply Ha | apply Hu | apply Hu | apply Hb];
    rewrite Heq; set_solver.
Qed.

(** A successful run leaves the store converged. *)
Lemma deployKubeAPIServerSecrets_converges o w :
  (deployKubeAPIServerSecrets Prefix validatingWebhookKubeconfig
     mutatingWebhookKubeconfig o w).1 = None →
  converged Prefix validatingWebhookKubeconfig mutatingWebhookKubeconfig o
    (secrets (deployKubeAPIServerSecrets Prefix validatingWebhookKubeconfig
                mutatingWebhookKubeconfig o w).2).
Proof.
  destruct (keys_distinct o) as (Hau & Hab & Hae & Hub & Hue & Hbe).
  unfold deployKubeAPIServerSecrets. rewrite bind_eq.
  pose proof (admission_holds Prefix validatingWebhookKubeconfig mutatingWebhookKubeconfig
                o w) as H1. cbn zeta in H1.
  destruct (deployKubeApiServerSecretAdmissionKubeconfig _ _ _ o w) as [[e1|] w1];
    unfold ret, mret, M_ret; cbn [fst snd] in *; [done|].
  rewrite bind_eq.
  pose proof (audit_holds o w1) as H2.
  pose proof (audit_step_frame o w1) as ((_ & Ho2 & _) & _). cbn zeta in *.
  destruct (deployKubeApiServerSecretAuditWebhookConfig o w1) as [[e2|] w2];
    unfold ret, mret, M_ret; cbn [fst snd] in *; [done|].
  rewrite bind_eq.
  pose proof (generate_once_success o (KubeApiServerSecretNameBasicAuth Prefix)
                basicAuthKey basicAuth_encode w2) as H3.
  pose proof (generate_once_step_frame o (KubeApiServerSecretNameBasicAuth Prefix)
                basicAuthKey basicAuth_encode w2) as (_ & Ho3 & _).
  rewrite <- deployKubeApiServerSecretBasicAuth_generate_once in H3, Ho3.
  destruct (deployKubeApiServerSecretBasicAuth Prefix o w2) as [[e3|] w3];
    unfold ret, mret, M_ret; cbn [fst snd] in *; [done|].
  rewrite bind_eq.
  pose proof (generate_once_success o (KubeApiServerSecretNameEncryptionConfig Prefix)
                encryptionConfigKey encryptionConfig_encode w3) as H4.
  pose proof (generate_once_step_frame o (KubeApiServerSecretNameEncryptionConfig Prefix)
                encryptionConfigKey encryptionConfig_encode w3) as (_ & Ho4 & _).
  rewrite <- deployKubeApiServerSecretEncryptionConfig_generate_once in H4, Ho4.
  destruct (deployKubeApiServerSecretEncryptionConfig Prefix o w3) as [[e4|] w4];
    unfold ret, mret, M_ret; cbn [fst snd] in *; [done|].
  intros _. unfold converged. cbn zeta. split_and!.
  - destruct (ValidatingWebhookEnabled (GardenerControlplane_ (imports o))
              || MutatingWebhookEnabled (GardenerControlplane_ (imports o))) eqn:Hen.
    + right. destruct (H1 eq_refl eq_refl) as (m & Hk & Hin & _). exists m.
      rewrite Ho4, Ho3, Ho2 by done. split; [exact Hk|].
      split; apply Hin; set_solver.
    + left. by apply orb_false_iff in Hen.
  - destruct (decide (Config (AuditWebhookConfig_ (imports o)) = "")) as [He|Hne];
      [by left|right].
    destruct (H2 Hne eq_refl) as (m & Hk & Hin & _). exists m.
    rewrite Ho4, Ho3 by done. split; [exact Hk|]. apply Hin. set_solver.
  - destruct (H3 eq_refl) as (d & v & Hk & Hv). exists d, v.
    rewrite Ho4 by done. done.
  - by apply H4.
Qed.

(** [deployKubeAPIServerSecrets] is idempotent on the store.  From a store
    that already holds what the four steps are after (the webhook
    kubeconfigs and the audit webhook config where the imports ask for
    them, some basic-auth entry and some encryption-config entry) a run
    writes nothing, draws nothing and issues only fetches, whatever the
    store's failures.  A successful run leaves such a store, so a second
    run after it changes nothing. *)
Theorem deployKubeAPIServerSecrets_idempotent o w :
  let run := deployKubeAPIServerSecrets Prefix validatingWebhookKubeconfig
               mutatingWebhookKubeconfig o in
  let settled := converged Prefix validatingWebhookKubeconfig mutatingWebhookKubeconfig o in
  (settled (secrets w) → quiet w (run w).2)
  ∧ ((run w).1 = None →
       settled (secrets (run w).2) ∧ quiet (run w).2 (run (run w).2).2).
Proof.
  intros run settled. split; [apply deployKubeAPIServerSecrets_quiet|].
  intros Hok. pose proof (deployKubeAPIServerSecrets_converges o w Hok) as Hc.
  split; [exact Hc|]. by apply deployKubeAPIServerSecrets_quiet.
Qed.

End SecretsAgain.

(** The sample operation with webhooks in an empty cluster: the first run
    succeeds, the second is quiet. *)
Lemma deployKubeAPIServerSecrets_idempotent_witness :
  let run := deployKubeAPIServerSecrets Sample.Prefix [x01] [x02] Sample3.o_webhooks in
  quiet (run Sample3.rich).2 (run (run Sample3.rich).2).2.
Proof.
  intros run.
  destruct (deployKubeAPIServerSecrets_idempotent Sample.Prefix [x01] [x02]
              Sample3.o_webhooks Sample3.rich) as [_ Hrun].
  apply Hrun. by vm_compute.
Defined.


(** ** Deleting with a store that fails *)

Section DeleteRangeMore.

Context `{Object T} (empty : string → T) (key_of : string → ObjectKey).
Context {A : Type} (other : World → A).
Hypothesis empty_key : ∀ n, client.ObjectKeyFromObject (empty n) = key_of n.
Hypothesis stored_after_call : ∀ ev w, stored (T:=T) (after_call ev w) = stored w.
Hypothesis stored_set_stored : ∀ f w, stored (T:=T) (set_stored f w) = f (stored w).
Hypothesis faults_set_stored : ∀ f w, faults (set_stored (T:=T) f w) = faults w.
Hypothesis trace_set_stored : ∀ f w, trace (set_stored (T:=T) f w) = trace w.
Hypothesis other_after_call : ∀ ev w, other (after_call ev w) = other w.
Hypothesis other_set_stored : ∀ f w, other (set_stored (T:=T) f w) = other w.

Lemma delete_range_cons n names w :
  let key := key_of n in
  let w1 := after_call (EvDelete (kindOf (T:=T)) key) w in
  delete_range empty (n :: names) w =
    match fault_now w with
    | Some reason => (Some (ErrStore reason), w1)
    | None =>
        match stored (T:=T) w !! key with
        | Some _ => delete_range empty names (set_stored (T:=T) (fun m => delete key m) w1)
        | None => delete_range empty names w1
        end
    end.
Proof using All.
  cbn [delete_range]. rewrite bind_eq, Delete_eq, empty_key. cbn zeta.
  rewrite stored_after_call.
  destruct (fault_now w); [done|]. by destruct (stored w !! key_of n).
Qed.

(** Whatever the store's failures: the loop returns nil or the store's
    failure, removes nothing but named objects, and returns nil only
    when none of the named objects is left. *)
Lemma delete_range_post names w :
  let res := delete_range empty names w in
  nil_or_store res.1
  ∧ other res.2 = other w
  ∧ only_removed (key_of <$> names) (stored (T:=T) w) (stored (T:=T) res.2)
  ∧ (res.1 = None → ∀ k, k ∈ key_of <$> names → stored (T:=T) res.2 !! k = None)
  ∧ ∃ j, j ≤ List.length names
         ∧ trace res.2
           = trace w ++ ((fun n => EvDelete (kindOf (T:=T)) (key_of n)) <$> take j names).
Proof using All.
  revert w. induction names as [|n names IH]; intros w res; subst res.
  - cbn. split_and!; [by left | done | by left | by intros _ k ?%elem_of_nil |].
    exists 0. by rewrite app_nil_r.
  - rewrite delete_range_cons. cbn zeta.
    set (w1 := after_call _ w).
    destruct (fault_now w) as [reason|]; cbn [fst snd].
    { subst w1. rewrite other_after_call, stored_after_call, trace_after_call.
      split_and!; [right; by eexists | done | by left | done |].
      exists 1. split; [cbn; lia|]. cbn [take]. by rewrite take_0. }
    assert (Hstep : ∀ w2, other w2 = other w →
              trace w2 = trace w ++ [EvDelete (kindOf (T:=T)) (key_of n)] →
              only_removed [key_of n] (stored (T:=T) w) (stored (T:=T) w2) →
              stored (T:=T) w2 !! key_of n = None →
              let res := delete_range empty names w2 in
              nil_or_store res.1
              ∧ other res.2 = other w
              ∧ only_removed (key_of <$> n :: names) (stored (T:=T) w) (stored (T:=T) res.2)
              ∧ (res.1 = None →
                   ∀ k, k ∈ key_of <$> n :: names → stored (T:=T) res.2 !! k = None)
              ∧ ∃ j, j ≤ List.length (n :: names)
                     ∧ trace res.2
                       = trace w ++ ((fun n => EvDelete (kindOf (T:=T)) (key_of n))
                                       <$> take j (n :: names))).
    { intros w2 Ho Ht Hrem Hgone res.
      destruct (IH w2) as (Hr & Ho' & Hrem' & Hnil & j & Hj & Htr). fold res in Hr, Ho', Hrem', Hnil, Htr.
      assert (Hn : stored (T:=T) res.2 !! key_of n = None).
      { destruct (Hrem' (key_of n)) as [->|[_ ?]]; done. }
      split_and!; [done | congruence | | |].
      - intros k. destruct (Hrem' k) as [Hk|[Hin Hk]].
        + rewrite Hk. destruct (Hrem k) as [?|[Hin ?]]; [by left|right].
          split; [|done]. apply list_elem_of_singleton in Hin as ->. cbn. by left.
        + right. split; [|done]. cbn. by right.
      - intros Hok k [->|Hin]%elem_of_cons; [done|]. by apply Hnil.
      - exists (S j). split; [cbn; lia|]. rewrite Htr, Ht, <- app_assoc. done. }
    destruct (stored w !! key_of n) as [c|] eqn:Hn.
    + apply Hstep.
      * subst w1. by rewrite other_set_stored, other_after_call.
      * subst w1. by rewrite trace_set_stored, trace_after_call.
      * intros k. subst w1. rewrite stored_set_stored, stored_after_call.
        destruct (decide (k = key_of n)) as [->|Hne].
        -- right. split; [by left | by rewrite lookup_delete_eq].
        -- left. by rewrite lookup_delete_ne.
      * subst w1. by rewrite stored_set_stored, lookup_delete_eq.
    + apply Hstep.
      * subst w1. by rewrite other_after_call.
      * subst w1. by rewrite trace_after_call.
      * intros k. left. subst w1. by rewrite stored_after_call.
      * subst w1. by rewrite stored_after_call.
Qed.

Lemma fault_now_lookup w : fault_now w = mjoin (faults w !! 0).
Proof. unfold fault_now. by destruct (faults w). Qed.

(** The store answers [i] calls and fails the next one: the loop stops
    there. *)
Lemma delete_range_stops names w i reason :
  calm i w → faults w !! i = Some (Some reason) → i < List.length names →
  let res := delete_range empty names w in
  res.1 = Some (ErrStore reason)
  ∧ trace res.2
    = trace w ++ ((fun n => EvDelete (kindOf (T:=T)) (key_of n)) <$> take (S i) names)
  ∧ stored (T:=T) res.2 = foldl (fun m n => delete (key_of n) m) (stored w) (take i names).
Proof using All.
  revert w i. induction names as [|n names IH]; intros w i Hc Hf Hi res; subst res.
  { cbn in Hi. lia. }
  rewrite delete_range_cons. cbn zeta. set (w1 := after_call _ w).
  destruct i as [|i].
  - rewrite fault_now_lookup, Hf. cbn [mjoin option_join fst snd]. subst w1.
    rewrite trace_after_call, stored_after_call, take_0. done.
  - rewrite (calm_now _ _ Hc).
    assert (Hf1 : faults w1 !! i = Some (Some reason)).
    { subst w1. rewrite faults_after_call. by destruct (faults w). }
    assert (Hc1 : calm i w1) by (by eapply calm_next).
    cbn in Hi.
    destruct (stored w !! key_of n) as [c|] eqn:Hn.
    + set (w2 := set_stored _ w1).
      assert (Hc2 : calm i w2) by (eapply calm_same; [done|]; apply faults_set_stored).
      assert (Hf2 : faults w2 !! i = Some (Some reason)).
      { subst w2. by rewrite faults_set_stored. }
      destruct (IH w2 i Hc2 Hf2 ltac:(lia)) as (Hr & Htr & Hst).
      split_and!; [done | |].
      * rewrite Htr. subst w2. rewrite trace_set_stored. subst w1.
        rewrite trace_after_call, <- app_assoc. done.
      * rewrite Hst. subst w2. rewrite stored_set_stored. subst w1.
        by rewrite stored_after_call.
    + destruct (IH w1 i Hc1 Hf1 ltac:(lia)) as (Hr & Htr & Hst).
      split_and!; [done | |].
      * rewrite Htr. subst w1. rewrite trace_after_call, <- app_assoc. done.
      * rewrite Hst. subst w1. rewrite stored_after_call. cbn [take foldl].
        by rewrite delete_id.
Qed.

End DeleteRangeMore.

Section DeletesMore.

Context (Prefix : string).

Lemma stopped_at_foldl {A} (kind : Kind) (names : list string) (ns : string) (i : nat)
    (reason : string) (before after : gmap ObjectKey A) (w : World)
    (res : option error * World) :
  res.1 = Some (ErrStore reason) →
  trace res.2 = trace w ++ ((fun n => EvDelete kind (ns, n)) <$> take (S i) names) →
  after = foldl (fun m n => delete (ns, n) m) before (take i names) →
  stopped_at kind ((fun n => (ns, n)) <$> names) i reason before after w res.
Proof.
  intros Hr Htr ->. unfold stopped_at. rewrite <- !fmap_take.
  split_and!; [done | | |].
  - rewrite Htr, <- list_fmap_compose. done.
  - intros k Hk. rewrite lookup_foldl_delete. by rewrite decide_True.
  - intros k Hk. rewrite lookup_foldl_delete. by rewrite decide_False.
Qed.

(** Fail fast in the delete loops.  When the store answers [i] calls and
    fails the next one for a reason of its own, [deleteKubeAPIServerSecrets]
    ([i] below 4) and [deleteDeployments] ([i] below 2) return that
    failure: exactly [i + 1] deletes were issued, in the order of the
    names, the first [i] objects are gone, the object the failure was
    about and all later ones are as before, and so is everything else. *)
Theorem deletes_stop_at_failure o w i reason :
  let rs := deleteKubeAPIServerSecrets Prefix o w in
  let rd := deleteDeployments Prefix o w in
  calm i w → faults w !! i = Some (Some reason) →
  (i < 4 →
     stopped_at KSecret (secretKeys Prefix o) i reason (secrets w) (secrets rs.2) w rs
     ∧ deployments rs.2 = deployments w)
  ∧ (i < 2 →
       stopped_at KDeployment (deploymentKeys Prefix o) i reason
         (deployments w) (deployments rd.2) w rd
       ∧ secrets rd.2 = secrets w).
Proof.
  intros rs rd Hc Hf. split; intros Hi.
  - destruct (@delete_range_stops Secret Secret_Object (emptySecret o)
                (fun n => (namespace o, n)) _ deployments
                (fun _ => eq_refl) (fun _ _ => eq_refl) (fun _ _ => eq_refl)
                (fun _ _ => eq_refl) (fun _ _ => eq_refl)
                (fun _ _ => eq_refl) (fun _ _ => eq_refl)
                [ KubeApiServerSecretNameAdmissionKubeconfig Prefix;
                  KubeApiServerSecretNameAuditWebhookConfig;
                  KubeApiServerSecretNameBasicAuth Prefix;
                  KubeApiServerSecretNameEncryptionConfig Prefix ] w i reason Hc Hf Hi)
      as (Hr & Htr & Hst).
    destruct (@delete_range_post Secret Secret_Object (emptySecret o)
                (fun n => (namespace o, n)) _ deployments
                (fun _ => eq_refl) (fun _ _ => eq_refl) (fun _ _ => eq_refl)
                (fun _ _ => eq_refl) (fun _ _ => eq_refl)
                (fun _ _ => eq_refl) (fun _ _ => eq_refl)
                [ KubeApiServerSecretNameAdmissionKubeconfig Prefix;
                  KubeApiServerSecretNameAuditWebhookConfig;
                  KubeApiServerSecretNameBasicAuth Prefix;
                  KubeApiServerSecretNameEncryptionConfig Prefix ] w)
      as (_ & Hd & _).
    split; [|exact Hd].
    by apply (stopped_at_foldl KSecret
                [ KubeApiServerSecretNameAdmissionKubeconfig Prefix;
                  KubeApiServerSecretNameAuditWebhookConfig;
                  KubeApiServerSecretNameBasicAuth Prefix;
                  KubeApiServerSecretNameEncryptionConfig Prefix ] (namespace o)).
  - destruct (@delete_range_stops Deployment Deployment_Object (emptyDeployment o)
                (fun n => (namespace o, n)) _ secrets
                (fun _ => eq_refl) (fun _ _ => eq_refl) (fun _ _ => eq_refl)
                (fun _ _ => eq_refl) (fun _ _ => eq_refl)
                (fun _ _ => eq_refl) (fun _ _ => eq_refl)
                [ KubeAPIServerDeploymentNameAPIServer Prefix;
                  KubeAPIServerDeploymentNameControllerManager Prefix ] w i reason Hc Hf Hi)
      as (Hr & Htr & Hst).
    destruct (@delete_range_post Deployment Deployment_Object (emptyDeployment o)
                (fun n => (namespace o, n)) _ secrets
                (fun _ => eq_refl) (fun _ _ => eq_refl) (fun _ _ => eq_refl)
                (fun _ _ => eq_refl) (fun _ _ => eq_refl)
                (fun _ _ => eq_refl) (fun _ _ => eq_refl)
                [ KubeAPIServerDeploymentNameAPIServer Prefix;
                  KubeAPIServerDeploymentNameControllerManager Prefix ] w)
      as (_ & Hd & _).
    split; [|exact Hd].
    by apply (stopped_at_foldl KDeployment
                [ KubeAPIServerDeploymentNameAPIServer Prefix;
                  KubeAPIServerDeploymentNameControllerManager Prefix ] (namespace o)).
Qed.

(** What the delete loops do under any schedule of store failures.
    [deleteKubeAPIServerSecrets] and [deleteDeployments] return nil or a
    failure of the store's own, never NotFound; they remove nothing but
    the objects they name, leave the objects of the other kind and the
    entropy alone; and when they return nil none of the named objects is
    left. *)
Theorem deletes_remove_only_named o w :
  let rs := deleteKubeAPIServerSecrets Prefix o w in
  let rd := deleteDeployments Prefix o w in
  (nil_or_store rs.1
   ∧ only_removed (secretKeys Prefix o) (secrets w) (secrets rs.2)
   ∧ deployments rs.2 = deployments w ∧ entropy rs.2 = entropy w
   ∧ (rs.1 = None → ∀ k, k ∈ secretKeys Prefix o → secrets rs.2 !! k = None))
  ∧ (nil_or_store rd.1
     ∧ only_removed (deploymentKeys Prefix o) (deployments w) (deployments rd.2)
     ∧ secrets rd.2 = secrets w ∧ entropy rd.2 = entropy w
     ∧ (rd.1 = None → ∀ k, k ∈ deploymentKeys Prefix o → deployments rd.2 !! k = None)).
Proof.
  intros rs rd. split.
  - destruct (@delete_range_post Secret Secret_Object (emptySecret o)
                (fun n => (namespace o, n)) _ (fun w => (deployments w, entropy w))
                (fun _ => eq_refl) (fun _ _ => eq_refl) (fun _ _ => eq_refl)
                (fun _ _ => eq_refl) (fun _ _ => eq_refl)
                (fun _ _ => eq_refl) (fun _ _ => eq_refl)
                [ KubeApiServerSecretNameAdmissionKubeconfig Prefix;
                  KubeApiServerSecretNameAuditWebhookConfig;
                  KubeApiServerSecretNameBasicAuth Prefix;
                  KubeApiServerSecretNameEncryptionConfig Prefix ] w)
      as (Hr & [= Hd He] & Hrem & Hnil & _).
    split_and!; done.
  - destruct (@delete_range_post Deployment Deployment_Object (emptyDeployment o)
                (fun n => (namespace o, n)) _ (fun w => (secrets w, entropy w))
                (fun _ => eq_refl) (fun _ _ => eq_refl) (fun _ _ => eq_refl)
                (fun _ _ => eq_refl) (fun _ _ => eq_refl)
                (fun _ _ => eq_refl) (fun _ _ => eq_refl)
                [ KubeAPIServerDeploymentNameAPIServer Prefix;
                  KubeAPIServerDeploymentNameControllerManager Prefix ] w)
      as (Hr & [= Hd He] & Hrem & Hnil & _).
    split_and!; done.
Qed.

End DeletesMore.

(** All objects present, the store fails the second call: the first
    secret is deleted, the second delete returns the failure. *)
Lemma deletes_stop_at_failure_witness :
  (deleteKubeAPIServerSecrets Sample.Prefix Sample.o Sample4.crowded).1
    = Some (ErrStore "timeout")
  ∧ (deleteDeployments Sample.Prefix Sample.o Sample4.crowded).1
    = Some (ErrStore "timeout").
Proof.
  assert (Hc : calm 1 Sample4.crowded) by (unfold calm; cbn; repeat constructor).
  destruct (deletes_stop_at_failure Sample.Prefix Sample.o Sample4.crowded 1 "timeout"
              Hc eq_refl) as [Hs Hd].
  destruct (Hs ltac:(lia)) as [(Hr & _) _]. destruct (Hd ltac:(lia)) as [(Hr' & _) _].
  split; [exact Hr | exact Hr'].
Defined.

(** ** Annotations as a restart trigger *)

Section AnnotationsMore.
Import GoMap GoMapFacts.

Lemma annotations_lookup o (checksums : ref) keys (h : Heap) k :
  valid h checksums →
  let result := addChecksumsToAnnotations o checksums keys h in
  contents result.2 result.1 !! k
  = if decide (k ∈ keys) then contents h checksums !! k else None.
Proof.
  intros Hv result. subst result.
  rewrite addChecksumsToAnnotations_eq by done. cbn [fst snd].
  rewrite contents_fresh, stamped_lookup, lookup_empty.
  case_decide; [by destruct (contents h checksums !! k) | done].
Qed.

(** The annotations are a function of the watched checksums and of
    nothing else.  Two calls of [addChecksumsToAnnotations], on whatever
    heaps and checksum maps, return maps with the same contents exactly
    when the two checksum maps agree on every selected key, a key absent
    from both included; order and repetition of the keys do not matter.
    The result is a part of the checksum map with at most as many entries
    as there are keys. *)
Theorem addChecksumsToAnnotations_agreement o (c1 c2 : ref) keys1 keys2 (h1 h2 : Heap) :
  valid h1 c1 → valid h2 c2 →
  (∀ k, k ∈ keys1 ↔ k ∈ keys2) →
  let r1 := addChecksumsToAnnotations o c1 keys1 h1 in
  let r2 := addChecksumsToAnnotations o c2 keys2 h2 in
  (contents r1.2 r1.1 = contents r2.2 r2.1
   ↔ ∀ k, k ∈ keys1 → contents h1 c1 !! k = contents h2 c2 !! k)
  ∧ contents r1.2 r1.1 ⊆ contents h1 c1
  ∧ size (contents r1.2 r1.1) ≤ List.length keys1.
Proof.
  intros Hv1 Hv2 Hkeys r1 r2.
  pose proof (fun k => annotations_lookup o c1 keys1 h1 k Hv1) as H1.
  pose proof (fun k => annotations_lookup o c2 keys2 h2 k Hv2) as H2.
  cbn zeta in H1, H2. fold r1 in H1. fold r2 in H2.
  split_and!.
  - split.
    + intros Heq k Hk. specialize (H1 k). specialize (H2 k).
      rewrite decide_True in H1 by done.
      rewrite decide_True in H2 by (by apply Hkeys).
      by rewrite <- H1, <- H2, Heq.
    + intros Hag. apply map_eq. intros k. rewrite H1, H2.
      destruct (decide (k ∈ keys1)) as [Hin|Hnin].
      * rewrite decide_True by (by apply Hkeys). by apply Hag.
      * rewrite decide_False; [done|]. by rewrite <- Hkeys.
  - apply map_subseteq_spec. intros k v. rewrite H1. by case_decide.
  - transitivity (size (list_to_set (C := gset string) keys1)).
    + rewrite <- size_dom. apply subseteq_size. intros k Hk.
      apply elem_of_dom in Hk as [v Hk]. rewrite H1 in Hk.
      apply elem_of_list_to_set. by case_decide.
    + clear. induction keys1 as [|k keys IH]; cbn [list_to_set foldr].
      * by rewrite size_empty.
      * rewrite size_union_alt, size_singleton. cbn [List.length].
        assert (size (list_to_set (C := gset string) keys ∖ {[k]})
                ≤ size (list_to_set (C := gset string) keys)).
        { apply subseteq_size. set_solver. }
        lia.
Qed.

End AnnotationsMore.

(** Two heaps, the same checksum under "server", another under "ca":
    watching "server" alone the annotations agree. *)
Lemma addChecksumsToAnnotations_agreement_witness :
  let r1 := addChecksumsToAnnotations Sample.o (Some 0) ["server"] Sample.heap in
  let r2 := addChecksumsToAnnotations Sample.o (Some 1) ["server"; "server"]
              [∅; {[ "ca" := "00"; "server" := "2e" ]}] in
  GoMap.contents r1.2 r1.1 = GoMap.contents r2.2 r2.1.
Proof.
  intros r1 r2.
  assert (Hv1 : GoMapFacts.valid Sample.heap (Some 0)) by (simpl; lia).
  assert (Hv2 : GoMapFacts.valid [∅; {[ "ca" := "00"; "server" := "2e" ]}] (Some 1))
    by (simpl; lia).
  destruct (addChecksumsToAnnotations_agreement Sample.o (Some 0) (Some 1)
              ["server"] ["server"; "server"] Sample.heap
              [∅; {[ "ca" := "00"; "server" := "2e" ]}] Hv1 Hv2) as ([_ Hag] & _).
  { intros k. set_solver. }
  apply Hag. intros k ->%list_elem_of_singleton. by vm_compute.
Defined.

(** ** The container's command, mounts and volumes *)

Section ContainerFacts.

Context (Prefix : string) (c : podConstants).
Context (isWebhookEnabled : operation → bool).
Context (GetMaxMutatingRequestsInflight GetMaxRequestsInflight : apiServerImports → Z → Z).
Context (volumeWithSecretSource volumeWithConfigMapSource : string → string → corev1.Volume).

(** The three functions read the webhook test at the operation only. *)
Lemma getAPIServerCommand_webhook o k b :
  isWebhookEnabled o = b →
  getAPIServerCommand isWebhookEnabled GetMaxMutatingRequestsInflight
    GetMaxRequestsInflight o k
  = getAPIServerCommand (fun _ => b) GetMaxMutatingRequestsInflight
      GetMaxRequestsInflight o k.
Proof. intros <-. reflexivity. Qed.

Lemma getAPIServerVolumeMounts_webhook o k b :
  isWebhookEnabled o = b →
  getAPIServerVolumeMounts c isWebhookEnabled o k
  = getAPIServerVolumeMounts c (fun _ => b) o k.
Proof. intros <-. reflexivity. Qed.

Lemma getAPIServerVolumes_webhook o k b :
  isWebhookEnabled o = b →
  getAPIServerVolumes Prefix c isWebhookEnabled volumeWithSecretSource
    volumeWithConfigMapSource o k
  = getAPIServerVolumes Prefix c (fun _ => b) volumeWithSecretSource
      volumeWithConfigMapSource o k.
Proof. intros <-. reflexivity. Qed.

Lemma file_flags_mounted o k :
  forallb (file_mounted (getAPIServerVolumeMounts c isWebhookEnabled o k))
    (getAPIServerCommand isWebhookEnabled GetMaxMutatingRequestsInflight
       GetMaxRequestsInflight o k) = true.
Proof.
  rewrite (getAPIServerCommand_webhook o k _ eq_refl),
    (getAPIServerVolumeMounts_webhook o k _ eq_refl).
  generalize (isWebhookEnabled o). intros b.
  destruct o as [ns [cp [cfg]] hn].
  destruct k as [bs sa oi ttl url sni pr dns vt mt avm av].
  destruct b, bs, cfg, sa, oi, ttl as [[|]|], url, sni; vm_compute; reflexivity.
Qed.

(** Every file the command points the kube-apiserver to lies in a
    directory the container mounts.  For every configuration of the
    imports, each argument [--...file=path], the encryption provider
    config and the SNI certificate have their path under the mount path
    of one of the volume mounts, those behind a condition (webhooks,
    audit webhook, seed authorizer, OIDC authenticator, SNI) included. *)
Theorem file_flags_are_mounted o k arg path :
  arg ∈ getAPIServerCommand isWebhookEnabled GetMaxMutatingRequestsInflight
          GetMaxRequestsInflight o k →
  file_of arg = Some path →
  ∃ m, m ∈ getAPIServerVolumeMounts c isWebhookEnabled o k
       ∧ String.prefix (corev1.MountPath m +:+ "/") path = true.
Proof.
  intros Hin Hfile. pose proof (file_flags_mounted o k) as Hall.
  rewrite forallb_forall in Hall. apply list_elem_of_In in Hin.
  specialize (Hall arg Hin). unfold file_mounted in Hall. rewrite Hfile in Hall.
  apply existsb_exists in Hall as (m & Hm & Hp). exists m.
  split; [by apply list_elem_of_In | exact Hp].
Qed.

Lemma command_well_formed o k :
  bool_decide (well_formed_command "/usr/local/bin/kube-apiserver"
                 (getAPIServerCommand isWebhookEnabled GetMaxMutatingRequestsInflight
                    GetMaxRequestsInflight o k)) = true.
Proof.
  rewrite (getAPIServerCommand_webhook o k _ eq_refl).
  generalize (isWebhookEnabled o). intros b.
  destruct o as [ns [cp [cfg]] hn].
  destruct k as [bs sa oi ttl url sni pr dns vt mt avm av].
  destruct b, bs, cfg, sa, oi, ttl as [[|]|], url, sni; vm_compute; reflexivity.
Qed.

(** For every configuration of the imports the command is the binary
    followed by flags of the form [--name=value], and no flag is given
    twice: the branches that add a flag under a condition never add one
    another branch adds. *)
Theorem getAPIServerCommand_well_formed o k :
  well_formed_command "/usr/local/bin/kube-apiserver"
    (getAPIServerCommand isWebhookEnabled GetMaxMutatingRequestsInflight
       GetMaxRequestsInflight o k).
Proof. exact (bool_decide_eq_true_1 _ (command_well_formed o k)). Qed.

End ContainerFacts.

Section ContainerVolumes.

Context (Prefix : string) (c : podConstants).
Context (isWebhookEnabled : operation → bool).
Context (GetMaxMutatingRequestsInflight GetMaxRequestsInflight : apiServerImports → Z → Z).
Context (volumeWithSecretSource volumeWithConfigMapSource : string → string → corev1.Volume).

(** Mounts and volumes go together.  Provided the two volume
    constructors give a volume of the name they are passed, for every
    configuration of the imports the mounts of the container and the
    volumes of the pod carry the same names, each as often, once the
    additional mounts and the additional volumes are set apart: no mount
    of the code lacks its volume and no volume stays unmounted,
    whichever of the conditions hold. *)
Theorem mounts_match_volumes o k :
  (∀ name secretName,
     corev1.VolumeName (volumeWithSecretSource name secretName) = name) →
  (∀ name configMapName,
     corev1.VolumeName (volumeWithConfigMapSource name configMapName) = name) →
  ∃ names,
    corev1.Name <$> getAPIServerVolumeMounts c isWebhookEnabled o k
      ≡ₚ names ++ (corev1.Name <$> AdditionalVolumeMounts k)
    ∧ corev1.VolumeName <$> getAPIServerVolumes Prefix c isWebhookEnabled
                              volumeWithSecretSource volumeWithConfigMapSource o k
      ≡ₚ names ++ (corev1.VolumeName <$> AdditionalVolumes k).
Proof.
  intros Hs Hc.
  rewrite (getAPIServerVolumeMounts_webhook c isWebhookEnabled o k _ eq_refl),
    (getAPIServerVolumes_webhook Prefix c isWebhookEnabled volumeWithSecretSource
       volumeWithConfigMapSource o k _ eq_refl).
  generalize (isWebhookEnabled o). intros b.
  destruct o as [ns [cp [cfg]] hn].
  destruct k as [bs sa oi ttl url sni pr dns vt mt avm av].
  exists (corev1.Name <$>
            getAPIServerVolumeMounts c (fun _ => b)
              {| namespace := ns;
                 imports := {| GardenerControlplane_ := cp;
                               AuditWebhookConfig_ := {| Config := cfg |} |};
                 handleNamespace := hn |}
              {| AuditWebhookBatchMaxSize := bs; SeedAuthorizerEnabled := sa;
                 OidcWebhookAuthenticatorEnabled := oi; EventTTL := ttl;
                 OidcIssuerURL := url; SNI_ := sni; Profiling := pr;
                 DnsAccessDomain := dns; ValidatingWebhookToken := vt;
                 MutatingWebhookToken := mt; AdditionalVolumeMounts := [];
                 AdditionalVolumes := [] |}).
  destruct b, cfg, sa, oi, sni; (split; [by vm_compute|]);
    cbv - [corev1.VolumeName]; rewrite ?Hs, ?Hc; cbn [corev1.VolumeName];
    solve_Permutation.
Qed.

End ContainerVolumes.

Section Wiring.

Context (Prefix : string) (c : podConstants).
Context (validatingWebhookKubeconfig mutatingWebhookKubeconfig : list byte).
Context (isWebhookEnabled : operation → bool).
Context (GetMaxMutatingRequestsInflight GetMaxRequestsInflight : apiServerImports → Z → Z).
Context (volumeWithSecretSource volumeWithConfigMapSource : string → string → corev1.Volume).

Lemma wiring_command o k :
  let command := getAPIServerCommand isWebhookEnabled GetMaxMutatingRequestsInflight
                   GetMaxRequestsInflight o k in
  bool_decide ("--encryption-provider-config=/etc/kube-apiserver/encryption/encryption-config.yaml"
               ∈ command)
  && (bool_decide (getAPIServerAuditWebhookConfig o = "")
      || bool_decide ("--audit-webhook-config-file=/etc/kube-apiserver/auditwebhook/audit-webhook-config.yaml"
                      ∈ command)) = true.
Proof.
  cbv zeta. rewrite (getAPIServerCommand_webhook isWebhookEnabled _ _ o k _ eq_refl).
  generalize (isWebhookEnabled o). intros b.
  destruct o as [ns [cp [cfg]] hn].
  destruct k as [bs sa oi ttl url sni pr dns vt mt avm av].
  destruct b, bs, cfg, sa, oi, ttl as [[|]|], url, sni; vm_compute; reflexivity.
Qed.

Lemma wiring_mounts o k :
  let mounts := getAPIServerVolumeMounts c isWebhookEnabled o k in
  mount (volumeNameKubeAPIServerEncryptionConfig c) "/etc/kube-apiserver/encryption" ∈ mounts
  ∧ (getAPIServerAuditWebhookConfig o ≠ "" →
       mount (volumeNameKubeAPIServerAuditWebhookConfig c) "/etc/kube-apiserver/auditwebhook"
       ∈ mounts).
Proof.
  cbv zeta. rewrite (getAPIServerVolumeMounts_webhook c isWebhookEnabled o k _ eq_refl).
  generalize (isWebhookEnabled o). intros b.
  destruct o as [ns [cp [cfg]] hn].
  destruct k as [bs sa oi ttl url sni pr dns vt mt avm av].
  destruct b, cfg, sa, oi, sni; (split; [|try done; intros _]); cbv;
    repeat constructor.
Qed.

Lemma wiring_volumes o k :
  let volumes := getAPIServerVolumes Prefix c isWebhookEnabled volumeWithSecretSource
                   volumeWithConfigMapSource o k in
  volumeWithSecretSource (volumeNameKubeAPIServerEncryptionConfig c)
    (KubeApiServerSecretNameEncryptionConfig Prefix) ∈ volumes
  ∧ (getAPIServerAuditWebhookConfig o ≠ "" →
       volumeWithSecretSource (volumeNameKubeAPIServerAuditWebhookConfig c)
         KubeApiServerSecretNameAuditWebhookConfig ∈ volumes).
Proof.
  cbv zeta. rewrite (getAPIServerVolumes_webhook Prefix c isWebhookEnabled
                       volumeWithSecretSource volumeWithConfigMapSource o k _ eq_refl).
  generalize (isWebhookEnabled o). intros b.
  destruct o as [ns [cp [cfg]] hn].
  destruct k as [bs sa oi ttl url sni pr dns vt mt avm av].
  destruct b, cfg, sa, oi, sni; (split; [|try done; intros _]); cbv;
    repeat constructor.
Qed.

(** From the flags of the command to the secrets in the store.  Provided
    [volumeWithSecretSource] gives a volume of the name passed that is
    filled from the secret passed: once [deployKubeAPIServerSecrets] has
    returned nil, the file [--encryption-provider-config] names is the
    entry [encryption-config.yaml] of a secret in the store, reached
    through a mount of the container and the volume of the mount's name;
    and when an audit webhook config is given, the file
    [--audit-webhook-config-file] names is the entry
    [audit-webhook-config.yaml], holding the imported config, of the
    audit-webhook secret, reached in the same way. *)
Theorem secrets_wired_to_command o k w :
  let res := deployKubeAPIServerSecrets Prefix validatingWebhookKubeconfig
               mutatingWebhookKubeconfig o w in
  let wired_to :=
    wired (getAPIServerCommand isWebhookEnabled GetMaxMutatingRequestsInflight
             GetMaxRequestsInflight o k)
      (getAPIServerVolumeMounts c isWebhookEnabled o k)
      (getAPIServerVolumes Prefix c isWebhookEnabled volumeWithSecretSource
         volumeWithConfigMapSource o k)
      (secrets res.2) (namespace o) in
  (∀ name secretName,
     corev1.VolumeName (volumeWithSecretSource name secretName) = name
     ∧ corev1.Source (volumeWithSecretSource name secretName) = corev1.Secret secretName) →
  res.1 = None →
  (∃ value, wired_to "--encryption-provider-config"
              (KubeApiServerSecretNameEncryptionConfig Prefix) encryptionConfigKey value)
  ∧ (getAPIServerAuditWebhookConfig o ≠ "" →
       wired_to "--audit-webhook-config-file" KubeApiServerSecretNameAuditWebhookConfig
         "audit-webhook-config.yaml"
         (String.list_byte_of_string (getAPIServerAuditWebhookConfig o))).
Proof.
  intros res wired_to Hvol Hok. subst wired_to.
  pose proof (deployKubeAPIServerSecrets_converges Prefix validatingWebhookKubeconfig
                mutatingWebhookKubeconfig o w Hok) as (_ & Haudit & _ & Henc).
  fold res in Haudit, Henc.
  pose proof (wiring_command o k) as Hcmd. cbv zeta in Hcmd.
  apply andb_true_iff in Hcmd as [Hcmd_e Hcmd_a]. apply bool_decide_eq_true in Hcmd_e.
  destruct (wiring_mounts o k) as [Hm_e Hm_a].
  destruct (wiring_volumes o k) as [Hv_e Hv_a].
  split.
  - destruct Henc as (d & value & Hd & Hvalue). exists value.
    exists (mount (volumeNameKubeAPIServerEncryptionConfig c) "/etc/kube-apiserver/encryption"),
      (volumeWithSecretSource (volumeNameKubeAPIServerEncryptionConfig c)
         (KubeApiServerSecretNameEncryptionConfig Prefix)), d.
    split_and!; [exact Hcmd_e | exact Hm_e | exact Hv_e | | | exact Hd | exact Hvalue].
    + symmetry. apply Hvol.
    + apply Hvol.
  - intros Hne. destruct Haudit as [He|(m & Hd & Hvalue)]; [done|].
    apply orb_true_iff in Hcmd_a as [He|Hcmd_a].
    { apply bool_decide_eq_true in He. done. }
    apply bool_decide_eq_true in Hcmd_a.
    exists (mount (volumeNameKubeAPIServerAuditWebhookConfig c)
              "/etc/kube-apiserver/auditwebhook"),
      (volumeWithSecretSource (volumeNameKubeAPIServerAuditWebhookConfig c)
         KubeApiServerSecretNameAuditWebhookConfig), (Some m).
    split_and!; [exact Hcmd_a | exact (Hm_a Hne) | exact (Hv_a Hne) | | | exact Hd | exact Hvalue].
    + symmetry. apply Hvol.
    + apply Hvol.
Qed.

End Wiring.

(** The sample imports: the client CA file lies under a mount. *)
Lemma file_flags_are_mounted_witness :
  ∃ m, m ∈ getAPIServerVolumeMounts Sample5.c Sample5.isWebhookEnabled
             Sample3.o_webhooks Sample5.k
       ∧ String.prefix (corev1.MountPath m +:+ "/") "/srv/kubernetes/ca/ca.crt" = true.
Proof.
  apply (file_flags_are_mounted Sample5.c Sample5.isWebhookEnabled
           Sample5.GetMaxMutatingRequestsInflight Sample5.GetMaxRequestsInflight
           Sample3.o_webhooks Sample5.k "--client-ca-file=/srv/kubernetes/ca/ca.crt").
  - refine (bool_decide_unpack _ _). by vm_compute.
  - reflexivity.
Defined.

(** The sample constructors name their volumes as asked. *)
Lemma mounts_match_volumes_witness :
  ∃ names,
    corev1.Name <$> getAPIServerVolumeMounts Sample5.c Sample5.isWebhookEnabled
                      Sample3.o_webhooks Sample5.k
      ≡ₚ names ++ (corev1.Name <$> AdditionalVolumeMounts Sample5.k)
    ∧ corev1.VolumeName <$> getAPIServerVolumes Sample.Prefix Sample5.c
                              Sample5.isWebhookEnabled Sample5.volumeWithSecretSource
                              Sample5.volumeWithConfigMapSource Sample3.o_webhooks Sample5.k
      ≡ₚ names ++ (corev1.VolumeName <$> AdditionalVolumes Sample5.k).
Proof.
  apply (mounts_match_volumes Sample.Prefix Sample5.c Sample5.isWebhookEnabled
           Sample5.volumeWithSecretSource Sample5.volumeWithConfigMapSource
           Sample3.o_webhooks Sample5.k); reflexivity.
Defined.

(** The sample operation in an empty cluster: after the secrets are
    deployed the audit webhook flag reaches the imported config. *)
Lemma secrets_wired_to_command_witness :
  wired (getAPIServerCommand Sample5.isWebhookEnabled Sample5.GetMaxMutatingRequestsInflight
           Sample5.GetMaxRequestsInflight Sample3.o_webhooks Sample5.k)
    (getAPIServerVolumeMounts Sample5.c Sample5.isWebhookEnabled Sample3.o_webhooks Sample5.k)
    (getAPIServerVolumes Sample.Prefix Sample5.c Sample5.isWebhookEnabled
       Sample5.volumeWithSecretSource Sample5.volumeWithConfigMapSource
       Sample3.o_webhooks Sample5.k)
    (secrets (deployKubeAPIServerSecrets Sample.Prefix [x01] [x02]
                Sample3.o_webhooks Sample3.rich).2)
    "garden" "--audit-webhook-config-file" KubeApiServerSecretNameAuditWebhookConfig
    "audit-webhook-config.yaml" (String.list_byte_of_string "kind: Config").
Proof.
  destruct (secrets_wired_to_command Sample.Prefix Sample5.c [x01] [x02]
              Sample5.isWebhookEnabled Sample5.GetMaxMutatingRequestsInflight
              Sample5.GetMaxRequestsInflight Sample5.volumeWithSecretSource
              Sample5.volumeWithConfigMapSource Sample3.o_webhooks Sample5.k Sample3.rich)
    as [_ Haudit].
  - intros name secretName. split; reflexivity.
  - by vm_compute.
  - apply Haudit. by vm_compute.
Defined.

(** ** Why the secrets' steps fail *)

Section SecretsOutcome.

Context (Prefix : string).
Context (validatingWebhookKubeconfig mutatingWebhookKubeconfig : list byte).

Lemma within_calls_none calls w : within_calls calls w (None, w).
Proof.
  split_and!; [exists 0; split; [lia|done] | done | right; by left].
Qed.

Lemma within_calls_mono c c' w res : c ≤ c' → within_calls c w res → within_calls c' w res.
Proof.
  intros Hle ((j & Hj & Hf) & Hr & Hk). split_and!; [exists j; split; [lia|done] | | done].
  intros reason He. destruct (Hr reason He) as (i & Hi & Hl). exists i. split; [lia|done].
Qed.

(** A step after [j] calls, seen from the start. *)
Lemma within_calls_after j c w w' res :
  faults w' = drop j (faults w) →
  within_calls c w' res →
  within_calls (j + c) w res.
Proof.
  intros Hw ((j' & Hj' & Hf) & Hr & Hk). split_and!; [| |done].
  - exists (j + j'). split; [lia|]. by rewrite Hf, Hw, drop_drop.
  - intros reason He. destruct (Hr reason He) as (i & Hi & Hl).
    exists (j + i). split; [lia|]. by rewrite Hw, lookup_drop in Hl.
Qed.

Lemma fault_now_at w reason : fault_now w = Some reason → faults w !! 0 = Some (Some reason).
Proof. unfold fault_now. destruct (faults w) as [|[?|] ?]; by intros [= ->]. Qed.

Lemma faults_after_call_drop ev w : faults (after_call ev w) = drop 1 (faults w).
Proof. rewrite faults_after_call. by destruct (faults w). Qed.

Lemma apply_secret_within secret g w :
  (∀ s, SecretMeta (g s) = SecretMeta s) →
  within_calls 2 w (apply_secret secret g w)
  ∧ (apply_secret secret g w).1 ≠ Some ErrRandom.
Proof.
  intros Hmeta. rewrite (apply_secret_eq _ _ _ Hmeta). cbn zeta.
  set (k := client.ObjectKeyFromObject secret).
  set (w1 := after_call (EvGet KSecret k) w).
  assert (Hw1 : faults w1 = drop 1 (faults w)) by apply faults_after_call_drop.
  assert (Hw2 : ∀ ev, faults (after_call ev w1) = drop 2 (faults w)).
  { intros ev. by rewrite faults_after_call_drop, Hw1, drop_drop. }
  assert (Hone : within_calls 2 w (None, w1)).
  { split_and!; [exists 1; split; [lia|done] | done | right; by left]. }
  assert (Hfirst : ∀ reason, fault_now w = Some reason →
            within_calls 2 w (Some (ErrStore reason), w1)).
  { intros reason Hnow.
    split_and!; [exists 1; split; [lia|done] | | right; right; by eexists].
    intros ? [= <-]. exists 0. split; [lia|]. by apply fault_now_at. }
  assert (Hsecond : ∀ reason ev, fault_now w1 = Some reason →
            within_calls 2 w (Some (ErrStore reason), after_call ev w1)).
  { intros reason ev Hnow. apply fault_now_at in Hnow. rewrite Hw1, lookup_drop in Hnow.
    split_and!; [exists 2; split; [lia|apply Hw2] | | right; right; by eexists].
    intros ? [= <-]. exists 1. split; [lia|done]. }
  assert (Hboth : ∀ f ev, within_calls 2 w (None, set_secrets f (after_call ev w1))).
  { intros f ev.
    split_and!; [exists 2; split; [lia|] | done | right; by left].
    cbn [snd]. rewrite faults_set_secrets. apply Hw2. }
  destruct (fault_now w) as [reason|] eqn:H0; [split; [by apply Hfirst|done]|].
  destruct (secrets w !! k) as [d|].
  - destruct (decide _); [done|].
    destruct (fault_now w1) as [reason|] eqn:H1; (split; [|done]);
      [by apply Hsecond | apply Hboth].
  - destruct (fault_now w1) as [reason|] eqn:H1; (split; [|done]);
      [by apply Hsecond | apply Hboth].
Qed.

Lemma generate_once_within o name key encode w :
  let k := (namespace o, name) in
  let res := generate_once o name key encode w in
  within_calls 3 w res
  ∧ (res.1 = Some ErrRandom → secrets w !! k = None ∧ List.length (entropy w) < 32)
  ∧ (is_Some (secrets w !! k) → entropy res.2 = entropy w).
Proof.
  intros k res. subst res. rewrite generate_once_eq. fold k. cbn zeta.
  set (w1 := after_call (EvGet KSecret k) w).
  assert (Hw1 : faults w1 = drop 1 (faults w)) by apply faults_after_call_drop.
  destruct (fault_now w) as [reason|] eqn:Hnow.
  { cbn [fst snd]. split_and!; [|done|done].
    split_and!; [exists 1; split; [lia|done] | | right; right; by eexists].
    intros ? [= <-]. exists 0. split; [lia|]. by apply fault_now_at. }
  destruct (secrets w !! k) as [d|] eqn:Hk.
  - change (upsert ?s key ?v) with (apply_secret s (put key v)).
    destruct (apply_secret_within (fetched k d) (put key (data_index d key)) w1
                (put_meta key _)) as [Hin Hnr].
    destruct (apply_secret_post (fetched k d) (put key (data_index d key)) w1
                (put_meta key _)) as (Hent & _).
    split_and!; [|done|by intros _].
    by apply (within_calls_after 1 2 w w1).
  - destruct (decide (32 ≤ List.length (entropy w))) as [Hlen|Hlen].
    + change (upsert ?s key ?v) with (apply_secret s (put key v)).
      set (w2 := set_entropy _ _).
      destruct (apply_secret_within (emptySecret o name)
                  (put key (encode (take 32 (entropy w)))) w2 (put_meta key _))
        as [Hin Hnr].
      split_and!; [|done|by intros [? [=]]].
      by apply (within_calls_after 1 2 w w2).
    + cbn [fst snd]. split_and!; [|intros _; split; [done|lia]|by intros [? [=]]].
      split_and!; [exists 1; split; [lia|done] | done | by left].
Qed.

Lemma admission_within o w :
  let res := deployKubeApiServerSecretAdmissionKubeconfig Prefix validatingWebhookKubeconfig
               mutatingWebhookKubeconfig o w in
  within_calls 2 w res ∧ res.1 ≠ Some ErrRandom.
Proof.
  intros res. subst res.
  destruct (ValidatingWebhookEnabled (GardenerControlplane_ (imports o))
            || MutatingWebhookEnabled (GardenerControlplane_ (imports o))) eqn:Hen.
  - rewrite (deployKubeApiServerSecretAdmissionKubeconfig_enabled _ _ _ o w Hen).
    apply apply_secret_within, admission_put_meta.
  - apply orb_false_iff in Hen as [Hv Hm].
    unfold deployKubeApiServerSecretAdmissionKubeconfig. rewrite Hv, Hm.
    split; [apply within_calls_none | done].
Qed.

Lemma audit_within o w :
  let res := deployKubeApiServerSecretAuditWebhookConfig o w in
  within_calls 2 w res ∧ res.1 ≠ Some ErrRandom.
Proof.
  intros res. subst res.
  destruct (decide (Config (AuditWebhookConfig_ (imports o)) = "")) as [He|Hne].
  - unfold deployKubeApiServerSecretAuditWebhookConfig. rewrite He.
    split; [apply within_calls_none | done].
  - rewrite (deployKubeApiServerSecretAuditWebhookConfig_configured o w Hne).
    apply apply_secret_within, put_meta.
Qed.

Lemma within_calls_then n c w w' res :
  within_calls n w (None, w') → within_calls c w' res → within_calls (n + c) w res.
Proof.
  intros ((j & Hj & Hf) & _) Hres. cbn [snd] in Hf.
  eapply within_calls_mono; [|by eapply (within_calls_after j c)]. lia.
Qed.

Lemma calm_no_fault n w i reason :
  calm n w → i < n → faults w !! i ≠ Some (Some reason).
Proof.
  unfold calm. intros Hc Hi Hl.
  assert (Hin : Some reason ∈ take n (faults w)).
  { apply elem_of_take. by exists i. }
  eapply Forall_forall in Hc; [|exact Hin]. done.
Qed.

(** Why [deployKubeAPIServerSecrets] fails.  It issues at most ten calls
    to the store; an error it returns is a failure the store raised at one
    of these calls or the failure of the random source, never NotFound or
    AlreadyExists.  The random source is asked only for a generate-once
    secret that is absent: when the basic-auth secret exists, it fails
    only if the encryption-config secret is absent and the 32 bytes of
    its key are not at hand.  So with a store that answers ten calls, an
    existing basic-auth secret, and an existing encryption-config secret
    or 32 bytes of entropy, the function returns nil. *)
Theorem deployKubeAPIServerSecrets_failures o w :
  let kb := (namespace o, KubeApiServerSecretNameBasicAuth Prefix) in
  let ke := (namespace o, KubeApiServerSecretNameEncryptionConfig Prefix) in
  let res := deployKubeAPIServerSecrets Prefix validatingWebhookKubeconfig
               mutatingWebhookKubeconfig o w in
  within_calls 10 w res
  ∧ (res.1 = Some ErrRandom →
       secrets w !! kb = None
       ∨ (secrets w !! ke = None ∧ List.length (entropy w) < 32))
  ∧ (calm 10 w → is_Some (secrets w !! kb) →
     is_Some (secrets w !! ke) ∨ 32 ≤ List.length (entropy w) →
       res.1 = None).
Proof.
  intros kb ke res.
  assert (Hmain : within_calls 10 w res
            ∧ (res.1 = Some ErrRandom →
                 secrets w !! kb = None
                 ∨ (secrets w !! ke = None ∧ List.length (entropy w) < 32))).
  2: { destruct Hmain as [Hin Hrand]. split_and!; [done..|].
       intros Hc [d Hd] Hent.
       destruct Hin as (_ & Hstore & [He|[Hnil|(reason & He)]]); [|done|].
       - destruct (Hrand He) as [Hkb|[Hke Hlen]]; [congruence|].
         destruct Hent as [[d' Hd']|Hent]; [congruence|lia].
       - destruct (Hstore reason He) as (i & Hi & Hl).
         by destruct (calm_no_fault 10 w i reason). }
  subst res kb ke.
  destruct (keys_distinct Prefix o) as (Hau & Hab & Hae & Hub & Hue & Hbe).
  unfold deployKubeAPIServerSecrets. rewrite bind_eq.
  pose proof (admission_within o w) as [W1 R1].
  pose proof (admission_step_frame Prefix validatingWebhookKubeconfig
                mutatingWebhookKubeconfig o w) as ((_ & Ho1 & _) & He1).
  cbn zeta in *.
  destruct (deployKubeApiServerSecretAdmissionKubeconfig _ _ _ o w) as [[e1|] w1];
    unfold ret, mret, M_ret; cbn [fst snd] in *.
  { split; [|by intros [= ->]]. eapply within_calls_mono; [|exact W1]. lia. }
  rewrite bind_eq.
  pose proof (audit_within o w1) as [W2 R2].
  pose proof (audit_step_frame o w1) as ((_ & Ho2 & _) & He2). cbn zeta in *.
  apply (within_calls_then 2 2 w w1) in W2; [|exact W1].
  destruct (deployKubeApiServerSecretAuditWebhookConfig o w1) as [[e2|] w2];
    unfold ret, mret, M_ret; cbn [fst snd] in *.
  { split; [|by intros [= ->]]. eapply within_calls_mono; [|exact W2]. lia. }
  rewrite bind_eq.
  pose proof (generate_once_within o (KubeApiServerSecretNameBasicAuth Prefix)
                basicAuthKey basicAuth_encode w2) as (W3 & R3 & P3).
  pose proof (generate_once_step_frame o (KubeApiServerSecretNameBasicAuth Prefix)
                basicAuthKey basicAuth_encode w2) as (_ & Ho3 & _).
  cbn zeta in *.
  rewrite <- deployKubeApiServerSecretBasicAuth_generate_once in W3, R3, P3, Ho3.
  apply (within_calls_then 4 3 w w2) in W3; [|exact W2].
  assert (Hkb : secrets w2 !! (namespace o, KubeApiServerSecretNameBasicAuth Prefix)
                = secrets w !! (namespace o, KubeApiServerSecretNameBasicAuth Prefix)).
  { rewrite Ho2, Ho1; done. }
  assert (Hke : secrets w2 !! (namespace o, KubeApiServerSecretNameEncryptionConfig Prefix)
                = secrets w !! (namespace o, KubeApiServerSecretNameEncryptionConfig Prefix)).
  { rewrite Ho2, Ho1; done. }
  rewrite Hkb in R3, P3.
  destruct (deployKubeApiServerSecretBasicAuth Prefix o w2) as [[e3|] w3];
    unfold ret, mret, M_ret; cbn [fst snd] in *.
  { split; [eapply within_calls_mono; [|exact W3]; lia|].
    intros He. left. by destruct (R3 He). }
  rewrite bind_eq.
  pose proof (generate_once_within o (KubeApiServerSecretNameEncryptionConfig Prefix)
                encryptionConfigKey encryptionConfig_encode w3) as (W4 & R4 & _).
  cbn zeta in *.
  rewrite <- deployKubeApiServerSecretEncryptionConfig_generate_once in W4, R4.
  apply (within_calls_then 7 3 w w3) in W4; [|exact W3].
  rewrite Ho3, Hke in R4 by done.
  assert (Hfinal : within_calls 10 w (deployKubeApiServerSecretEncryptionConfig Prefix o w3)
            ∧ ((deployKubeApiServerSecretEncryptionConfig Prefix o w3).1 = Some ErrRandom →
                 secrets w !! (namespace o, KubeApiServerSecretNameBasicAuth Prefix) = None
                 ∨ (secrets w !! (namespace o, KubeApiServerSecretNameEncryptionConfig Prefix)
                    = None
                    ∧ List.length (entropy w) < 32))).
  { split; [exact W4|]. intros He. destruct (R4 He) as [Habs Hlen].
    destruct (secrets w !! (namespace o, KubeApiServerSecretNameBasicAuth Prefix))
      as [d|]; [right|by left].
    rewrite P3, He2, He1 in Hlen by (by eexists). done. }
  destruct (deployKubeApiServerSecretEncryptionConfig Prefix o w3) as [[e4|] w4];
    cbn [fst snd] in *; [exact Hfinal|].
  destruct Hfinal as [Hw Hr]. split; [exact Hw|done].
Qed.

End SecretsOutcome.

(** The basic-auth secret is there and 40 bytes of entropy are at hand
    for the key of the encryption config. *)
Lemma deployKubeAPIServerSecrets_failures_witness :
  (deployKubeAPIServerSecrets Sample.Prefix [x01] [x02] Sample.o Sample6.half).1 = None.
Proof.
  destruct (deployKubeAPIServerSecrets_failures Sample.Prefix [x01] [x02]
              Sample.o Sample6.half) as (_ & _ & Hok).
  apply Hok.
  - unfold calm. cbn. constructor.
  - eexists. vm_compute. reflexivity.
  - right. vm_compute. lia.
Defined.


(** ** Deploying the secrets, then deleting them *)

Section RoundTrip.

Context (Prefix : string).
Context (validatingWebhookKubeconfig mutatingWebhookKubeconfig : list byte).

(** Deleting undoes deploying.  Run [deployKubeAPIServerSecrets], with
    whatever outcome, and then [deleteKubeAPIServerSecrets]: when the
    deletion returns nil none of the four secrets is left, every other
    secret and the deployments are as before the deployment, and in a
    cluster that held none of the four secrets the store of secrets is
    back to what it was. *)
Theorem deploy_then_delete_secrets o w :
  let deployed := deployKubeAPIServerSecrets Prefix validatingWebhookKubeconfig
                    mutatingWebhookKubeconfig o w in
  let deleted := deleteKubeAPIServerSecrets Prefix o deployed.2 in
  deleted.1 = None →
  (∀ k, k ∈ secretKeys Prefix o → secrets deleted.2 !! k = None)
  ∧ (∀ k, k ∉ secretKeys Prefix o → secrets deleted.2 !! k = secrets w !! k)
  ∧ deployments deleted.2 = deployments w
  ∧ ((∀ k, k ∈ secretKeys Prefix o → secrets w !! k = None) →
       secrets deleted.2 = secrets w).
Proof.
  intros deployed deleted Hok.
  destruct (deployKubeAPIServerSecrets_touches Prefix validatingWebhookKubeconfig
              mutatingWebhookKubeconfig o w) as (Hdep & Hother & _).
  fold deployed in Hdep, Hother.
  destruct (@delete_range_post Secret Secret_Object (emptySecret o)
              (fun n => (namespace o, n)) _ deployments
              (fun _ => eq_refl) (fun _ _ => eq_refl) (fun _ _ => eq_refl)
              (fun _ _ => eq_refl) (fun _ _ => eq_refl)
              (fun _ _ => eq_refl) (fun _ _ => eq_refl)
              [ KubeApiServerSecretNameAdmissionKubeconfig Prefix;
                KubeApiServerSecretNameAuditWebhookConfig;
                KubeApiServerSecretNameBasicAuth Prefix;
                KubeApiServerSecretNameEncryptionConfig Prefix ] deployed.2)
    as (_ & Hd & Hrem & Hnil & _).
  change (delete_range _ _ _) with deleted in Hd, Hrem, Hnil.
  change (stored ?x) with (secrets x) in Hrem, Hnil.
  change (_ <$> _) with (secretKeys Prefix o) in Hrem, Hnil.
  assert (Hout : ∀ k, k ∉ secretKeys Prefix o → secrets deleted.2 !! k = secrets w !! k).
  { intros k Hk. destruct (Hrem k) as [Heq|[Hin _]]; [|done].
    etransitivity; [exact Heq | by apply Hother]. }
  split_and!; [by apply Hnil | exact Hout | by etransitivity |].
  intros Habs. apply map_eq. intros k.
  destruct (decide (k ∈ secretKeys Prefix o)) as [Hin|Hnin].
  - rewrite (Habs k Hin). by apply Hnil.
  - by apply Hout.
Qed.

End RoundTrip.

(** An empty cluster, a store that never fails: after deploying and
    deleting the store of secrets is empty again. *)
Lemma deploy_then_delete_secrets_witness :
  secrets (deleteKubeAPIServerSecrets Sample.Prefix Sample3.o_webhooks
             (deployKubeAPIServerSecrets Sample.Prefix [x01] [x02]
                Sample3.o_webhooks Sample3.rich).2).2
  = secrets Sample3.rich.
Proof.
  destruct (deploy_then_delete_secrets Sample.Prefix [x01] [x02] Sample3.o_webhooks
              Sample3.rich) as (_ & _ & _ & Hback).
  - by vm_compute.
  - apply Hback. intros k _. reflexivity.
Defined.
